(** * Caronte: the stream reader, the setup validators and the connections view

    A shallow embedding of
    - [frontend/src/validation.js] (port and address validators),
    - [ConfigurationPane.validateSettings] / [saveSettings],
    - [Connections.loadConnections] (the paginated connection list),
    - the Go stream reader [GetConnectionPayload] with [findMatchesBetween],
    - the handlers of the [ConfigurationPane] form, the colour validator
      with [ColorField.onChange], and the two forms of [PcapPane],
    followed by the properties stated about them. *)

From Stdlib Require Import ZArith String Ascii Lia Bool.
From stdpp Require Import base option list sorting gmap.

Local Open Scope Z_scope.

(** ** Outcomes of code that can panic or run out of fuel *)

Inductive outcome (A : Type) : Type :=
  | Returned (a : A)
  | Panicked
  | OutOfFuel.
Arguments Returned {A} a.
Arguments Panicked {A}.
Arguments OutOfFuel {A}.

(** ** [validation.js]

    Line numbers in the comments are those of [frontend/src/validation.js],
    which holds the validators and, after them, the Go source of the stream
    reader. *)

Module Validation.

(** JavaScript strings are taken as sequences of code units below 256. *)

(** [StrWhiteSpaceChar] restricted to code units below 256:
    TAB, LF, VT, FF, CR, SP and NBSP. *)
Definition isStrWhiteSpaceChar (c : ascii) : bool :=
  let n := Z.of_N (N_of_ascii c) in
  (n =? 9) || (n =? 10) || (n =? 11) || (n =? 12) || (n =? 13)
  || (n =? 32) || (n =? 160).

Fixpoint trimStart (s : string) : string :=
  match s with
  | String c r => if isStrWhiteSpaceChar c then trimStart r else s
  | EmptyString => s
  end.

Definition digitValue (c : ascii) : option Z :=
  let n := Z.of_N (N_of_ascii c) in
  if (48 <=? n) && (n <=? 57) then Some (n - 48) else None.

(** The longest prefix of radix-10 digits, as a number; [None] when the
    prefix is empty ([seen] records that a digit was consumed). *)
Fixpoint digitsPrefix (s : string) (acc : Z) (seen : bool) : option Z :=
  match s with
  | String c r =>
      match digitValue c with
      | Some d => digitsPrefix r (10 * acc + d) true
      | None => if seen then Some acc else None
      end
  | EmptyString => if seen then Some acc else None
  end.

(** [parseInt(s, 10)]; [None] is NaN. *)
Definition parseInt10 (s : string) : option Z :=
  match trimStart s with
  | String "-" r => Z.opp <$> digitsPrefix r 0 false
  | String "+" r => digitsPrefix r 0 false
  | t => digitsPrefix t 0 false
  end.

(** Comparisons of a possibly-NaN number with a finite constant. *)
Definition js_gt (x : option Z) (k : Z) : bool :=
  match x with Some v => k <? v | None => false end.
Definition js_le (x : option Z) (k : Z) : bool :=
  match x with Some v => v <=? k | None => false end.

(** [isValidPort: (port, required) =>
      parseInt(port, 10) > (required ? 0 : -1) && parseInt(port, 10) <= 65565] *)
Definition isValidPort (port : string) (required : bool) : bool :=
  js_gt (parseInt10 port) (if required then 0 else -1)
  && js_le (parseInt10 port) 65565.

(** [isValidAddress: (address) => true // TODO] *)
Definition isValidAddress (address : string) : bool := true.

End Validation.

(** ** [ConfigurationPane]: [validateSettings] and [saveSettings] *)

Module ConfigurationPane.

Record Config := mkConfig {
  server_address : string;
  flag_regex : string;
  auth_required : bool
}.

Record Settings := mkSettings {
  config : Config;
  accounts : list (string * string)
}.

(** The part of the component state the two functions write. *)
Record PaneState := mkPaneState {
  settings : Settings;
  serverAddressError : option string;
  flagRegexError : option string
}.

Definition validateSettings (st : PaneState) (s : Settings) : bool * PaneState :=
  let valid := true in
  let '(valid, st) :=
    if negb (Validation.isValidAddress (server_address (config s)))
    then (false, mkPaneState (settings st) (Some "invalid ip_address"%string)
                             (flagRegexError st))
    else (valid, st) in
  let '(valid, st) :=
    if Z.of_nat (String.length (flag_regex (config s))) <? 8
    then (false, mkPaneState (settings st) (serverAddressError st)
                             (Some "flag_regex.length < 8"%string))
    else (valid, st) in
  (valid, st).

(** [saveSettings]: the settings posted to [/setup], if any, and the
    state after validation. *)
Definition saveSettings (st : PaneState) : option Settings * PaneState :=
  let '(valid, st') := validateSettings st (settings st) in
  if valid then (Some (settings st), st') else (None, st').

End ConfigurationPane.

(** ** [Connections.loadConnections] *)

Module Connections.

Section View.
(** A connection row as returned by the backend. *)
Context {Conn : Type}.

Record Params := mkParams {
  from : option string;
  to : option string;
  limit : option Z
}.

Record ViewState := mkViewState {
  loading : bool;
  connections : list Conn;
  firstConnection : option Conn;
  lastConnection : option Conn;
  prevParams : option Params
}.

Definition maxConnections : Z := 500.
Definition queryLimit : Z := 50.

(** [Array.prototype.slice(start, end)] on integer arguments. *)
Definition slice (l : list Conn) (start stop : Z) : list Conn :=
  let len := Z.of_nat (length l) in
  let k := if start <? 0 then Z.max (len + start) 0 else Z.min start len in
  let final := if stop <? 0 then Z.max (len + stop) 0 else Z.min stop len in
  take (Z.to_nat (Z.max (final - k) 0)) (drop (Z.to_nat k) l).

(** [a[i]]; an index out of range ([undefined]) is [None]. *)
Definition index (l : list Conn) (i : Z) : option Conn :=
  if i <? 0 then None else l !! Z.to_nat i.

Definition len (l : list Conn) : Z := Z.of_nat (length l).

(** The state after [loadConnections(params)] completes, [res] being the
    JSON body the backend answered with. [params] is never [undefined]
    at the call sites; [None] stands for it all the same. *)
Definition loadConnections (st : ViewState) (params : option Params)
    (res : list Conn) : ViewState :=
  let connections0 := connections st in
  let firstConnection0 := firstConnection st in
  let lastConnection0 := lastConnection st in
  let '(cs, fc, lc) :=
    if bool_decide (is_Some (params ≫= from)) then
      if 0 <? len res then
        let cs := connections st ++ res in
        let lc := index cs (len cs - 1) in
        if maxConnections <? len cs then
          let cs := slice cs (len cs - maxConnections) (len cs - 1) in
          (cs, index cs 0, lc)
        else (cs, firstConnection0, lc)
      else (connections0, firstConnection0, lastConnection0)
    else if bool_decide (is_Some (params ≫= to)) then
      if 0 <? len res then
        let cs := res ++ connections st in
        let fc := index cs 0 in
        if maxConnections <? len cs then
          let cs := slice cs 0 maxConnections in
          (cs, fc, index cs (maxConnections - 1))
        else (cs, fc, lastConnection0)
      else (connections0, firstConnection0, lastConnection0)
    else
      if 0 <? len res then
        (res, index res 0, index res (len res - 1))
      else ([], None, None) in
  {| loading := false;
     connections := cs;
     firstConnection := fc;
     lastConnection := lc;
     prevParams := params |}.

(** The invariant the view relies on when it paginates from
    [lastConnection] and [firstConnection]. *)
Definition view_ok (st : ViewState) : Prop :=
  firstConnection st = head (connections st)
  ∧ lastConnection st = last (connections st)
  ∧ len (connections st) <= maxConnections.
End View.

Arguments ViewState : clear implicits.

End Connections.

(** ** The stream reader (Go): data model *)

(** Unsigned 64-bit arithmetic wraps around. *)
Definition wrap64 (x : Z) : Z := x mod 2 ^ 64.

(** [RowID]: an object id; [IsZero] holds of the zero value only. *)
Definition RowID : Type := N.
Definition IsZero (id : RowID) : bool := (id =? 0)%N.

(** [time.Time], kept as the value of [UnixNano()]. *)
Definition Time : Type := Z.
Definition UnixNano (t : Time) : Z := t.

(** [type PatternSlice [2]uint64] *)
Definition PatternSlice : Type := Z * Z.

Record RegexSlice := mkRegexSlice { From : Z; To : Z }.

Abbreviation PatternMatchesMap := (gmap N (list PatternSlice)).

Module ConnectionStream.
Record t := mk {
  ID : RowID;
  ConnectionID : RowID;
  FromClient : bool;
  DocumentIndex : Z;
  Payload : list Byte.byte;
  BlocksIndexes : list Z;
  BlocksTimestamps : list Time;
  BlocksLoss : list bool;
  PatternMatches : PatternMatchesMap
}.

(** The zero value, left in [result] when no document matches. *)
Definition zero : t := mk 0%N 0%N false 0 [] [] [] [] ∅.
End ConnectionStream.

Module Payload.
Record t (M : Type) := mk {
  FromClient : bool;
  Content : string;
  Metadata : M;
  IsMetadataContinuation : bool;
  Index : Z;
  Timestamp : Time;
  IsRetransmitted : bool;
  RegexMatches : list RegexSlice
}.
Arguments mk {M}.
Arguments FromClient {M}.
Arguments Content {M}.
Arguments Metadata {M}.
Arguments IsMetadataContinuation {M}.
Arguments Index {M}.
Arguments Timestamp {M}.
Arguments IsRetransmitted {M}.
Arguments RegexMatches {M}.

(** [elem.Metadata = metadata; elem.IsMetadataContinuation = c] *)
Definition setMetadata {M} (metadata : M) (c : bool) (p : t M) : t M :=
  mk (FromClient p) (Content p) metadata c (Index p) (Timestamp p)
     (IsRetransmitted p) (RegexMatches p).
End Payload.

Record QueryFormat := mkQueryFormat {
  Format : string;
  Skip : Z;
  Limit : Z
}.

Definition InitialPayloadsSize : Z := 1024.
Definition DefaultQueryFormatLimit : Z := 8024.
Definition InitialRegexSlicesCount : Z := 8.

(** The documents of one connection in the [connection_streams] collection,
    each side listed by [document_index]. The store answers every query
    (no I/O error). *)
Record Storage := mkStorage {
  clientDocuments : list ConnectionStream.t;
  serverDocuments : list ConnectionStream.t
}.

Definition sideDocuments (storage : Storage) (fromClient : bool) :
    list ConnectionStream.t :=
  if fromClient then clientDocuments storage else serverDocuments storage.

(** [Find(...).First(&result)] leaves [result] at its zero value when no
    document matches. Document and block cursors count up from 0 by steps
    of one and are kept as natural numbers. *)
Definition getConnectionStream (storage : Storage) (fromClient : bool)
    (documentIndex : nat) : ConnectionStream.t :=
  default ConnectionStream.zero (sideDocuments storage fromClient !! documentIndex).

(** ** [findMatchesBetween] *)

(** One iteration of the inner loop: the slice is skipped, or contributes
    one block-relative range. *)
Definition matchSlice (from to : Z) (slice : PatternSlice) : list RegexSlice :=
  if (slice.2 <? from) || (to <=? slice.1) then []
  else
    let start := if slice.1 <? from then 0 else wrap64 (slice.1 - from) in
    let end_ := if to <=? slice.2 then wrap64 (to - from)
                else wrap64 (slice.2 - from) in
    [mkRegexSlice start end_].

(** [range] is the order in which this execution of [for ... range
    patternMatches] visits the entries of the map; Go leaves it
    unspecified. *)
Definition findMatchesBetween
    (range : PatternMatchesMap → list (N * list PatternSlice))
    (patternMatches : PatternMatchesMap) (from to : Z) : list RegexSlice :=
  flat_map (λ entry, flat_map (matchSlice from to) entry.2) (range patternMatches).

(** An iteration order visits every entry of the map exactly once. *)
Definition validRange
    (range : PatternMatchesMap → list (N * list PatternSlice)) : Prop :=
  ∀ m, range m ≡ₚ map_to_list m.

(** [payload[start:end]]; the capacity is taken equal to the length. *)
Definition goSlice (payload : list Byte.byte) (start end_ : Z) :
    option (list Byte.byte) :=
  if (0 <=? start) && (start <=? end_) && (end_ <=? Z.of_nat (length payload))
  then Some (take (Z.to_nat (end_ - start)) (drop (Z.to_nat start) payload))
  else None.

(** ** [GetConnectionPayload] *)

(** The cursor of one side: [clientIndex], [clientBlocksIndex],
    [clientDocumentIndex], [clientStream], or their server twins. The two
    branches of the loop body are the same code over the two cursors. *)
Module Side.
Record t := mk {
  Index : Z;
  BlocksIndex : nat;
  DocumentIndex : nat;
  Stream : ConnectionStream.t
}.
End Side.

(** The variables the block selection writes. *)
Record Cursor := mkCursor {
  client : Side.t;
  server : Side.t;
  globalIndex : Z;
  sideChanged : bool;
  lastClient : bool;
  lastServer : bool
}.

(** The Payload objects allocated so far ([heap]; a [*Payload] is an index
    into it) and the slices and buffer that point to them. *)
Record Buffers (M : Type) := mkBuffers {
  heap : list (Payload.t M);
  payloads : list nat;
  payloadsBuffer : list nat;
  contentChunkBuffer : list Byte.byte
}.
Arguments mkBuffers {M}.
Arguments heap {M}.
Arguments payloads {M}.
Arguments payloadsBuffer {M}.
Arguments contentChunkBuffer {M}.

(** One traversed block: the Payload as allocated, the bytes of the block
    and their number. *)
Record Item (M : Type) := mkItem {
  itemPayload : Payload.t M;
  itemBytes : list Byte.byte;
  itemSize : Z
}.
Arguments mkItem {M}.
Arguments itemPayload {M}.
Arguments itemBytes {M}.
Arguments itemSize {M}.

Section Reader.
(** [parsers.Metadata] with its nil value, the parser family
    [parsers.Parse] and the format decoder [DecodeBytes] are external. *)
Context {M : Type}.
Variable nilMetadata : M.
Variable Parse : list Byte.byte → M.
Variable DecodeBytes : list Byte.byte → string → string.

(** The order of the map iteration run for the block [blocksIndex] of the
    document [documentIndex] of a side. *)
Variable rangeOrder :
  bool → nat → nat → PatternMatchesMap → list (N * list PatternSlice).

Variable storage : Storage.
Variable format : QueryFormat.

Definition hasBlocks (sd : Side.t) : bool :=
  bool_decide (Side.BlocksIndex sd
               < length (ConnectionStream.BlocksIndexes (Side.Stream sd)))%nat.

(** Lines 99-120 (client) and 123-144 (server): the Payload of the block
    under the cursor, the bytes of the block, their number, and the
    cursor moved past the block. [None] is an index or slice panic. *)
Definition nextPayload (fromClient : bool) (sd : Side.t) :
    option (Item M * Side.t) :=
  let stream := Side.Stream sd in
  let blocksIndex := Side.BlocksIndex sd in
  start ← ConnectionStream.BlocksIndexes stream !! blocksIndex;
  end_ ← (if Z.of_nat blocksIndex
             <? Z.of_nat (length (ConnectionStream.BlocksIndexes stream)) - 1
          then ConnectionStream.BlocksIndexes stream !! S blocksIndex
          else Some (Z.of_nat (length (ConnectionStream.Payload stream))));
  let size := wrap64 (end_ - start) in
  content ← goSlice (ConnectionStream.Payload stream) start end_;
  timestamp ← ConnectionStream.BlocksTimestamps stream !! blocksIndex;
  loss ← ConnectionStream.BlocksLoss stream !! blocksIndex;
  let payload :=
    {| Payload.FromClient := fromClient;
       Payload.Content := DecodeBytes content (Format format);
       Payload.Metadata := nilMetadata;
       Payload.IsMetadataContinuation := false;
       Payload.Index := start;
       Payload.Timestamp := timestamp;
       Payload.IsRetransmitted := loss;
       Payload.RegexMatches :=
         findMatchesBetween
           (rangeOrder fromClient (Side.DocumentIndex sd) blocksIndex)
           (ConnectionStream.PatternMatches stream)
           (Side.Index sd) (wrap64 (Side.Index sd + size)) |} in
  Some (mkItem payload content size,
        Side.mk (wrap64 (Side.Index sd + size)) (S blocksIndex)
                (Side.DocumentIndex sd) stream).

(** Line 96-98: the condition of the [if]; indexing [BlocksTimestamps]
    out of range panics. *)
Definition nextIsClient (c : Cursor) : option bool :=
  if hasBlocks (client c) then
    if negb (hasBlocks (server c)) then Some true
    else
      tc ← ConnectionStream.BlocksTimestamps (Side.Stream (client c))
             !! Side.BlocksIndex (client c);
      ts ← ConnectionStream.BlocksTimestamps (Side.Stream (server c))
             !! Side.BlocksIndex (server c);
      Some (UnixNano tc <=? UnixNano ts)
  else Some false.

(** Lines 96-146. *)
Definition selectBlock (c : Cursor) : option (Item M * Cursor) :=
  fromClient ← nextIsClient c;
  if fromClient : bool then
    '(it, sd) ← nextPayload true (client c);
    Some (it, mkCursor sd (server c) (wrap64 (globalIndex c + itemSize it))
                       (lastServer c) true false)
  else
    '(it, sd) ← nextPayload false (server c);
    Some (it, mkCursor (client c) sd (wrap64 (globalIndex c + itemSize it))
                       (lastClient c) false true).

(** Lines 148-152 and 153-157, for one side. *)
Definition advanceDocument (fromClient : bool) (sd : Side.t) : Side.t :=
  if negb (hasBlocks sd) then
    Side.mk (Side.Index sd) 0 (S (Side.DocumentIndex sd))
            (getConnectionStream storage fromClient (S (Side.DocumentIndex sd)))
  else sd.

Definition advanceDocuments (c : Cursor) : Cursor :=
  mkCursor (advanceDocument true (client c)) (advanceDocument false (server c))
           (globalIndex c) (sideChanged c) (lastClient c) (lastServer c).

(** Lines 159-170: the closure [updateMetadata]. *)
Definition updateMetadata (b : Buffers M) : Buffers M :=
  let metadata := Parse (contentChunkBuffer b) in
  let '(h, _) :=
    foldl (λ '(h, isMetadataContinuation) elem,
             (alter (Payload.setMetadata metadata isMetadataContinuation) elem h,
              true))
          (heap b, false) (payloadsBuffer b) in
  mkBuffers h (payloads b) [] [].

Definition bothZero (c : Cursor) : bool :=
  IsZero (ConnectionStream.ID (Side.Stream (client c)))
  && IsZero (ConnectionStream.ID (Side.Stream (server c))).

(** Lines 172-190, [limit] being [format.Limit] after line 74-76; the
    boolean tells that line 189 returned. The Payload allocated by the
    branch is placed in the heap here. *)
Definition account (limit : Z) (changed : bool) (it : Item M) (global : Z)
    (zero : bool) (b : Buffers M) : Buffers M * bool :=
  let b := if changed then updateMetadata b else b in
  let payload := length (heap b) in
  let b := mkBuffers (heap b ++ [itemPayload it]) (payloads b)
                     (payloadsBuffer b ++ [payload])
                     (contentChunkBuffer b ++ itemBytes it) in
  let b := if zero then updateMetadata b else b in
  let b := if Skip format <? global
           then mkBuffers (heap b) (payloads b ++ [payload])
                          (payloadsBuffer b) (contentChunkBuffer b)
           else b in
  if wrap64 (Skip format + limit) <? global
  then (updateMetadata b, true)
  else (b, false).

(** The loop body, lines 96-190. *)
Definition body (limit : Z) (s : Cursor * Buffers M) :
    option (Cursor * Buffers M * bool) :=
  '(it, c) ← selectBlock s.1;
  let c := advanceDocuments c in
  let '(b, ret) := account limit (sideChanged c) it (globalIndex c)
                           (bothZero c) s.2 in
  Some (c, b, ret).

(** The [for] loop of line 95. *)
Fixpoint loop (limit : Z) (fuel : nat) (s : Cursor * Buffers M) :
    outcome (Buffers M) :=
  match fuel with
  | O => OutOfFuel
  | S fuel =>
      if negb (bothZero s.1) then
        match body limit s with
        | None => Panicked
        | Some (c, b, true) => Returned b
        | Some (c, b, false) => loop limit fuel (c, b)
        end
      else Returned s.2
  end.

(** The number of blocks in the store bounds the number of iterations. *)
Definition blockCount (docs : list ConnectionStream.t) : nat :=
  sum_list ((λ d, length (ConnectionStream.BlocksIndexes d)) <$> docs).

Definition enoughFuel : nat :=
  S (blockCount (clientDocuments storage) + blockCount (serverDocuments storage)).

Definition effectiveLimit : Z :=
  if Limit format <=? 0 then DefaultQueryFormatLimit else Limit format.

Definition initialCursor : Cursor :=
  mkCursor (Side.mk 0 0 0 (getConnectionStream storage true 0))
           (Side.mk 0 0 0 (getConnectionStream storage false 0))
           0 false false false.

(** What the caller reads through the returned [[]*Payload]. *)
Definition deref (b : Buffers M) : list (Payload.t M) :=
  omap (λ p, heap b !! p) (payloads b).

Definition GetConnectionPayload : outcome (list (Payload.t M)) :=
  match loop effectiveLimit enoughFuel (initialCursor, mkBuffers [] [] [] []) with
  | Returned b => Returned (deref b)
  | Panicked => Panicked
  | OutOfFuel => OutOfFuel
  end.

(** *** The reader, described over lists of blocks

    The definitions below follow the words of the specification (merge by
    timestamp, runs of one side, skip and limit); the loop above is
    compared with them in [GetConnectionPayload_wf]. The blocks themselves
    are the ones [nextPayload] builds. *)

(** The invariants of a persisted ConnectionStream document: a non-zero
    id, at least one block, three block arrays of one length, block
    offsets strictly increasing from a non-negative first one and all
    below the payload length, which fits a Go [int]. *)
Fixpoint strictlyIncreasing (l : list Z) : bool :=
  match l with
  | x :: (y :: _) as r => (x <? y) && strictlyIncreasing r
  | _ => true
  end.

Definition wfDocument (d : ConnectionStream.t) : bool :=
  negb (IsZero (ConnectionStream.ID d))
  && bool_decide (ConnectionStream.BlocksIndexes d ≠ [])
  && bool_decide (length (ConnectionStream.BlocksTimestamps d)
                  = length (ConnectionStream.BlocksIndexes d))
  && bool_decide (length (ConnectionStream.BlocksLoss d)
                  = length (ConnectionStream.BlocksIndexes d))
  && strictlyIncreasing (ConnectionStream.BlocksIndexes d)
  && (0 <=? default 0 (head (ConnectionStream.BlocksIndexes d)))
  && (default 0 (last (ConnectionStream.BlocksIndexes d))
      <? Z.of_nat (length (ConnectionStream.Payload d)))
  && (Z.of_nat (length (ConnectionStream.Payload d)) <? 2 ^ 63).

Definition wfStorage : Prop :=
  Forall (λ d, wfDocument d = true) (clientDocuments storage)
  ∧ Forall (λ d, wfDocument d = true) (serverDocuments storage).

(** The next [n] blocks of a document, from the cursor on. *)
Fixpoint blockItems (fromClient : bool) (n : nat) (sd : Side.t) :
    list (Item M) :=
  match n with
  | O => []
  | S n =>
      match nextPayload fromClient sd with
      | Some (it, sd) => it :: blockItems fromClient n sd
      | None => []
      end
  end.

Definition offsetAfter (index : Z) (its : list (Item M)) : Z :=
  foldl (λ o it, wrap64 (o + itemSize it)) index its.

(** The blocks of the documents [docs], numbered from [documentIndex],
    the side's running offset being [index]. *)
Fixpoint streamItems (fromClient : bool) (documentIndex : nat) (index : Z)
    (docs : list ConnectionStream.t) : list (Item M) :=
  match docs with
  | [] => []
  | d :: docs =>
      let its := blockItems fromClient
                   (length (ConnectionStream.BlocksIndexes d))
                   (Side.mk index 0 documentIndex d) in
      its ++ streamItems fromClient (S documentIndex) (offsetAfter index its) docs
  end.

(** All the blocks of one side, in stream order. *)
Definition sideItems (fromClient : bool) : list (Item M) :=
  streamItems fromClient 0 0 (sideDocuments storage fromClient).

Definition itemTime (it : Item M) : Z :=
  UnixNano (Payload.Timestamp (itemPayload it)).
Definition itemFromClient (it : Item M) : bool :=
  Payload.FromClient (itemPayload it).

(** The merge of the specification: at each step the block with the
    earlier timestamp, the client's on a tie; what is left of one side
    when the other is exhausted. *)
Fixpoint mergeByTimestamp (cs : list (Item M)) : list (Item M) → list (Item M) :=
  fix mergeServer (ss : list (Item M)) : list (Item M) :=
    match cs, ss with
    | [], _ => ss
    | _, [] => cs
    | c :: cs', s :: ss' =>
        if itemTime c <=? itemTime s then c :: mergeByTimestamp cs' ss
        else s :: mergeServer ss'
    end.

(** Each block with the running [globalIndex] after it. *)
Fixpoint withGlobal (global : Z) (its : list (Item M)) : list (Item M * Z) :=
  match its with
  | [] => []
  | it :: its =>
      let global := wrap64 (global + itemSize it) in
      (it, global) :: withGlobal global its
  end.

(** The blocks up to and including the first one whose running
    [globalIndex] exceeds [bound]. *)
Fixpoint stopAfter (bound : Z) (xs : list (Item M * Z)) : list (Item M * Z) :=
  match xs with
  | [] => []
  | x :: xs => if bound <? x.2 then [x] else x :: stopAfter bound xs
  end.

(** The maximal runs of consecutive blocks of one side. *)
Fixpoint runs (xs : list (Item M * Z)) : list (list (Item M * Z)) :=
  match xs with
  | [] => []
  | x :: xs =>
      match runs xs with
      | (y :: run) :: rs =>
          if bool_decide (itemFromClient x.1 = itemFromClient y.1)
          then (x :: y :: run) :: rs
          else [x] :: (y :: run) :: rs
      | _ => [[x]]
      end
  end.

(** [rs] cuts [xs] into maximal runs: every run is non-empty and of one
    side, and neighbouring runs are of different sides. *)
Definition oneSided (run : list (Item M * Z)) : Prop :=
  run ≠ [] ∧ ∀ x y, x ∈ run → y ∈ run → itemFromClient x.1 = itemFromClient y.1.

Fixpoint sidesAlternate (rs : list (list (Item M * Z))) : Prop :=
  match rs with
  | r1 :: (r2 :: _) as rest =>
      (∀ x y, x ∈ r1 → y ∈ r2 → itemFromClient x.1 ≠ itemFromClient y.1)
      ∧ sidesAlternate rest
  | _ => True
  end.

Definition maximalRuns (rs : list (list (Item M * Z))) (xs : list (Item M * Z)) : Prop :=
  concat rs = xs ∧ Forall oneSided rs ∧ sidesAlternate rs.

(** The Payloads of a run once [updateMetadata] has seen it. *)
Definition annotateRun (run : list (Item M * Z)) : list (Payload.t M * Z) :=
  let metadata := Parse (concat ((λ x, itemBytes x.1) <$> run)) in
  imap (λ i x, (Payload.setMetadata metadata (bool_decide (i ≠ 0%nat))
                  (itemPayload x.1), x.2)) run.

(** The Payloads appended to [payloads]: those whose running
    [globalIndex] exceeds [format.Skip]. *)
Definition emitted (xs : list (Payload.t M * Z)) : list (Payload.t M) :=
  fst <$> filter (λ x, Skip format < x.2) xs.

(** The blocks the loop goes through before it returns. *)
Definition traversal : list (Item M * Z) :=
  stopAfter (wrap64 (Skip format + effectiveLimit))
    (withGlobal 0 (mergeByTimestamp (sideItems true) (sideItems false))).

(** The bookkeeping of the loop run over a list of blocks: lines 121/145
    and 172-190 for each block in turn. *)
Fixpoint accountAll (limit : Z) (lastC lastS : bool) (global : Z)
    (b : Buffers M) (its : list (Item M)) : Buffers M :=
  match its with
  | [] => b
  | it :: its =>
      let changed := if itemFromClient it then lastS else lastC in
      let global := wrap64 (global + itemSize it) in
      let '(b, ret) := account limit changed it global
                               (bool_decide (its = [])) b in
      if ret : bool then b
      else accountAll limit (itemFromClient it) (negb (itemFromClient it))
                      global b its
  end.

(** A cursor in its resting position over the documents [docs]: on a
    block of the document it names, or past the last document. *)
Definition sideOk (fromClient : bool) (sd : Side.t) : Prop :=
  Side.Stream sd = getConnectionStream storage fromClient (Side.DocumentIndex sd)
  ∧ ((Side.BlocksIndex sd
      < length (ConnectionStream.BlocksIndexes (Side.Stream sd)))%nat
     ∨ ((length (sideDocuments storage fromClient) ≤ Side.DocumentIndex sd)%nat
        ∧ Side.BlocksIndex sd = 0%nat)).

(** The blocks still ahead of a cursor. *)
Definition remaining (fromClient : bool) (sd : Side.t) : list (Item M) :=
  let its := blockItems fromClient
               (length (ConnectionStream.BlocksIndexes (Side.Stream sd))
                - Side.BlocksIndex sd) sd in
  its ++ streamItems fromClient (S (Side.DocumentIndex sd))
           (offsetAfter (Side.Index sd) its)
           (drop (S (Side.DocumentIndex sd)) (sideDocuments storage fromClient)).
End Reader.

(** The invariants of a document, as propositions. *)
Record wfFacts (d : ConnectionStream.t) : Prop := mkWfFacts {
  wf_id : IsZero (ConnectionStream.ID d) = false;
  wf_nonempty : ConnectionStream.BlocksIndexes d ≠ [];
  wf_times : length (ConnectionStream.BlocksTimestamps d)
             = length (ConnectionStream.BlocksIndexes d);
  wf_loss : length (ConnectionStream.BlocksLoss d)
            = length (ConnectionStream.BlocksIndexes d);
  wf_incr : strictlyIncreasing (ConnectionStream.BlocksIndexes d) = true;
  wf_first : 0 <= default 0 (head (ConnectionStream.BlocksIndexes d));
  wf_last : default 0 (last (ConnectionStream.BlocksIndexes d))
            < Z.of_nat (length (ConnectionStream.Payload d));
  wf_len : Z.of_nat (length (ConnectionStream.Payload d)) < 2 ^ 63
}.

(** The pointers appended to [payloads] for blocks allocated from [k] on,
    [gs] being their running [globalIndex] values. *)
Fixpoint emittedPointers (skip : Z) (k : nat) (gs : list Z) : list nat :=
  match gs with
  | [] => []
  | g :: gs => (if skip <? g then [k] else []) ++ emittedPointers skip (S k) gs
  end.

(** Two Payloads that differ at most in the order of [RegexMatches]. *)
Definition payloadSim {M : Type} (p q : Payload.t M) : Prop :=
  Payload.FromClient p = Payload.FromClient q
  ∧ Payload.Content p = Payload.Content q
  ∧ Payload.Metadata p = Payload.Metadata q
  ∧ Payload.IsMetadataContinuation p = Payload.IsMetadataContinuation q
  ∧ Payload.Index p = Payload.Index q
  ∧ Payload.Timestamp p = Payload.Timestamp q
  ∧ Payload.IsRetransmitted p = Payload.IsRetransmitted q
  ∧ Payload.RegexMatches p ≡ₚ Payload.RegexMatches q.

Definition outcomeSim {M : Type}
    (o1 o2 : outcome (list (Payload.t M))) : Prop :=
  match o1, o2 with
  | Returned l1, Returned l2 => Forall2 payloadSim l1 l2
  | Panicked, Panicked => True
  | OutOfFuel, OutOfFuel => True
  | _, _ => False
  end.

(** The buffers once the Payloads [done] have had their metadata set and
    the blocks [cur] of the current run wait in [payloadsBuffer]. *)
Definition buffersAt {M : Type} (done : list (Payload.t M))
    (cur : list (Item M * Z)) (ptrs : list nat) : Buffers M :=
  mkBuffers (done ++ ((λ x, itemPayload x.1) <$> cur)) ptrs
            (seq (length done) (length cur))
            (concat ((λ x, itemBytes x.1) <$> cur)).

(** [lastClient] and [lastServer] while the current run is [cur]. *)
Definition runFlags {M : Type} (cur : list (Item M * Z))
    (lastC lastS : bool) : Prop :=
  (cur = [] ∧ lastC = false ∧ lastS = false)
  ∨ (cur ≠ [] ∧ Forall (λ x, itemFromClient x.1 = lastC) cur
     ∧ lastS = negb lastC).

(** What [updateMetadata] writes into the Payloads of the buffer. *)
Definition setRun {M : Type} (metadata : M) (continuation : bool)
    (ps : list (Payload.t M)) : list (Payload.t M) :=
  match ps with
  | [] => []
  | p :: ps => Payload.setMetadata metadata continuation p
               :: (Payload.setMetadata metadata true <$> ps)
  end.



(** The number of blocks ahead of a cursor, whatever the documents hold. *)
Definition blocksAhead (storage : Storage) (fromClient : bool) (sd : Side.t) : nat :=
  (length (ConnectionStream.BlocksIndexes (Side.Stream sd)) - Side.BlocksIndex sd
   + blockCount (drop (S (Side.DocumentIndex sd))
                      (sideDocuments storage fromClient)))%nat.

(** Two states of the buffers that differ at most in the order of the
    [RegexMatches] of the Payloads. *)
Definition buffersSim {M : Type} (b1 b2 : Buffers M) : Prop :=
  Forall2 payloadSim (heap b1) (heap b2)
  ∧ payloads b1 = payloads b2
  ∧ payloadsBuffer b1 = payloadsBuffer b2
  ∧ contentChunkBuffer b1 = contentChunkBuffer b2.

Definition itemSim {M : Type} (i1 i2 : Item M) : Prop :=
  payloadSim (itemPayload i1) (itemPayload i2)
  ∧ itemBytes i1 = itemBytes i2
  ∧ itemSize i1 = itemSize i2.

(** Two outcomes of the loop that differ at most in the order of the
    [RegexMatches] of the Payloads. *)
Definition loopSim {M : Type} (o1 o2 : outcome (Buffers M)) : Prop :=
  match o1, o2 with
  | Returned b1, Returned b2 => buffersSim b1 b2
  | Panicked, Panicked => True
  | OutOfFuel, OutOfFuel => True
  | _, _ => False
  end.

(** ** Sample inputs *)

Module Sample.
(** A parser that keeps the bytes it was given, and a decoder that
    copies the bytes. *)
Definition Parse (bytes : list Byte.byte) : option (list Byte.byte) :=
  Some bytes.
Definition DecodeBytes (bytes : list Byte.byte) (format : string) : string :=
  string_of_list_byte bytes.
Definition nilMetadata : option (list Byte.byte) := None.

(** Two iteration orders: the entries of the map in key order, and in
    the reverse order. *)
Definition ascending (fromClient : bool) (documentIndex blocksIndex : nat)
    (m : PatternMatchesMap) : list (N * list PatternSlice) :=
  map_to_list m.
Definition descending (fromClient : bool) (documentIndex blocksIndex : nat)
    (m : PatternMatchesMap) : list (N * list PatternSlice) :=
  reverse (map_to_list m).

(** A client stream of two documents and a server stream of one. The
    first client document has two blocks, ["AB"] and ["CD"]; patterns 1
    and 2 matched in it at offsets [[0,2)] and [[1,3)]. *)
Definition client0 : ConnectionStream.t :=
  ConnectionStream.mk 11%N 7%N true 0
    [Byte.x41; Byte.x42; Byte.x43; Byte.x44] [0; 2] [10; 30] [false; true]
    {[ 1%N := [(0, 2)]; 2%N := [(1, 3)] ]}.
Definition client1 : ConnectionStream.t :=
  ConnectionStream.mk 12%N 7%N true 1
    [Byte.x45; Byte.x46; Byte.x47] [0] [40] [false] ∅.
Definition server0 : ConnectionStream.t :=
  ConnectionStream.mk 13%N 7%N false 0
    [Byte.x61; Byte.x62; Byte.x63] [0] [10] [false] ∅.
Definition storage : Storage := mkStorage [client0; client1] [server0].


Definition everything : QueryFormat := mkQueryFormat "default" 0 0.
Definition skipSeven : QueryFormat := mkQueryFormat "default" 7 0.
Definition limitFive : QueryFormat := mkQueryFormat "default" 0 5.
Definition skipMax : QueryFormat :=
  mkQueryFormat "default" 18446744073709551615 1.

(** A window of three bytes after the first two, and a [limit] of 2^64-1
    after a [skip] of 5, the sum of which wraps to 4. *)
Definition window : QueryFormat := mkQueryFormat "default" 2 3.
Definition skipFiveMax : QueryFormat :=
  mkQueryFormat "default" 5 18446744073709551615.

(** A client document whose first block is empty, which the invariants
    rule out, alone in its connection. *)
Definition emptyBlock : ConnectionStream.t :=
  ConnectionStream.mk 15%N 9%N true 0
    [Byte.x41; Byte.x42] [0; 0] [10; 20] [false; false] ∅.
Definition storageEmptyBlock : Storage := mkStorage [emptyBlock] [].

(** A view holding the connections 0..479, and the 50 rows that follow. *)
Definition view : Connections.ViewState nat :=
  Connections.mkViewState false (seq 0 480) (Some 0%nat) (Some 479%nat) None.
Definition fromLast : option Connections.Params :=
  Some (Connections.mkParams (Some "479"%string) None (Some 50)).
Definition nextRows : list nat := seq 480 50.

Definition pane : ConfigurationPane.PaneState :=
  ConfigurationPane.mkPaneState
    (ConfigurationPane.mkSettings
       (ConfigurationPane.mkConfig "not-an-ip" "CTF\{.+\}" false) [])
    None None.
End Sample.

(** ** What the documents hold, for the statements about whole reads *)

(** The number of payload bytes of a list of documents. *)
Definition payloadBytes (docs : list ConnectionStream.t) : Z :=
  foldr (λ d acc, Z.of_nat (length (ConnectionStream.Payload d)) + acc) 0 docs.

Definition storedBytes (storage : Storage) : Z :=
  payloadBytes (clientDocuments storage) + payloadBytes (serverDocuments storage).

(** The bytes of a document from its first block on, and those of a side. *)
Definition blockBytes (d : ConnectionStream.t) : list Byte.byte :=
  drop (Z.to_nat (default 0 (head (ConnectionStream.BlocksIndexes d))))
       (ConnectionStream.Payload d).

Definition sideBytes (storage : Storage) (fromClient : bool) : list Byte.byte :=
  concat (blockBytes <$> sideDocuments storage fromClient).

(** Start offset, timestamp and loss flag of the blocks of a document. *)
Definition blockFields (d : ConnectionStream.t) : list (Z * Time * bool) :=
  zip (zip (ConnectionStream.BlocksIndexes d)
           (ConnectionStream.BlocksTimestamps d))
      (ConnectionStream.BlocksLoss d).

Definition payloadFields {M : Type} (p : Payload.t M) : Z * Time * bool :=
  (Payload.Index p, Payload.Timestamp p, Payload.IsRetransmitted p).

(** The number of bytes of a list of blocks, as the loop counts them. *)
Definition sumSizes {M : Type} (its : list (Item M)) : Z :=
  foldr (λ it acc, itemSize it + acc) 0 its.

(** ** [ConfigurationPane]: the handlers of the form *)

Module Accounts.
(** [settings.accounts] is a plain object from user name to password,
    kept as the list of its own properties in the order of
    [Object.entries]: the keys that are array indices in ascending
    order, then the other keys in the order of their creation. *)

Fixpoint digitsValue (s : string) (acc : Z) : option Z :=
  match s with
  | EmptyString => Some acc
  | String c r =>
      match Validation.digitValue c with
      | Some d => digitsValue r (10 * acc + d)
      | None => None
      end
  end.

(** The array index a key stands for: a canonical decimal numeral below
    [2^32 - 1]. *)
Definition arrayIndex (key : string) : option Z :=
  match key with
  | EmptyString => None
  | String c r =>
      if Ascii.eqb c "0" then (if String.eqb r "" then Some 0 else None)
      else
        match digitsValue key 0 with
        | Some v => if v <? 2 ^ 32 - 1 then Some v else None
        | None => None
        end
  end.

Definition hasOwn (key : string) (o : list (string * string)) : bool :=
  existsb (λ x, String.eqb x.1 key) o.

(** [o[key]] for an own property. *)
Definition get (key : string) (o : list (string * string)) : option string :=
  snd <$> find (λ x, String.eqb x.1 key) o.

(** A new array-index key goes before the first key that is no array
    index or a greater one. *)
Fixpoint insertIndex (i : Z) (key value : string) (o : list (string * string)) :
    list (string * string) :=
  match o with
  | [] => [(key, value)]
  | x :: o' =>
      match arrayIndex x.1 with
      | Some j => if j <? i then x :: insertIndex i key value o'
                  else (key, value) :: o
      | None => (key, value) :: o
      end
  end.

(** [o[key] = value], [value] being a string: an own property is
    overwritten in place, a new one is created; the key ["__proto__"]
    reaches the setter of [Object.prototype], which ignores a value that
    is neither an object nor null. *)
Definition set (key value : string) (o : list (string * string)) :
    list (string * string) :=
  if String.eqb key "__proto__" then o
  else if hasOwn key o then
    (λ x, if String.eqb x.1 key then (x.1, value) else x) <$> o
  else
    match arrayIndex key with
    | Some i => insertIndex i key value o
    | None => o ++ [(key, value)]
    end.

(** [delete o[key]] *)
Definition delete (key : string) (o : list (string * string)) :
    list (string * string) :=
  filter (λ x, x.1 ≠ key) o.
End Accounts.

Module Pane.
Import ConfigurationPane.

(** The state of the component: the part [validateSettings] writes, and
    the fields of the new account; the two [Active] flags are undefined
    until [addAccount] sets them. *)
Record State := mkState {
  pane : PaneState;
  newUsername : string;
  newPassword : string;
  newUsernameActive : option bool;
  newPasswordActive : option bool
}.

(** The state set by the constructor. *)
Definition initial : State :=
  mkState (mkPaneState (mkSettings (mkConfig "" "" false) []) None None)
          "" "" None None.

(** [updateParam(callback)]: the callback writes into
    [this.state.settings]. *)
Definition updateParam (callback : Settings → Settings) (st : State) : State :=
  mkState (mkPaneState (callback (settings (pane st)))
                       (serverAddressError (pane st))
                       (flagRegexError (pane st)))
          (newUsername st) (newPassword st)
          (newUsernameActive st) (newPasswordActive st).

(** The callbacks the form passes to [updateParam]. *)
Definition setServerAddress (v : string) (s : Settings) : Settings :=
  mkSettings (mkConfig v (flag_regex (config s)) (auth_required (config s)))
             (accounts s).
Definition setFlagRegex (v : string) (s : Settings) : Settings :=
  mkSettings (mkConfig (server_address (config s)) v (auth_required (config s)))
             (accounts s).
Definition setAuthRequired (v : bool) (s : Settings) : Settings :=
  mkSettings (mkConfig (server_address (config s)) (flag_regex (config s)) v)
             (accounts s).
Definition deleteAccount (username : string) (s : Settings) : Settings :=
  mkSettings (config s) (Accounts.delete username (accounts s)).

Definition addAccount (st : State) : State :=
  if negb (String.length (newUsername st) =? 0)%nat
     && negb (String.length (newPassword st) =? 0)%nat
  then
    let s := settings (pane st) in
    let s := mkSettings (config s)
               (Accounts.set (newUsername st) (newPassword st) (accounts s)) in
    mkState (mkPaneState s (serverAddressError (pane st))
                         (flagRegexError (pane st)))
            "" "" (newUsernameActive st) (newPasswordActive st)
  else
    mkState (pane st) (newUsername st) (newPassword st)
            (Some (String.length (newUsername st) =? 0)%nat)
            (Some (String.length (newPassword st) =? 0)%nat).

(** What the user does with the form, and the handler each action runs;
    [Save] is [saveSettings], of which the state is kept here. *)
Inductive action :=
  | ChangeServerAddress (v : string)
  | ChangeFlagRegex (v : string)
  | ChangeAuthRequired (v : bool)
  | DeleteAccount (username : string)
  | ChangeNewUsername (v : string)
  | ChangeNewPassword (v : string)
  | AddAccount
  | Save.

Definition handle (st : State) (a : action) : State :=
  match a with
  | ChangeServerAddress v => updateParam (setServerAddress v) st
  | ChangeFlagRegex v => updateParam (setFlagRegex v) st
  | ChangeAuthRequired v => updateParam (setAuthRequired v) st
  | DeleteAccount username => updateParam (deleteAccount username) st
  | ChangeNewUsername v =>
      mkState (pane st) v (newPassword st)
              (newUsernameActive st) (newPasswordActive st)
  | ChangeNewPassword v =>
      mkState (pane st) (newUsername st) v
              (newUsernameActive st) (newPasswordActive st)
  | AddAccount => addAccount st
  | Save =>
      mkState (saveSettings (pane st)).2 (newUsername st) (newPassword st)
              (newUsernameActive st) (newPasswordActive st)
  end.

Definition handleAll (st : State) (actions : list action) : State :=
  foldl handle st actions.
End Pane.

(** The accounts held by the form. *)
Definition paneAccounts (st : Pane.State) : list (string * string) :=
  ConfigurationPane.accounts (ConfigurationPane.settings (Pane.pane st)).

(** ** [validation.isValidColor] and the colour field *)

Module Color.
(** The regular expressions the validator needs: a character class, a
    sequence, an alternative and the empty expression; [r{3}] is [r r r]
    and the greedy [r{1,2}] is [r (r | empty)]. *)
Inductive regex :=
  | Class (p : ascii → bool)
  | Seq (a b : regex)
  | Alt (a b : regex)
  | Empty.

(** What is left of [s] after each way of matching [r] at its start, in
    the order a backtracking matcher tries them. *)
Fixpoint matchStart (r : regex) (s : string) : list string :=
  match r with
  | Class p =>
      match s with
      | String c t => if p c then [t] else []
      | EmptyString => []
      end
  | Seq a b => matchStart a s ≫= matchStart b
  | Alt a b => matchStart a s ++ matchStart b s
  | Empty => [s]
  end.

(** [/^r$/.test(s)], without flags: [r] matches at the start of [s] and
    ends at its end. *)
Definition test (r : regex) (s : string) : bool :=
  existsb (λ rest, String.eqb rest "") (matchStart r s).

Definition inRange (lo hi c : ascii) : bool :=
  (N_of_ascii lo <=? N_of_ascii c)%N && (N_of_ascii c <=? N_of_ascii hi)%N.

(** [[0-9a-fA-F]] *)
Definition hexDigit (c : ascii) : bool :=
  inRange "0" "9" c || inRange "a" "f" c || inRange "A" "F" c.

(** [#(?:[0-9a-fA-F]{3}){1,2}] *)
Definition colorRegex : regex :=
  let three := Seq (Class hexDigit) (Seq (Class hexDigit) (Class hexDigit)) in
  Seq (Class (Ascii.eqb "#")) (Seq three (Alt three Empty)).

(** [isValidColor: (color) => /^#(?:[0-9a-fA-F]{3}){1,2}$/.test(color)] *)
Definition isValidColor (color : string) : bool := test colorRegex color.

(** [ColorField]: the palette, and the [invalid] flag [onChange] sets. *)
Definition colors : list string :=
  ["#E53935"; "#D81B60"; "#8E24AA"; "#5E35B1"; "#3949AB"; "#1E88E5";
   "#039BE5"; "#00ACC1"; "#00897B"; "#43A047"; "#7CB342"; "#9E9D24";
   "#F9A825"; "#FB8C00"; "#F4511E"; "#6D4C41"]%string.

Definition onChange (value : string) : bool :=
  negb (String.eqb value "") && negb (isValidColor value).

(** The strings the regular expression describes. *)
Definition hexColor (color : string) : Prop :=
  ∃ digits : string,
    color = String "#" digits
    ∧ (String.length digits = 3%nat ∨ String.length digits = 6%nat)
    ∧ forallb hexDigit (list_ascii_of_string digits) = true.
End Color.

(** ** [PcapPane]: the upload and process forms *)

Module PcapPane.

(** [String.prototype.endsWith] *)
Definition endsWith (s suffix : string) : bool :=
  let n := String.length s in
  let m := String.length suffix in
  (m <=? n)%nat && String.eqb (substring (n - m) m s) suffix.

(** A [File] of the browser: its name and MIME type. *)
Record File := mkFile { name : string; type : string }.

(** The part of the component state the two forms use; the status code
    and response are undefined until a request has been answered. *)
Record State := mkState {
  isUploadFileValid : bool;
  isUploadFileFocused : bool;
  uploadFlushAll : bool;
  uploadSelectedFile : option File;
  uploadStatusCode : option Z;
  uploadResponse : option string;
  isFileValid : bool;
  isFileFocused : bool;
  fileValue : string;
  processFlushAll : bool;
  deleteOriginalFile : bool;
  processStatusCode : option Z;
  processResponse : option string
}.

(** The state set by the constructor. *)
Definition initial : State :=
  mkState true false false None None None true false "" false false None None.

(** The requests the pane sends: [POST /api/pcap/upload] with the form
    data and [POST /api/pcap/file] with the JSON body. *)
Inductive request :=
  | PostUpload (file : File) (flush_all : bool)
  | PostFile (file : string) (flush_all delete_original_file : bool).

Definition resetUpload (st : State) : State :=
  mkState true false false None (uploadStatusCode st) (uploadResponse st)
          (isFileValid st) (isFileFocused st) (fileValue st)
          (processFlushAll st) (deleteOriginalFile st)
          (processStatusCode st) (processResponse st).

Definition resetProcess (st : State) : State :=
  mkState (isUploadFileValid st) (isUploadFileFocused st) (uploadFlushAll st)
          (uploadSelectedFile st) (uploadStatusCode st) (uploadResponse st)
          true false "" false false
          (processStatusCode st) (processResponse st).

Definition handleUploadFileChange (file : option File) (st : State) : State :=
  mkState (match file with
           | None => true
           | Some f => endsWith (type f) "pcap" || endsWith (type f) "pcapng"
           end)
          false (uploadFlushAll st) file None None
          (isFileValid st) (isFileFocused st) (fileValue st)
          (processFlushAll st) (deleteOriginalFile st)
          (processStatusCode st) (processResponse st).

Definition handleFileChange (file : string) (st : State) : State :=
  mkState (isUploadFileValid st) (isUploadFileFocused st) (uploadFlushAll st)
          (uploadSelectedFile st) (uploadStatusCode st) (uploadResponse st)
          (endsWith file "pcap" || endsWith file "pcapng") false file
          (processFlushAll st) (deleteOriginalFile st) None None.

(** [uploadPcap] up to the request: the request sent, if any, and the
    state. *)
Definition uploadPcap (st : State) : option request * State :=
  match uploadSelectedFile st with
  | Some file =>
      if negb (isUploadFileValid st) then
        (None,
         mkState (isUploadFileValid st) true (uploadFlushAll st)
                 (uploadSelectedFile st) (uploadStatusCode st)
                 (uploadResponse st) (isFileValid st) (isFileFocused st)
                 (fileValue st) (processFlushAll st) (deleteOriginalFile st)
                 (processStatusCode st) (processResponse st))
      else (Some (PostUpload file (uploadFlushAll st)), st)
  | None =>
      (None,
       mkState (isUploadFileValid st) true (uploadFlushAll st)
               (uploadSelectedFile st) (uploadStatusCode st)
               (uploadResponse st) (isFileValid st) (isFileFocused st)
               (fileValue st) (processFlushAll st) (deleteOriginalFile st)
               (processStatusCode st) (processResponse st))
  end.

(** [processPcap] up to the request. *)
Definition processPcap (st : State) : option request * State :=
  if String.eqb (fileValue st) "" || negb (isFileValid st) then
    (None,
     mkState (isUploadFileValid st) (isUploadFileFocused st) (uploadFlushAll st)
             (uploadSelectedFile st) (uploadStatusCode st) (uploadResponse st)
             (isFileValid st) true (fileValue st)
             (processFlushAll st) (deleteOriginalFile st)
             (processStatusCode st) (processResponse st))
  else
    (Some (PostFile (fileValue st) (processFlushAll st) (deleteOriginalFile st)),
     st).

(** The callbacks run when a request is answered: [then] stores the
    status and resets the form, [catch] stores the status only. *)
Definition uploadAnswered (ok : bool) (status : Z) (response : string)
    (st : State) : State :=
  let st :=
    mkState (isUploadFileValid st) (isUploadFileFocused st) (uploadFlushAll st)
            (uploadSelectedFile st) (Some status) (Some response)
            (isFileValid st) (isFileFocused st) (fileValue st)
            (processFlushAll st) (deleteOriginalFile st)
            (processStatusCode st) (processResponse st) in
  if ok then resetUpload st else st.

Definition processAnswered (ok : bool) (status : Z) (response : string)
    (st : State) : State :=
  let st :=
    mkState (isUploadFileValid st) (isUploadFileFocused st) (uploadFlushAll st)
            (uploadSelectedFile st) (uploadStatusCode st) (uploadResponse st)
            (isFileValid st) (isFileFocused st) (fileValue st)
            (processFlushAll st) (deleteOriginalFile st)
            (Some status) (Some response) in
  if ok then resetProcess st else st.

(** What happens to the pane: the user's actions and the answers of the
    backend, in any order. *)
Inductive event :=
  | UploadFileChange (file : option File)
  | UploadFlushAll (v : bool)
  | UploadPcap
  | UploadAnswered (ok : bool) (status : Z) (response : string)
  | FileChange (file : string)
  | ProcessFlushAll (v : bool)
  | DeleteOriginalFile (v : bool)
  | ProcessPcap
  | ProcessAnswered (ok : bool) (status : Z) (response : string).

Definition handle (st : State) (e : event) : option request * State :=
  match e with
  | UploadFileChange file => (None, handleUploadFileChange file st)
  | UploadFlushAll v =>
      (None,
       mkState (isUploadFileValid st) (isUploadFileFocused st) v
               (uploadSelectedFile st) (uploadStatusCode st) (uploadResponse st)
               (isFileValid st) (isFileFocused st) (fileValue st)
               (processFlushAll st) (deleteOriginalFile st)
               (processStatusCode st) (processResponse st))
  | UploadPcap => uploadPcap st
  | UploadAnswered ok status response =>
      (None, uploadAnswered ok status response st)
  | FileChange file => (None, handleFileChange file st)
  | ProcessFlushAll v =>
      (None,
       mkState (isUploadFileValid st) (isUploadFileFocused st)
               (uploadFlushAll st) (uploadSelectedFile st)
               (uploadStatusCode st) (uploadResponse st)
               (isFileValid st) (isFileFocused st) (fileValue st)
               v (deleteOriginalFile st)
               (processStatusCode st) (processResponse st))
  | DeleteOriginalFile v =>
      (None,
       mkState (isUploadFileValid st) (isUploadFileFocused st)
               (uploadFlushAll st) (uploadSelectedFile st)
               (uploadStatusCode st) (uploadResponse st)
               (isFileValid st) (isFileFocused st) (fileValue st)
               (processFlushAll st) v
               (processStatusCode st) (processResponse st))
  | ProcessPcap => processPcap st
  | ProcessAnswered ok status response =>
      (None, processAnswered ok status response st)
  end.

(** The requests sent over a sequence of events, and the state after
    it. *)
Fixpoint run (st : State) (events : list event) : list request * State :=
  match events with
  | [] => ([], st)
  | e :: events =>
      let '(r, st) := handle st e in
      let '(rs, st) := run st events in
      (option_list r ++ rs, st)
  end.

(** The files the backend accepts by their ending. *)
Definition pcapEnding (s : string) : Prop :=
  ∃ stem : string,
    s = (stem ++ "pcap")%string ∨ s = (stem ++ "pcapng")%string.

Definition requestOk (r : request) : Prop :=
  match r with
  | PostUpload file _ => pcapEnding (type file)
  | PostFile file _ _ => file ≠ ""%string ∧ pcapEnding file
  end.

(** What the forms keep true of their state. *)
Definition formsOk (st : State) : Prop :=
  (isUploadFileValid st = true →
   ∀ file, uploadSelectedFile st = Some file → pcapEnding (type file))
  ∧ (isFileValid st = true →
     fileValue st = ""%string ∨ pcapEnding (fileValue st)).
End PcapPane.

(** ** Further sample inputs *)

Module Sample2.
(** A server document that holds no block, alone in its connection. *)
Definition blockless : ConnectionStream.t :=
  ConnectionStream.mk 14%N 8%N false 0 [] [] [] [] ∅.
Definition storageBlockless : Storage := mkStorage [] [blockless].

(** A page of five bytes after the first three. *)
Definition page : QueryFormat := mkQueryFormat "default" 3 5.

(** A match over the bytes 0 to 5 of a stream. *)
Definition matches : PatternMatchesMap := {[ 1%N := [(0, 5)] ]}.

(** The 20 rows before row 0 of the sample view, numbered from 1000. *)
Definition toFirst : Connections.Params :=
  Connections.mkParams None (Some "0"%string) (Some 50).
Definition previousRows : list nat := seq 1000 20.

(** The form with a new account typed in. *)
Definition newAccount : Pane.State :=
  Pane.mkState (Pane.pane Pane.initial) "alice" "secret" None None.
End Sample2.

(** ** The blocks the loop goes through, whatever the documents hold *)

Section Walk.
Context {M : Type}.
Variable nilMetadata : M.
Variable Parse : list Byte.byte → M.
Variable DecodeBytes : list Byte.byte → string → string.
Variable rangeOrder :
  bool → nat → nat → PatternMatchesMap → list (N * list PatternSlice).
Variable storage : Storage.
Variable format : QueryFormat.

(** The loop of line 95 with the bookkeeping of lines 159-190 left out:
    the blocks that lines 96-157 select one after the other for as long
    as a stream has a non-zero id, and how the selection ends,
    [Returned tt] when the loop condition fails and [Panicked] when an
    index is out of range. The selection reads neither [format.Skip] nor
    [format.Limit]. *)
Fixpoint walk (fuel : nat) (c : Cursor) : list (Item M) * outcome unit :=
  match fuel with
  | O => ([], OutOfFuel)
  | S fuel =>
      if negb (bothZero c) then
        match selectBlock nilMetadata DecodeBytes rangeOrder format c with
        | None => ([], Panicked)
        | Some (it, c) =>
            let '(its, e) := walk fuel (advanceDocuments storage c) in
            (it :: its, e)
        end
      else ([], Returned tt)
  end.

(** The blocks the reader would go through were it never stopped by the
    limit, each with the running [globalIndex] after it, and whether the
    selection ends in a panic. *)
Definition walked : list (Item M * Z) :=
  withGlobal 0 (walk (enoughFuel storage) (initialCursor storage)).1.

Definition walkPanics : bool :=
  match (walk (enoughFuel storage) (initialCursor storage)).2 with
  | Panicked => true
  | _ => false
  end.

(** Some block brings the running [globalIndex] above [bound]. *)
Definition passes (bound : Z) (xs : list (Item M * Z)) : bool :=
  existsb (λ x, bound <? x.2) xs.

(** The outcome of a reader that goes through [walked] and returns after
    the first block whose running [globalIndex] exceeds [bound], or at
    the end: it panics if the selection panics before such a block, and
    returns otherwise the Payloads of the blocks gone through whose
    running [globalIndex] exceeds [format.Skip], with the metadata of
    their runs. *)
Definition readUpTo (bound : Z) : outcome (list (Payload.t M)) :=
  if walkPanics && negb (passes bound walked) then Panicked
  else Returned (emitted format
                   (flat_map (annotateRun Parse)
                      (runs (stopAfter bound walked)))).
End Walk.

(** * Properties *)


(** ** Documents that satisfy the invariants *)

Lemma strictlyIncreasing_lookup (l : list Z) (i j : nat) (x y : Z) :
  strictlyIncreasing l = true → l !! i = Some x → l !! j = Some y →
  (i < j)%nat → x < y.
Proof.
  revert i j x. induction l as [|a l IH]; intros i j x Hs Hi Hj Hlt; [done|].
  destruct j as [|j]; [lia|].
  assert (Hl : strictlyIncreasing l = true).
  { destruct l; [done|]. simpl in Hs. by apply andb_prop in Hs as [_ ?]. }
  destruct i as [|i]; simpl in *.
  - injection Hi as ->.
    destruct l as [|b l]; [done|].
    apply andb_prop in Hs as [Hab _]. apply Z.ltb_lt in Hab.
    destruct j as [|j]; simpl in Hj; [by injection Hj as <-|].
    specialize (IH 0%nat (S j) b Hl eq_refl Hj). lia.
  - apply (IH i j x Hl Hi Hj). lia.
Qed.

Lemma strictlyIncreasing_sorted (l : list Z) :
  strictlyIncreasing l = true → StronglySorted Z.lt l.
Proof.
  induction l as [|x l IH]; [constructor|]. intros H.
  assert (Hl : strictlyIncreasing l = true).
  { destruct l; [done|]. simpl in H. by apply andb_prop in H as [_ ?]. }
  constructor; [by apply IH|].
  apply Forall_forall. intros y Hy.
  apply list_elem_of_lookup in Hy as [j Hj].
  by apply (strictlyIncreasing_lookup (x :: l) 0 (S j) x y H); [| |lia].
Qed.

Lemma wfDocument_facts (d : ConnectionStream.t) :
  wfDocument d = true → wfFacts d.
Proof.
  unfold wfDocument. rewrite !andb_true_iff, !bool_decide_eq_true.
  rewrite negb_true_iff, Z.leb_le, !Z.ltb_lt. intros. destruct_and!. by split.
Qed.

(** Every block offset of a well-formed document lies within the payload,
    and the offsets of a block and of its successor are in order. *)
Lemma wf_block_bounds (d : ConnectionStream.t) (k : nat) (start : Z) :
  wfFacts d → ConnectionStream.BlocksIndexes d !! k = Some start →
  0 <= start < Z.of_nat (length (ConnectionStream.Payload d)).
Proof.
  intros W Hk. destruct W as [_ Hne _ _ Hinc Hfirst Hlast _].
  destruct (ConnectionStream.BlocksIndexes d) as [|a l] eqn:E; [done|].
  simpl in Hfirst.
  assert (Hlastk : ∃ z, last (a :: l) = Some z) by (by apply last_is_Some).
  destruct Hlastk as [z Hz]. rewrite Hz in Hlast. simpl in Hlast.
  rewrite last_lookup in Hz.
  assert (Hlen : (k < length (a :: l))%nat) by (by eapply lookup_lt_Some).
  split.
  - destruct k as [|k]; [by injection Hk as <-|].
    assert (a < start); [|lia].
    by eapply (strictlyIncreasing_lookup (a :: l) 0 (S k)); [| |done|lia].
  - destruct (decide (k = pred (length (a :: l)))) as [->|Hne'].
    + rewrite Hz in Hk. injection Hk as <-. lia.
    + assert (start < z); [|lia].
      eapply (strictlyIncreasing_lookup (a :: l) k); [done|done|exact Hz|].
      simpl in *. lia.
Qed.

(** ** The reader over well-formed documents *)

Section ReaderFacts.
Context {M : Type}.
Variable nilMetadata : M.
Variable Parse : list Byte.byte → M.
Variable DecodeBytes : list Byte.byte → string → string.
Variable rangeOrder :
  bool → nat → nat → PatternMatchesMap → list (N * list PatternSlice).
Variable storage : Storage.
Variable format : QueryFormat.

Local Abbreviation nextPayload' :=
  (nextPayload nilMetadata DecodeBytes rangeOrder format).
Local Abbreviation blockItems' :=
  (blockItems nilMetadata DecodeBytes rangeOrder format).
Local Abbreviation streamItems' :=
  (streamItems nilMetadata DecodeBytes rangeOrder format).
Local Abbreviation sideItems' :=
  (sideItems nilMetadata DecodeBytes rangeOrder storage format).
Local Abbreviation remaining' :=
  (remaining nilMetadata DecodeBytes rangeOrder storage format).
Local Abbreviation selectBlock' :=
  (selectBlock nilMetadata DecodeBytes rangeOrder format).
Local Abbreviation loop' :=
  (loop nilMetadata Parse DecodeBytes rangeOrder storage format).
Local Abbreviation body' :=
  (body nilMetadata Parse DecodeBytes rangeOrder storage format).
Local Abbreviation traversal' :=
  (traversal nilMetadata DecodeBytes rangeOrder storage format).

Lemma nextPayload_wf (fromClient : bool) (sd : Side.t) :
  wfFacts (Side.Stream sd) →
  (Side.BlocksIndex sd
   < length (ConnectionStream.BlocksIndexes (Side.Stream sd)))%nat →
  ∃ it,
    nextPayload' fromClient sd
    = Some (it, Side.mk (wrap64 (Side.Index sd + itemSize it))
                        (S (Side.BlocksIndex sd)) (Side.DocumentIndex sd)
                        (Side.Stream sd))
    ∧ Payload.FromClient (itemPayload it) = fromClient
    ∧ ConnectionStream.BlocksIndexes (Side.Stream sd) !! Side.BlocksIndex sd
      = Some (Payload.Index (itemPayload it))
    ∧ ConnectionStream.BlocksTimestamps (Side.Stream sd) !! Side.BlocksIndex sd
      = Some (Payload.Timestamp (itemPayload it)).
Proof.
  intros W Hk. destruct sd as [off k di d]. simpl in *.
  destruct (lookup_lt_is_Some_2 _ _ Hk) as [start Hstart].
  assert (Hts : is_Some (ConnectionStream.BlocksTimestamps d !! k)).
  { apply lookup_lt_is_Some_2. rewrite (wf_times _ W). done. }
  assert (Hloss : is_Some (ConnectionStream.BlocksLoss d !! k)).
  { apply lookup_lt_is_Some_2. rewrite (wf_loss _ W). done. }
  destruct Hts as [ts Hts]. destruct Hloss as [loss Hloss].
  pose proof (wf_block_bounds d k start W Hstart) as Hb.
  assert (Hend : ∃ end_,
    (if Z.of_nat k <? Z.of_nat (length (ConnectionStream.BlocksIndexes d)) - 1
     then ConnectionStream.BlocksIndexes d !! S k
     else Some (Z.of_nat (length (ConnectionStream.Payload d)))) = Some end_
    ∧ start <= end_ <= Z.of_nat (length (ConnectionStream.Payload d))).
  { destruct (Z.ltb_spec (Z.of_nat k)
                (Z.of_nat (length (ConnectionStream.BlocksIndexes d)) - 1)).
    - assert (Hk' : (S k < length (ConnectionStream.BlocksIndexes d))%nat) by lia.
      destruct (lookup_lt_is_Some_2 _ _ Hk') as [e He].
      exists e. split; [done|].
      pose proof (wf_block_bounds d (S k) e W He).
      pose proof (strictlyIncreasing_lookup _ k (S k) start e
                    (wf_incr _ W) Hstart He). lia.
    - eexists. split; [done|]. lia. }
  destruct Hend as (end_ & Hend & Hle).
  unfold nextPayload. simpl. rewrite Hstart. simpl. rewrite Hend. simpl.
  unfold goSlice.
  assert (Hc : (0 <=? start) && (start <=? end_)
               && (end_ <=? Z.of_nat (length (ConnectionStream.Payload d)))
               = true).
  { rewrite !andb_true_iff, !Z.leb_le. lia. }
  rewrite Hc. simpl. rewrite Hts. simpl. rewrite Hloss. simpl.
  eexists (mkItem _ _ _). split; [reflexivity|]. simpl. done.
Qed.

Lemma wfStorage_lookup (fromClient : bool) (i : nat) (d : ConnectionStream.t) :
  wfStorage storage → sideDocuments storage fromClient !! i = Some d →
  wfFacts d.
Proof.
  intros [Wc Ws] Hd. apply wfDocument_facts.
  destruct fromClient; simpl in Hd.
  - by eapply (Forall_lookup_1 _ _ _ _ Wc).
  - by eapply (Forall_lookup_1 _ _ _ _ Ws).
Qed.

Lemma advanceDocument_hasBlocks (fromClient : bool) (sd : Side.t) :
  (Side.BlocksIndex sd
   < length (ConnectionStream.BlocksIndexes (Side.Stream sd)))%nat →
  advanceDocument storage fromClient sd = sd.
Proof.
  intros Hk. unfold advanceDocument, hasBlocks.
  by rewrite bool_decide_eq_true_2.
Qed.

(** A cursor past the last document: nothing ahead, a zero stream, and
    it stays so. *)
Lemma sideOk_exhausted (fromClient : bool) (sd : Side.t) :
  sideOk storage fromClient sd →
  ¬ (Side.BlocksIndex sd
     < length (ConnectionStream.BlocksIndexes (Side.Stream sd)))%nat →
  remaining' fromClient sd = []
  ∧ hasBlocks sd = false
  ∧ IsZero (ConnectionStream.ID (Side.Stream sd)) = true
  ∧ sideOk storage fromClient (advanceDocument storage fromClient sd)
  ∧ ¬ (Side.BlocksIndex (advanceDocument storage fromClient sd)
       < length (ConnectionStream.BlocksIndexes
                   (Side.Stream (advanceDocument storage fromClient sd))))%nat.
Proof.
  intros [Hs [Hk|[Hd Hk]]] Hn; [done|].
  destruct sd as [off k di d]. simpl in *. subst k.
  assert (Hz : ∀ j, (di ≤ j)%nat →
               getConnectionStream storage fromClient j = ConnectionStream.zero).
  { intros j Hj. unfold getConnectionStream.
    rewrite lookup_ge_None_2; [done|lia]. }
  rewrite (Hz di) in Hs by lia. subst d.
  unfold remaining, advanceDocument, hasBlocks, sideOk. simpl.
  rewrite drop_ge by lia. rewrite (Hz (S di)) by lia. simpl.
  repeat split; try done; try lia.
Qed.

(** A cursor on a block: the loop can take the block, and what is ahead
    of the cursor afterwards is the rest. *)
Lemma sideOk_step (fromClient : bool) (sd : Side.t) :
  wfStorage storage → sideOk storage fromClient sd →
  (Side.BlocksIndex sd
   < length (ConnectionStream.BlocksIndexes (Side.Stream sd)))%nat →
  ∃ it sd1,
    nextPayload' fromClient sd = Some (it, sd1)
    ∧ remaining' fromClient sd
      = it :: remaining' fromClient (advanceDocument storage fromClient sd1)
    ∧ sideOk storage fromClient (advanceDocument storage fromClient sd1)
    ∧ itemFromClient it = fromClient
    ∧ ConnectionStream.BlocksTimestamps (Side.Stream sd) !! Side.BlocksIndex sd
      = Some (Payload.Timestamp (itemPayload it))
    ∧ IsZero (ConnectionStream.ID (Side.Stream sd)) = false
    ∧ hasBlocks sd = true.
Proof.
  intros W [Hs _] Hk.
  assert (Hd : sideDocuments storage fromClient !! Side.DocumentIndex sd
               = Some (Side.Stream sd)).
  { unfold getConnectionStream in Hs.
    destruct (sideDocuments storage fromClient !! Side.DocumentIndex sd)
      as [d|] eqn:E; simpl in Hs; [by rewrite Hs|].
    rewrite Hs in Hk. simpl in Hk. lia. }
  pose proof (wfStorage_lookup _ _ _ W Hd) as Wd.
  destruct (nextPayload_wf fromClient sd Wd Hk) as (it & Hnext & Hfc & _ & Hts).
  eexists it, _. split; [exact Hnext|].
  destruct sd as [off k di d]. simpl in *.
  set (sd1 := Side.mk (wrap64 (off + itemSize it)) (S k) di d).
  assert (Hrem : remaining' fromClient (Side.mk off k di d)
    = it :: (blockItems' fromClient
               (length (ConnectionStream.BlocksIndexes d) - S k) sd1
             ++ streamItems' fromClient (S di)
                  (offsetAfter (wrap64 (off + itemSize it))
                     (blockItems' fromClient
                        (length (ConnectionStream.BlocksIndexes d) - S k) sd1))
                  (drop (S di) (sideDocuments storage fromClient)))).
  { unfold remaining. simpl.
    replace (length (ConnectionStream.BlocksIndexes d) - k)%nat
      with (S (length (ConnectionStream.BlocksIndexes d) - S k)) by lia.
    simpl. rewrite Hnext. done. }
  rewrite Hrem.
  assert (Hhas : hasBlocks (Side.mk off k di d) = true).
  { unfold hasBlocks. simpl. by rewrite bool_decide_eq_true_2. }
  destruct (decide (S k < length (ConnectionStream.BlocksIndexes d))%nat)
    as [Hlt|Hge].
  - rewrite advanceDocument_hasBlocks by done.
    split_and!; try done.
    + unfold sideOk. simpl. split; [done|]. by left.
    + apply (wf_id _ Wd).
  - unfold advanceDocument, hasBlocks. simpl.
    rewrite bool_decide_eq_false_2 by done. simpl.
    replace (length (ConnectionStream.BlocksIndexes d) - S k)%nat
      with 0%nat by lia.
    simpl. unfold remaining, sideOk. simpl. rewrite Nat.sub_0_r.
    unfold getConnectionStream.
    destruct (sideDocuments storage fromClient !! S di) as [d'|] eqn:E; simpl.
    + rewrite (drop_S _ _ _ E). simpl.
      pose proof (wfStorage_lookup _ _ _ W E) as Wd'.
      split_and!; try done.
      * left. pose proof (wf_nonempty _ Wd').
        destruct (ConnectionStream.BlocksIndexes d'); simpl; [done|lia].
      * apply (wf_id _ Wd).
    + apply lookup_ge_None in E.
      rewrite !drop_ge by lia. simpl.
      split_and!; try done.
      * right. split; [lia|done].
      * apply (wf_id _ Wd).
Qed.

(** The side the loop did not take a block from: line 148-157 leaves
    what is ahead of it unchanged. *)
Lemma sideOk_advance (fromClient : bool) (sd : Side.t) :
  sideOk storage fromClient sd →
  sideOk storage fromClient (advanceDocument storage fromClient sd)
  ∧ remaining' fromClient (advanceDocument storage fromClient sd)
    = remaining' fromClient sd.
Proof.
  intros Hok.
  destruct (decide (Side.BlocksIndex sd
     < length (ConnectionStream.BlocksIndexes (Side.Stream sd)))%nat)
    as [Hk|Hk].
  - by rewrite advanceDocument_hasBlocks.
  - destruct (sideOk_exhausted _ _ Hok Hk) as (Hr & _ & _ & Hok' & Hk').
    split; [done|].
    destruct (sideOk_exhausted _ _ Hok' Hk') as (Hr' & _).
    by rewrite Hr, Hr'.
Qed.

(** At a resting cursor the stream is the zero value exactly when
    nothing is ahead. *)
Lemma sideOk_zero (fromClient : bool) (sd : Side.t) :
  wfStorage storage → sideOk storage fromClient sd →
  IsZero (ConnectionStream.ID (Side.Stream sd))
  = bool_decide (remaining' fromClient sd = []).
Proof.
  intros W Hok.
  destruct (decide (Side.BlocksIndex sd
     < length (ConnectionStream.BlocksIndexes (Side.Stream sd)))%nat)
    as [Hk|Hk].
  - destruct (sideOk_step _ _ W Hok Hk) as (it & sd1 & _ & Hr & _ & _ & _ & Hz & _).
    rewrite Hz, Hr. by rewrite bool_decide_eq_false_2.
  - destruct (sideOk_exhausted _ _ Hok Hk) as (Hr & _ & Hz & _).
    rewrite Hz, Hr. by rewrite bool_decide_eq_true_2.
Qed.

(** *** The merge *)

Lemma mergeByTimestamp_nil_l (ss : list (Item M)) :
  mergeByTimestamp [] ss = ss.
Proof. by destruct ss. Qed.

Lemma mergeByTimestamp_nil_r (cs : list (Item M)) :
  mergeByTimestamp cs [] = cs.
Proof. by destruct cs. Qed.

Lemma mergeByTimestamp_cons (c s : Item M) (cs ss : list (Item M)) :
  mergeByTimestamp (c :: cs) (s :: ss)
  = if itemTime c <=? itemTime s then c :: mergeByTimestamp cs (s :: ss)
    else s :: mergeByTimestamp (c :: cs) ss.
Proof. reflexivity. Qed.

Lemma mergeByTimestamp_eq_nil (cs ss : list (Item M)) :
  mergeByTimestamp cs ss = [] ↔ cs = [] ∧ ss = [].
Proof.
  split.
  - destruct cs as [|c cs], ss as [|s ss]; try done.
    rewrite mergeByTimestamp_cons. by destruct (_ <=? _).
  - by intros [-> ->].
Qed.

Lemma mergeByTimestamp_length (cs ss : list (Item M)) :
  length (mergeByTimestamp cs ss) = (length cs + length ss)%nat.
Proof.
  revert ss. induction cs as [|c cs IHc]; intros ss.
  { by rewrite mergeByTimestamp_nil_l. }
  induction ss as [|s ss IHs].
  { rewrite mergeByTimestamp_nil_r. simpl. lia. }
  rewrite mergeByTimestamp_cons. destruct (_ <=? _); cbn [length].
  - rewrite IHc. cbn [length]. lia.
  - rewrite IHs. cbn [length]. lia.
Qed.

(** *** The loop runs the bookkeeping over the merge *)

Lemma body_client (limit : Z) (c : Cursor) (b : Buffers M)
    (it : Item M) (sd1 : Side.t) :
  nextIsClient c = Some true →
  nextPayload' true (client c) = Some (it, sd1) →
  body' limit (c, b)
  = let c2 := advanceDocuments storage
                (mkCursor sd1 (server c) (wrap64 (globalIndex c + itemSize it))
                          (lastServer c) true false) in
    let '(b', ret) := account Parse format limit (lastServer c) it
                        (wrap64 (globalIndex c + itemSize it)) (bothZero c2) b in
    Some (c2, b', ret).
Proof.
  intros Hn Hp. unfold body, selectBlock. simpl. rewrite Hn. simpl.
  rewrite Hp. reflexivity.
Qed.

Lemma body_server (limit : Z) (c : Cursor) (b : Buffers M)
    (it : Item M) (sd1 : Side.t) :
  nextIsClient c = Some false →
  nextPayload' false (server c) = Some (it, sd1) →
  body' limit (c, b)
  = let c2 := advanceDocuments storage
                (mkCursor (client c) sd1 (wrap64 (globalIndex c + itemSize it))
                          (lastClient c) false true) in
    let '(b', ret) := account Parse format limit (lastClient c) it
                        (wrap64 (globalIndex c + itemSize it)) (bothZero c2) b in
    Some (c2, b', ret).
Proof.
  intros Hn Hp. unfold body, selectBlock. simpl. rewrite Hn. simpl.
  rewrite Hp. reflexivity.
Qed.

Lemma bothZero_remaining (c : Cursor) :
  wfStorage storage →
  sideOk storage true (client c) → sideOk storage false (server c) →
  bothZero c
  = bool_decide (mergeByTimestamp (remaining' true (client c))
                                  (remaining' false (server c)) = []).
Proof.
  intros W Hc Hs. unfold bothZero.
  rewrite (sideOk_zero true _ W Hc), (sideOk_zero false _ W Hs).
  destruct (decide (remaining' true (client c) = [])) as [Ec|Ec],
           (decide (remaining' false (server c) = [])) as [Es|Es].
  - rewrite !bool_decide_eq_true_2; try done.
    by apply mergeByTimestamp_eq_nil.
  - rewrite (bool_decide_eq_false_2 _ Es), andb_false_r.
    rewrite bool_decide_eq_false_2; [done|].
    rewrite mergeByTimestamp_eq_nil. tauto.
  - rewrite (bool_decide_eq_false_2 _ Ec). simpl.
    rewrite bool_decide_eq_false_2; [done|].
    rewrite mergeByTimestamp_eq_nil. tauto.
  - rewrite (bool_decide_eq_false_2 _ Ec). simpl.
    rewrite bool_decide_eq_false_2; [done|].
    rewrite mergeByTimestamp_eq_nil. tauto.
Qed.

Lemma loop_accountAll (limit : Z) (fuel : nat) (c : Cursor) (b : Buffers M) :
  wfStorage storage →
  sideOk storage true (client c) → sideOk storage false (server c) →
  (length (remaining' true (client c))
   + length (remaining' false (server c)) < fuel)%nat →
  loop' limit fuel (c, b)
  = Returned
      (accountAll Parse format limit (lastClient c) (lastServer c)
         (globalIndex c) b
         (mergeByTimestamp (remaining' true (client c))
                           (remaining' false (server c)))).
Proof.
  intros W. revert c b.
  induction fuel as [|fuel IH]; intros c b Hc Hs Hlen; [lia|].
  cbn [loop fst snd].
  rewrite (bothZero_remaining c W Hc Hs).
  (* the step through a client block *)
  assert (Hclient : ∀ it sd1,
    nextIsClient c = Some true →
    nextPayload' true (client c) = Some (it, sd1) →
    remaining' true (client c)
    = it :: remaining' true (advanceDocument storage true sd1) →
    sideOk storage true (advanceDocument storage true sd1) →
    itemFromClient it = true →
    mergeByTimestamp (remaining' true (client c)) (remaining' false (server c))
    = it :: mergeByTimestamp (remaining' true (advanceDocument storage true sd1))
                             (remaining' false (server c)) →
    match body' limit (c, b) with
    | Some (_, b0, true) => Returned b0
    | Some (c0, b0, false) => loop' limit fuel (c0, b0)
    | None => Panicked
    end
    = Returned
        (accountAll Parse format limit (lastClient c) (lastServer c)
           (globalIndex c) b
           (mergeByTimestamp (remaining' true (client c))
                             (remaining' false (server c))))).
  { intros it sd1 Hn Hp Hrem Hok Hfc Hm.
    rewrite (body_client limit c b it sd1 Hn Hp). cbn zeta.
    destruct (sideOk_advance false _ Hs) as [Hs' Hrs].
    set (c2 := advanceDocuments storage _).
    assert (Hc2 : sideOk storage true (client c2)) by done.
    assert (Hs2 : sideOk storage false (server c2)) by done.
    rewrite (bothZero_remaining c2 W Hc2 Hs2).
    rewrite Hm. cbn [accountAll]. rewrite Hfc.
    replace (remaining' false (server c2)) with (remaining' false (server c))
      by (symmetry; exact Hrs).
    change (remaining' true (client c2))
      with (remaining' true (advanceDocument storage true sd1)).
    destruct (account _ _ _ _ _ _ _ _) as [b' [|]]; [done|].
    rewrite (IH c2 b' Hc2 Hs2).
    - cbn. by rewrite Hrs.
    - change (remaining' true (client c2))
        with (remaining' true (advanceDocument storage true sd1)).
      change (remaining' false (server c2))
        with (remaining' false (advanceDocument storage false (server c))).
      rewrite Hrs. rewrite Hrem in Hlen. simpl in Hlen. lia. }
  (* the step through a server block *)
  assert (Hserver : ∀ it sd1,
    nextIsClient c = Some false →
    nextPayload' false (server c) = Some (it, sd1) →
    remaining' false (server c)
    = it :: remaining' false (advanceDocument storage false sd1) →
    sideOk storage false (advanceDocument storage false sd1) →
    itemFromClient it = false →
    mergeByTimestamp (remaining' true (client c)) (remaining' false (server c))
    = it :: mergeByTimestamp (remaining' true (client c))
                             (remaining' false (advanceDocument storage false sd1)) →
    match body' limit (c, b) with
    | Some (_, b0, true) => Returned b0
    | Some (c0, b0, false) => loop' limit fuel (c0, b0)
    | None => Panicked
    end
    = Returned
        (accountAll Parse format limit (lastClient c) (lastServer c)
           (globalIndex c) b
           (mergeByTimestamp (remaining' true (client c))
                             (remaining' false (server c))))).
  { intros it sd1 Hn Hp Hrem Hok Hfc Hm.
    rewrite (body_server limit c b it sd1 Hn Hp). cbn zeta.
    destruct (sideOk_advance true _ Hc) as [Hc' Hrc].
    set (c2 := advanceDocuments storage _).
    assert (Hc2 : sideOk storage true (client c2)) by done.
    assert (Hs2 : sideOk storage false (server c2)) by done.
    rewrite (bothZero_remaining c2 W Hc2 Hs2).
    rewrite Hm. cbn [accountAll]. rewrite Hfc.
    replace (remaining' true (client c2)) with (remaining' true (client c))
      by (symmetry; exact Hrc).
    change (remaining' false (server c2))
      with (remaining' false (advanceDocument storage false sd1)).
    destruct (account _ _ _ _ _ _ _ _) as [b' [|]]; [done|].
    rewrite (IH c2 b' Hc2 Hs2).
    - cbn. by rewrite Hrc.
    - change (remaining' false (server c2))
        with (remaining' false (advanceDocument storage false sd1)).
      change (remaining' true (client c2))
        with (remaining' true (advanceDocument storage true (client c))).
      rewrite Hrc. rewrite Hrem in Hlen. simpl in Hlen. lia. }
  destruct (decide (Side.BlocksIndex (client c)
     < length (ConnectionStream.BlocksIndexes (Side.Stream (client c))))%nat)
    as [Hkc|Hkc];
  destruct (decide (Side.BlocksIndex (server c)
     < length (ConnectionStream.BlocksIndexes (Side.Stream (server c))))%nat)
    as [Hks|Hks].
  - destruct (sideOk_step true _ W Hc Hkc)
      as (ic & c1 & Hpc & Hrc & Hokc & Hfcc & Htc & _ & Hhc).
    destruct (sideOk_step false _ W Hs Hks)
      as (is_ & s1 & Hps & Hrs & Hoks & Hfcs & Hts & _ & Hhs).
    assert (Hn : nextIsClient c = Some (itemTime ic <=? itemTime is_)).
    { unfold nextIsClient. rewrite Hhc, Hhs. simpl. rewrite Htc. simpl.
      rewrite Hts. reflexivity. }
    assert (Hne : mergeByTimestamp (remaining' true (client c))
                    (remaining' false (server c)) ≠ []).
    { rewrite mergeByTimestamp_eq_nil, Hrc. by intros [? _]. }
    rewrite (bool_decide_eq_false_2 _ Hne). cbn [negb].
    destruct (itemTime ic <=? itemTime is_) eqn:E.
    + apply (Hclient ic c1); try done.
      rewrite Hrc at 1. rewrite Hrs at 1. rewrite mergeByTimestamp_cons, E.
      by rewrite <- Hrs.
    + apply (Hserver is_ s1); try done.
      rewrite Hrc at 1. rewrite Hrs at 1. rewrite mergeByTimestamp_cons, E.
      by rewrite <- Hrc.
  - destruct (sideOk_step true _ W Hc Hkc)
      as (ic & c1 & Hpc & Hrc & Hokc & Hfcc & Htc & _ & Hhc).
    destruct (sideOk_exhausted false _ Hs Hks) as (Hrs & Hhs & _).
    assert (Hn : nextIsClient c = Some true).
    { unfold nextIsClient. by rewrite Hhc, Hhs. }
    assert (Hne : mergeByTimestamp (remaining' true (client c))
                    (remaining' false (server c)) ≠ []).
    { rewrite mergeByTimestamp_eq_nil, Hrc. by intros [? _]. }
    rewrite (bool_decide_eq_false_2 _ Hne). cbn [negb].
    apply (Hclient ic c1); try done.
    by rewrite Hrs, !mergeByTimestamp_nil_r.
  - destruct (sideOk_step false _ W Hs Hks)
      as (is_ & s1 & Hps & Hrs & Hoks & Hfcs & Hts & _ & Hhs).
    destruct (sideOk_exhausted true _ Hc Hkc) as (Hrc & Hhc & _).
    assert (Hn : nextIsClient c = Some false).
    { unfold nextIsClient. by rewrite Hhc. }
    assert (Hne : mergeByTimestamp (remaining' true (client c))
                    (remaining' false (server c)) ≠ []).
    { rewrite mergeByTimestamp_eq_nil, Hrs. by intros [_ ?]. }
    rewrite (bool_decide_eq_false_2 _ Hne). cbn [negb].
    apply (Hserver is_ s1); try done.
    by rewrite Hrc, !mergeByTimestamp_nil_l.
  - destruct (sideOk_exhausted true _ Hc Hkc) as (Hrc & _).
    destruct (sideOk_exhausted false _ Hs Hks) as (Hrs & _).
    rewrite Hrc, Hrs. reflexivity.
Qed.

(** *** The cursors at the start *)

Lemma blockItems_length (fromClient : bool) (n : nat) (sd : Side.t) :
  (length (blockItems' fromClient n sd) ≤ n)%nat.
Proof.
  revert sd. induction n as [|n IH]; intros sd; simpl; [lia|].
  destruct (nextPayload' fromClient sd) as [[it sd']|]; simpl; [|lia].
  specialize (IH sd'). lia.
Qed.

Lemma streamItems_length (fromClient : bool) (di : nat) (off : Z)
    (docs : list ConnectionStream.t) :
  (length (streamItems' fromClient di off docs) ≤ blockCount docs)%nat.
Proof.
  revert di off. induction docs as [|d docs IH]; intros di off; simpl; [done|].
  rewrite length_app.
  change (blockCount (d :: docs))
    with (length (ConnectionStream.BlocksIndexes d) + blockCount docs)%nat.
  pose proof (blockItems_length fromClient
                (length (ConnectionStream.BlocksIndexes d))
                (Side.mk off 0 di d)).
  specialize (IH (S di)
    (offsetAfter off (blockItems' fromClient
                        (length (ConnectionStream.BlocksIndexes d))
                        (Side.mk off 0 di d)))).
  lia.
Qed.

Lemma initial_sideOk (fromClient : bool) :
  wfStorage storage →
  sideOk storage fromClient
    (Side.mk 0 0 0 (getConnectionStream storage fromClient 0))
  ∧ remaining' fromClient
      (Side.mk 0 0 0 (getConnectionStream storage fromClient 0))
    = sideItems' fromClient.
Proof.
  intros W. unfold sideOk, remaining, sideItems, getConnectionStream. simpl.
  destruct (sideDocuments storage fromClient) as [|d docs] eqn:E; simpl.
  - split; [|done]. split; [done|]. right. done.
  - rewrite Nat.sub_0_r, drop_0. split; [|done]. split; [done|]. left.
    assert (Hd : sideDocuments storage fromClient !! 0%nat = Some d)
      by (by rewrite E).
    pose proof (wf_nonempty _ (wfStorage_lookup _ _ _ W Hd)).
    destruct (ConnectionStream.BlocksIndexes d); simpl; [done|lia].
Qed.

(** *** The bookkeeping over a list of blocks *)

Lemma foldl_setMetadata (metadata : M) (raw settled : list (Payload.t M))
    (continuation : bool) :
  (foldl (λ '(h, isMetadataContinuation) elem,
            (alter (Payload.setMetadata metadata isMetadataContinuation) elem h,
             true))
         (settled ++ raw, continuation) (seq (length settled) (length raw))).1
  = settled ++ setRun metadata continuation raw.
Proof.
  revert settled continuation.
  induction raw as [|p raw IH]; intros settled continuation; [reflexivity|].
  cbn [length seq foldl].
  replace (alter (Payload.setMetadata metadata continuation) (length settled)
             (settled ++ p :: raw))
    with ((settled ++ [Payload.setMetadata metadata continuation p]) ++ raw).
  2:{ rewrite <- (Nat.add_0_r (length settled)) at 1.
      rewrite alter_app_r. simpl. by rewrite <- app_assoc. }
  replace (S (length settled))
    with (length (settled ++ [Payload.setMetadata metadata continuation p]))
    by (rewrite length_app; simpl; lia).
  rewrite IH. rewrite <- app_assoc. simpl. by destruct raw.
Qed.

Lemma imap_pointwise {A B : Type} (f : nat → A → B) (g : A → B) (l : list A) :
  (∀ i x, f i x = g x) → imap f l = g <$> l.
Proof.
  revert f. induction l as [|a l IH]; intros f H; [done|].
  rewrite imap_cons. simpl. f_equal; [apply H|].
  apply IH. intros i x. apply H.
Qed.

Lemma annotateRun_fst (run : list (Item M * Z)) :
  fst <$> annotateRun Parse run
  = setRun (Parse (concat ((λ x, itemBytes x.1) <$> run))) false
           ((λ x, itemPayload x.1) <$> run).
Proof.
  unfold annotateRun. destruct run as [|x run]; [done|].
  rewrite imap_cons. cbn [fmap list_fmap setRun fst]. f_equal.
  set (md := Parse _). clearbody md.
  rewrite (imap_pointwise _
             (λ y, (Payload.setMetadata md true (itemPayload y.1), y.2)))
    by done.
  rewrite <- !list_fmap_compose. done.
Qed.

Lemma annotateRun_snd (run : list (Item M * Z)) :
  snd <$> annotateRun Parse run = snd <$> run.
Proof.
  unfold annotateRun. set (md := Parse _). clearbody md.
  rewrite fmap_imap. by apply imap_pointwise.
Qed.

Lemma annotateRun_length (run : list (Item M * Z)) :
  length (annotateRun Parse run) = length run.
Proof. unfold annotateRun. by rewrite length_imap. Qed.

Lemma updateMetadata_buffersAt (settled : list (Payload.t M))
    (cur : list (Item M * Z)) (ptrs : list nat) :
  updateMetadata Parse (buffersAt settled cur ptrs)
  = buffersAt (settled ++ (fst <$> annotateRun Parse cur)) [] ptrs.
Proof.
  unfold updateMetadata, buffersAt. simpl.
  pose proof (foldl_setMetadata
    (Parse (concat ((λ x, itemBytes x.1) <$> cur)))
    ((λ x, itemPayload x.1) <$> cur) settled false) as H.
  rewrite length_fmap in H.
  destruct (foldl _ _ _) as [h c]. simpl in H. subst h.
  by rewrite annotateRun_fst, app_nil_r.
Qed.

(** *** Runs *)

Lemma runs_cons (x : Item M * Z) (xs : list (Item M * Z)) :
  runs (x :: xs)
  = match runs xs with
    | (y :: run) :: rs =>
        if bool_decide (itemFromClient x.1 = itemFromClient y.1)
        then (x :: y :: run) :: rs
        else [x] :: (y :: run) :: rs
    | _ => [[x]]
    end.
Proof. reflexivity. Qed.

Lemma runs_cons_head (x : Item M * Z) (xs : list (Item M * Z)) :
  ∃ run rs, runs (x :: xs) = (x :: run) :: rs.
Proof.
  simpl. destruct (runs xs) as [|[|y run] rs]; [by eexists _, _..|].
  case_bool_decide; by eexists _, _.
Qed.

Lemma runs_oneSided (side : bool) (cur : list (Item M * Z)) :
  cur ≠ [] → Forall (λ x, itemFromClient x.1 = side) cur → runs cur = [cur].
Proof.
  induction cur as [|a cur IH]; intros Hne Hall; [done|].
  apply Forall_cons in Hall as [Ha Hall].
  destruct cur as [|a' cur]; [done|].
  rewrite runs_cons, IH by done.
  apply Forall_cons in Hall as [Ha' _].
  rewrite bool_decide_eq_true_2; [done|congruence].
Qed.

Lemma runs_app_flip (side : bool) (cur : list (Item M * Z))
    (x : Item M * Z) (ys : list (Item M * Z)) :
  cur ≠ [] → Forall (λ y, itemFromClient y.1 = side) cur →
  itemFromClient x.1 ≠ side →
  runs (cur ++ x :: ys) = cur :: runs (x :: ys).
Proof.
  induction cur as [|a cur IH]; intros Hne Hall Hx; [done|].
  apply Forall_cons in Hall as [Ha Hall].
  destruct cur as [|a' cur].
  - cbn [app]. destruct (runs_cons_head x ys) as (run & rs & E).
    rewrite runs_cons, E. rewrite bool_decide_eq_false_2; [done|congruence].
  - rewrite <- app_comm_cons, runs_cons, IH by done.
    apply Forall_cons in Hall as [Ha' _].
    rewrite bool_decide_eq_true_2; [done|congruence].
Qed.

(** [runs] cuts a list into its maximal runs. *)
Lemma runs_maximal (xs : list (Item M * Z)) : maximalRuns (runs xs) xs.
Proof.
  unfold maximalRuns. induction xs as [|x xs (Hc & Ho & Ha)]; [done|].
  rewrite runs_cons. destruct (runs xs) as [|[|y run] rs] eqn:E.
  - simpl in Hc. subst xs. split_and!; [done| |done].
    apply Forall_singleton. split; [done|].
    by intros a b ->%list_elem_of_singleton ->%list_elem_of_singleton.
  - apply Forall_cons in Ho as [[? _] _]. done.
  - apply Forall_cons in Ho as [[_ Hy] Ho].
    case_bool_decide as Hxy.
    + split_and!.
      * simpl in *. by rewrite Hc.
      * apply Forall_cons. split; [|done]. split; [done|].
        assert (Hall : ∀ a, a ∈ x :: y :: run →
                       itemFromClient a.1 = itemFromClient y.1).
        { intros a [->|Ha']%elem_of_cons; [done|].
          apply Hy; [done|]. apply list_elem_of_here. }
        intros a b Ha' Hb. by rewrite (Hall a), (Hall b).
      * destruct rs as [|r2 rs]; [done|]. destruct Ha as [Ha1 Ha2].
        split; [|done]. intros a b [->|Ha']%elem_of_cons Hb.
        -- rewrite Hxy. apply Ha1; [apply list_elem_of_here|done].
        -- by apply Ha1.
    + split_and!.
      * simpl in *. by rewrite Hc.
      * apply Forall_cons. split.
        -- split; [done|].
           by intros a b ->%list_elem_of_singleton ->%list_elem_of_singleton.
        -- by apply Forall_cons.
      * split; [|done]. intros a b ->%list_elem_of_singleton Hb.
        rewrite (Hy b y Hb); [done|apply list_elem_of_here].
Qed.

(** *** One block of bookkeeping, then all of them *)

Lemma buffersAt_push (settled : list (Payload.t M)) (cur : list (Item M * Z))
    (ptrs : list nat) (it : Item M) (g : Z) :
  mkBuffers (heap (buffersAt settled cur ptrs) ++ [itemPayload it])
            (payloads (buffersAt settled cur ptrs))
            (payloadsBuffer (buffersAt settled cur ptrs)
             ++ [length (heap (buffersAt settled cur ptrs))])
            (contentChunkBuffer (buffersAt settled cur ptrs) ++ itemBytes it)
  = buffersAt settled (cur ++ [(it, g)]) ptrs.
Proof.
  unfold buffersAt. simpl. f_equal.
  - by rewrite fmap_app, app_assoc.
  - rewrite !length_app, length_fmap. simpl.
    rewrite Nat.add_1_r, seq_S. done.
  - rewrite fmap_app, concat_app. simpl. by rewrite app_nil_r.
Qed.

Lemma buffersAt_ptr (settled : list (Payload.t M)) (cur : list (Item M * Z))
    (ptrs : list nat) (k : nat) :
  mkBuffers (heap (buffersAt settled cur ptrs))
            (payloads (buffersAt settled cur ptrs) ++ [k])
            (payloadsBuffer (buffersAt settled cur ptrs))
            (contentChunkBuffer (buffersAt settled cur ptrs))
  = buffersAt settled cur (ptrs ++ [k]).
Proof. reflexivity. Qed.

Lemma buffersAt_flushed (settled : list (Payload.t M)) (ptrs : list nat) :
  updateMetadata Parse (buffersAt settled [] ptrs) = buffersAt settled [] ptrs.
Proof. rewrite updateMetadata_buffersAt. simpl. by rewrite app_nil_r. Qed.

Lemma account_buffersAt (limit : Z) (changed : bool) (it : Item M) (g : Z)
    (zero : bool) (settled : list (Payload.t M)) (cur : list (Item M * Z))
    (ptrs : list nat) :
  account Parse format limit changed it g zero (buffersAt settled cur ptrs)
  = let settled1 := if changed
                    then settled ++ (fst <$> annotateRun Parse cur)
                    else settled in
    let cur1 := if changed then [] else cur in
    let cur2 := cur1 ++ [(it, g)] in
    let ptrs' := ptrs ++ (if Skip format <? g
                          then [(length settled + length cur)%nat] else []) in
    let stop := wrap64 (Skip format + limit) <? g in
    (if zero || stop
     then buffersAt (settled1 ++ (fst <$> annotateRun Parse cur2)) [] ptrs'
     else buffersAt settled1 cur2 ptrs', stop).
Proof.
  unfold account. cbn zeta.
  assert (E : (if changed then updateMetadata Parse (buffersAt settled cur ptrs)
               else buffersAt settled cur ptrs)
              = buffersAt
                  (if changed then settled ++ (fst <$> annotateRun Parse cur)
                   else settled)
                  (if changed then [] else cur) ptrs).
  { destruct changed; [apply updateMetadata_buffersAt|done]. }
  rewrite E. clear E.
  set (settled1 := if changed then _ else settled).
  set (cur1 := if changed then [] else cur).
  assert (Hk : length (heap (buffersAt settled1 cur1 ptrs))
               = (length settled + length cur)%nat).
  { unfold buffersAt, settled1, cur1. simpl. rewrite length_app, length_fmap.
    destruct changed; simpl; [|done].
    rewrite length_app, length_fmap, annotateRun_length. lia. }
  rewrite (buffersAt_push settled1 cur1 ptrs it g).
  rewrite Hk.
  destruct zero; cbn [orb]; [rewrite updateMetadata_buffersAt|];
    destruct (Skip format <? g); rewrite ?buffersAt_ptr;
    destruct (wrap64 _ <? g);
    rewrite ?app_nil_r, ?buffersAt_flushed, ?updateMetadata_buffersAt; done.
Qed.

Lemma runFlags_changed (cur : list (Item M * Z)) (lastC lastS : bool)
    (it : Item M) :
  runFlags cur lastC lastS →
  (if itemFromClient it then lastS else lastC) = true →
  cur ≠ [] ∧ Forall (λ y, itemFromClient y.1 = lastC) cur
  ∧ itemFromClient it ≠ lastC.
Proof.
  intros [(-> & -> & ->)|(Hne & Hall & ->)] Hch.
  - by destruct (itemFromClient it).
  - split_and!; [done..|]. by destruct (itemFromClient it), lastC.
Qed.

Lemma runFlags_next (cur : list (Item M * Z)) (lastC lastS : bool)
    (it : Item M) (g : Z) :
  runFlags cur lastC lastS →
  let changed := if itemFromClient it then lastS else lastC in
  let cur2 := (if changed then [] else cur) ++ [(it, g)] in
  cur2 ≠ [] ∧ Forall (λ y, itemFromClient y.1 = itemFromClient it) cur2.
Proof.
  intros Hf. cbn zeta. split; [intros E; by apply app_eq_nil in E as [_ ?]|].
  destruct (if itemFromClient it then lastS else lastC) eqn:Hch.
  - by apply Forall_singleton.
  - apply Forall_app. split; [|by apply Forall_singleton].
    destruct Hf as [(-> & _)|(Hne & Hall & ->)]; [done|].
    eapply Forall_impl; [exact Hall|]. intros y Hy. simpl in Hy.
    rewrite Hy. by destruct (itemFromClient it), lastC.
Qed.

Lemma regroup (settled : list (Payload.t M)) (cur : list (Item M * Z))
    (lastC lastS : bool) (it : Item M) (g : Z) (ys : list (Item M * Z)) :
  runFlags cur lastC lastS →
  let changed := if itemFromClient it then lastS else lastC in
  settled ++ (fst <$> flat_map (annotateRun Parse)
                        (runs (cur ++ (it, g) :: ys)))
  = (if changed then settled ++ (fst <$> annotateRun Parse cur) else settled)
    ++ (fst <$> flat_map (annotateRun Parse)
                  (runs (((if changed then [] else cur) ++ [(it, g)]) ++ ys))).
Proof.
  intros Hf. cbn zeta.
  destruct (if itemFromClient it then lastS else lastC) eqn:Hch.
  - destruct (runFlags_changed _ _ _ _ Hf Hch) as (Hne & Hall & Hx).
    rewrite (runs_app_flip lastC cur (it, g) ys Hne Hall Hx).
    cbn [flat_map app]. by rewrite fmap_app, app_assoc.
  - by rewrite <- app_assoc.
Qed.

Lemma accountAll_spec (limit : Z) (its : list (Item M))
    (settled : list (Payload.t M)) (cur : list (Item M * Z))
    (ptrs : list nat) (lastC lastS : bool) (g : Z) :
  its ≠ [] → runFlags cur lastC lastS →
  accountAll Parse format limit lastC lastS g (buffersAt settled cur ptrs) its
  = buffersAt
      (settled
       ++ (fst <$> flat_map (annotateRun Parse)
                     (runs (cur ++ stopAfter (wrap64 (Skip format + limit))
                                     (withGlobal g its)))))
      []
      (ptrs ++ emittedPointers (Skip format) (length settled + length cur)
                 (snd <$> stopAfter (wrap64 (Skip format + limit))
                                    (withGlobal g its))).
Proof.
  revert settled cur ptrs lastC lastS g.
  induction its as [|it rest IH]; intros settled cur ptrs lastC lastS g Hne Hf;
    [done|].
  cbn [accountAll withGlobal stopAfter snd].
  set (g' := wrap64 (g + itemSize it)).
  rewrite account_buffersAt. cbn zeta.
  pose proof (runFlags_next cur lastC lastS it g' Hf) as [Hne2 Hall2].
  cbn zeta in Hne2, Hall2.
  pose proof (regroup settled cur lastC lastS it g') as Hre.
  cbn zeta in Hre.
  set (changed := if itemFromClient it then lastS else lastC) in *.
  set (settled1 := if changed then _ else settled) in *.
  set (cur2 := (if changed then [] else cur) ++ [(it, g')]) in *.
  assert (Hlen : (length settled1 + length cur2 = S (length settled + length cur))%nat).
  { unfold settled1, cur2. destruct changed; rewrite !length_app; simpl.
    - rewrite length_fmap, annotateRun_length. lia.
    - lia. }
  assert (Hlast : settled ++ (fst <$> flat_map (annotateRun Parse)
                                (runs (cur ++ [(it, g')])))
                  = settled1 ++ (fst <$> annotateRun Parse cur2)).
  { rewrite (Hre [] Hf), app_nil_r.
    rewrite (runs_oneSided (itemFromClient it) cur2 Hne2 Hall2).
    simpl. by rewrite app_nil_r. }
  destruct (wrap64 (Skip format + limit) <? g') eqn:Hstop.
  - rewrite orb_true_r. cbn [fmap list_fmap emittedPointers snd].
    rewrite Hlast. by rewrite app_nil_r.
  - rewrite orb_false_r. destruct rest as [|it' rest].
    + rewrite bool_decide_eq_true_2 by done.
      cbn [accountAll withGlobal stopAfter fmap list_fmap emittedPointers snd].
      rewrite Hlast. by rewrite app_nil_r.
    + rewrite bool_decide_eq_false_2 by done.
      rewrite (IH settled1 cur2); [|done|].
      2:{ right. split_and!; [done|done|done]. }
      rewrite <- (Hre _ Hf). rewrite Hlen.
      cbn [fmap list_fmap emittedPointers snd].
      by rewrite <- app_assoc.
Qed.

(** *** What the caller reads *)

Lemma omap_emittedPointers (skip : Z) (xs : list (Payload.t M * Z))
    (pre : list (Payload.t M)) :
  omap (λ p, (pre ++ (fst <$> xs)) !! p)
       (emittedPointers skip (length pre) (snd <$> xs))
  = fst <$> filter (λ x, skip < x.2) xs.
Proof.
  revert pre. induction xs as [|[p g] xs IH]; intros pre; [done|].
  cbn [fmap list_fmap emittedPointers fst snd].
  rewrite omap_app.
  replace (S (length pre)) with (length (pre ++ [p]))
    by (rewrite length_app; simpl; lia).
  replace (pre ++ p :: (fst <$> xs)) with ((pre ++ [p]) ++ (fst <$> xs))
    by (by rewrite <- app_assoc).
  rewrite IH.
  destruct (Z.ltb_spec skip g) as [Hlt|Hge].
  - rewrite filter_cons_True by done. cbn [omap list_omap].
    rewrite <- app_assoc. cbn [app].
    rewrite list_lookup_middle by done. done.
  - rewrite filter_cons_False by (simpl; lia). done.
Qed.

Lemma annotate_snd (rs : list (list (Item M * Z))) :
  snd <$> flat_map (annotateRun Parse) rs = snd <$> concat rs.
Proof.
  induction rs as [|r rs IH]; [done|].
  cbn [flat_map concat]. by rewrite !fmap_app, annotateRun_snd, IH.
Qed.

(** The reader over a well-formed store: it returns, and what it returns
    is the merge of the two sides, cut after the first block past
    [skip + limit], with the metadata of each run set, less the blocks
    that end at or before [skip]. *)
Lemma GetConnectionPayload_wf :
  wfStorage storage →
  GetConnectionPayload nilMetadata Parse DecodeBytes rangeOrder storage format
  = Returned (emitted format (flat_map (annotateRun Parse) (runs traversal'))).
Proof.
  intros W. unfold GetConnectionPayload.
  destruct (initial_sideOk true W) as [Hc Hrc].
  destruct (initial_sideOk false W) as [Hs Hrs].
  rewrite loop_accountAll; [|done|done|done|].
  2:{ cbn [client server initialCursor]. rewrite Hrc, Hrs.
      unfold enoughFuel, sideItems.
      pose proof (streamItems_length true 0 0 (sideDocuments storage true)).
      pose proof (streamItems_length false 0 0 (sideDocuments storage false)).
      simpl in *. lia. }
  cbn [client server initialCursor lastClient lastServer globalIndex].
  rewrite Hrc, Hrs. f_equal. unfold traversal.
  set (merged := mergeByTimestamp _ _).
  change (mkBuffers [] [] [] []) with (@buffersAt M [] [] []).
  destruct merged as [|it rest] eqn:E; [done|].
  rewrite accountAll_spec; [|done|by left].
  rewrite <- E. clear E.
  set (T := stopAfter _ _).
  unfold deref, buffersAt, emitted. cbn [heap payloads app length fmap list_fmap].
  rewrite app_nil_r.
  replace (snd <$> T) with (snd <$> flat_map (annotateRun Parse) (runs T)).
  2:{ rewrite annotate_snd. by destruct (runs_maximal T) as [-> _]. }
  apply (omap_emittedPointers (Skip format) _ []).
Qed.

(** *** The blocks of one side *)

Lemma nextPayload_side (fromClient : bool) (sd sd' : Side.t) (it : Item M) :
  nextPayload' fromClient sd = Some (it, sd') → itemFromClient it = fromClient.
Proof.
  unfold nextPayload. intros H. simplify_option_eq. done.
Qed.

Lemma blockItems_side (fromClient : bool) (n : nat) (sd : Side.t) :
  Forall (λ it, itemFromClient it = fromClient) (blockItems' fromClient n sd).
Proof.
  revert sd. induction n as [|n IH]; intros sd; simpl; [done|].
  destruct (nextPayload' fromClient sd) as [[it sd']|] eqn:E; [|done].
  apply Forall_cons. split; [by eapply nextPayload_side|apply IH].
Qed.

Lemma streamItems_side (fromClient : bool) (di : nat) (off : Z)
    (docs : list ConnectionStream.t) :
  Forall (λ it, itemFromClient it = fromClient)
         (streamItems' fromClient di off docs).
Proof.
  revert di off. induction docs as [|d docs IH]; intros di off; simpl; [done|].
  apply Forall_app. split; [apply blockItems_side|apply IH].
Qed.

Lemma sideItems_side (fromClient : bool) :
  Forall (λ it, itemFromClient it = fromClient) (sideItems' fromClient).
Proof. apply streamItems_side. Qed.

Lemma blockItems_wf (fromClient : bool) (d : ConnectionStream.t) (di : nat)
    (m k : nat) (off : Z) :
  wfFacts d →
  (k + m ≤ length (ConnectionStream.BlocksIndexes d))%nat →
  (λ it, Payload.Index (itemPayload it))
    <$> blockItems' fromClient m (Side.mk off k di d)
  = take m (drop k (ConnectionStream.BlocksIndexes d))
  ∧ (λ it, Payload.Timestamp (itemPayload it))
      <$> blockItems' fromClient m (Side.mk off k di d)
    = take m (drop k (ConnectionStream.BlocksTimestamps d)).
Proof.
  intros W. revert k off. induction m as [|m IH]; intros k off Hk; [done|].
  destruct (nextPayload_wf fromClient (Side.mk off k di d) W)
    as (it & Hn & _ & Hi & Ht); [simpl; lia|].
  simpl in Hn, Hi, Ht. cbn [blockItems]. rewrite Hn.
  destruct (IH (S k) (wrap64 (off + itemSize it))) as [IHi IHt]; [lia|].
  cbn [fmap list_fmap]. rewrite IHi, IHt.
  rewrite (drop_S _ _ _ Hi), (drop_S _ _ _ Ht). done.
Qed.

Lemma streamItems_wf (fromClient : bool) (di : nat) (off : Z)
    (docs : list ConnectionStream.t) :
  Forall wfFacts docs →
  (λ it, Payload.Index (itemPayload it)) <$> streamItems' fromClient di off docs
  = concat (ConnectionStream.BlocksIndexes <$> docs)
  ∧ (λ it, Payload.Timestamp (itemPayload it))
      <$> streamItems' fromClient di off docs
    = concat (ConnectionStream.BlocksTimestamps <$> docs).
Proof.
  intros W. revert di off.
  induction W as [|d docs Wd W IH]; intros di off; [done|].
  cbn [streamItems fmap list_fmap concat]. rewrite !fmap_app.
  destruct (blockItems_wf fromClient d di
              (length (ConnectionStream.BlocksIndexes d)) 0 off Wd)
    as [Hi Ht]; [simpl; lia|].
  rewrite Hi, Ht, !drop_0.
  rewrite take_ge by lia. rewrite take_ge by (rewrite (wf_times _ Wd); lia).
  split; f_equal; apply IH.
Qed.

Lemma wfStorage_Forall (fromClient : bool) :
  wfStorage storage → Forall wfFacts (sideDocuments storage fromClient).
Proof.
  intros [Wc Ws].
  destruct fromClient; simpl; (eapply Forall_impl; [eassumption|]);
    apply wfDocument_facts.
Qed.

(** Over a well-formed store, the [Index] and [Timestamp] of the blocks
    of a side are the entries of [blocks_indexes] and
    [blocks_timestamps], document after document. *)
Lemma sideItems_wf (fromClient : bool) :
  wfStorage storage →
  (λ it, Payload.Index (itemPayload it)) <$> sideItems' fromClient
  = concat (ConnectionStream.BlocksIndexes <$> sideDocuments storage fromClient)
  ∧ (λ it, Payload.Timestamp (itemPayload it)) <$> sideItems' fromClient
    = concat (ConnectionStream.BlocksTimestamps
                <$> sideDocuments storage fromClient).
Proof. intros W. apply streamItems_wf. by apply wfStorage_Forall. Qed.

(** *** The merge keeps each side in order *)

Lemma mergeByTimestamp_filter_client (cs ss : list (Item M)) :
  Forall (λ it, itemFromClient it = true) cs →
  Forall (λ it, itemFromClient it = false) ss →
  filter (λ it, itemFromClient it = true) (mergeByTimestamp cs ss) = cs
  ∧ filter (λ it, itemFromClient it = false) (mergeByTimestamp cs ss) = ss.
Proof.
  intros Hc. revert ss. induction Hc as [|c cs Hc Hcs IHc]; intros ss Hs.
  { rewrite mergeByTimestamp_nil_l. split.
    - induction Hs as [|s ss Hs' _ IH]; [done|].
      rewrite filter_cons_False by congruence. done.
    - induction Hs as [|s ss Hs' _ IH]; [done|].
      rewrite filter_cons_True by done. by rewrite IH. }
  induction Hs as [|s ss Hs Hss IHs].
  { rewrite mergeByTimestamp_nil_r.
    destruct (IHc [] (Forall_nil_2 _)) as [E1 E2].
    rewrite mergeByTimestamp_nil_r in E1, E2. split.
    - rewrite filter_cons_True by done. by rewrite E1.
    - rewrite filter_cons_False by congruence. done. }
  rewrite mergeByTimestamp_cons. destruct (_ <=? _).
  - destruct (IHc (s :: ss)) as [E1 E2]; [by apply Forall_cons|]. split.
    + rewrite filter_cons_True by done. by rewrite E1.
    + rewrite filter_cons_False by congruence. done.
  - destruct IHs as [E1 E2]. split.
    + rewrite filter_cons_False by congruence. done.
    + rewrite filter_cons_True by done. by rewrite E2.
Qed.

Lemma mergeByTimestamp_elem_of (cs ss : list (Item M)) (x : Item M) :
  x ∈ mergeByTimestamp cs ss → x ∈ cs ∨ x ∈ ss.
Proof.
  revert ss. induction cs as [|c cs IHc]; intros ss.
  { rewrite mergeByTimestamp_nil_l. by right. }
  induction ss as [|s ss IHs].
  { rewrite mergeByTimestamp_nil_r. by left. }
  rewrite mergeByTimestamp_cons. destruct (_ <=? _).
  - intros [->|Hx]%elem_of_cons; [left; apply list_elem_of_here|].
    destruct (IHc _ Hx) as [?|?]; [left; by apply list_elem_of_further|by right].
  - intros [->|Hx]%elem_of_cons; [right; apply list_elem_of_here|].
    destruct (IHs Hx) as [?|?]; [by left|right; by apply list_elem_of_further].
Qed.

(** *** Order-preserving selections *)

Lemma StronglySorted_sublist {A : Type} (R : relation A) (l1 l2 : list A) :
  l1 `sublist_of` l2 → StronglySorted R l2 → StronglySorted R l1.
Proof.
  induction 1 as [|x l1 l2 Hsub IH|x l1 l2 Hsub IH]; intros Hs; [done|..].
  - apply StronglySorted_inv in Hs as [Hs Hall]. constructor; [by apply IH|].
    apply Forall_forall. intros y Hy. rewrite Forall_forall in Hall.
    apply Hall. by eapply elem_of_sublist.
  - apply StronglySorted_inv in Hs as [Hs _]. by apply IH.
Qed.



Lemma stopAfter_sublist (bound : Z) (xs : list (Item M * Z)) :
  stopAfter bound xs `sublist_of` xs.
Proof.
  induction xs as [|x xs IH]; [done|]. simpl.
  destruct (bound <? x.2).
  - apply sublist_skip, sublist_nil_l.
  - by apply sublist_skip.
Qed.

Lemma withGlobal_fst (g : Z) (its : list (Item M)) :
  fst <$> withGlobal g its = its.
Proof.
  revert g. induction its as [|it its IH]; intros g; [done|].
  simpl. by rewrite IH.
Qed.

Lemma annotate_projection {B : Type} (f : Payload.t M → B)
    (rs : list (list (Item M * Z))) :
  (∀ m c p, f (Payload.setMetadata m c p) = f p) →
  (λ x, f x.1) <$> flat_map (annotateRun Parse) rs
  = (λ x, f (itemPayload x.1)) <$> concat rs.
Proof.
  intros Hf. induction rs as [|r rs IH]; [done|].
  cbn [flat_map concat]. rewrite !fmap_app, IH. f_equal.
  unfold annotateRun. rewrite fmap_imap. apply imap_pointwise.
  intros i x. simpl. apply Hf.
Qed.

(** Whatever does not depend on the metadata can be read off the merge:
    the Payloads returned are, in order, some of the blocks of the
    merge. *)
Lemma output_sublist {B : Type} (f : Payload.t M → B) :
  (∀ m c p, f (Payload.setMetadata m c p) = f p) →
  f <$> emitted format (flat_map (annotateRun Parse) (runs traversal'))
  `sublist_of`
  (λ it, f (itemPayload it))
    <$> mergeByTimestamp (sideItems' true) (sideItems' false).
Proof.
  intros Hf. unfold emitted.
  trans ((λ x, f x.1) <$> flat_map (annotateRun Parse) (runs traversal')).
  { rewrite <- list_fmap_compose. apply fmap_sublist, sublist_filter. }
  rewrite (annotate_projection f _ Hf).
  destruct (runs_maximal traversal') as [-> _].
  unfold traversal.
  set (merged := mergeByTimestamp _ _).
  trans ((λ x, f (itemPayload x.1)) <$> withGlobal 0 merged).
  { apply fmap_sublist, stopAfter_sublist. }
  replace ((λ it, f (itemPayload it)) <$> merged)
    with ((λ x : Item M * Z, f (itemPayload x.1)) <$> withGlobal 0 merged);
    [done|].
  rewrite <- (withGlobal_fst 0 merged) at 2.
  by rewrite <- list_fmap_compose.
Qed.

Lemma StronglySorted_fmap_inv {A B : Type} (f : A → B) (R : relation B)
    (l : list A) :
  StronglySorted R (f <$> l) → StronglySorted (λ a b, R (f a) (f b)) l.
Proof.
  induction l as [|a l IH]; [constructor|].
  rewrite fmap_cons. intros [Hs Hall]%StronglySorted_inv.
  constructor; [by apply IH|].
  by rewrite Forall_fmap in Hall.
Qed.

Lemma fmap_filter_bind {A B : Type} (P : A → Prop) `{!∀ x, Decision (P x)}
    (f : A → B) (l : list A) :
  f <$> filter P l = l ≫= (λ x, if decide (P x) then [f x] else []).
Proof.
  induction l as [|a l IH]; [done|].
  rewrite bind_cons, filter_cons.
  destruct (decide (P a)); [rewrite fmap_cons|]; by rewrite IH.
Qed.

Lemma last_filter {A : Type} (P : A → Prop) `{!∀ x, Decision (P x)}
    (l : list A) (x : A) :
  last l = Some x → P x → last (filter P l) = Some x.
Proof.
  intros [l' ->]%last_Some Hx.
  rewrite filter_app, filter_cons_True by done.
  change (filter P []) with (@nil A). by rewrite last_snoc.
Qed.


(** C2 (as amended). Over a well-formed store the reader returns and the
    [index] of a Payload is the block's entry of [blocks_indexes], its
    offset within the payload of its own document: for each side, the
    [index] values of the side's Payloads are, in order, entries of the
    concatenation of the [blocks_indexes] of the side's documents, each of
    which increases strictly. *)
Theorem GetConnectionPayload_index_document_offsets :
  wfStorage storage →
  ∃ out,
    GetConnectionPayload nilMetadata Parse DecodeBytes rangeOrder storage format
    = Returned out
    ∧ ∀ fromClient : bool,
        Payload.Index <$> filter (λ p, Payload.FromClient p = fromClient) out
        `sublist_of`
        concat (ConnectionStream.BlocksIndexes
                  <$> sideDocuments storage fromClient)
        ∧ Forall (λ d, StronglySorted Z.lt (ConnectionStream.BlocksIndexes d))
                 (sideDocuments storage fromClient).
Proof.
  intros W. eexists. split; [by apply GetConnectionPayload_wf|].
  intros fromClient. split.
  2:{ eapply Forall_impl; [by apply wfStorage_Forall|].
      intros d Wd. simpl. apply strictlyIncreasing_sorted, (wf_incr _ Wd). }
  set (f := λ p : Payload.t M, (Payload.FromClient p, Payload.Index p)).
  set (k := λ x : bool * Z, if decide (x.1 = fromClient) then [x.2] else []).
  rewrite fmap_filter_bind.
  change (λ x : Payload.t M,
            if decide (Payload.FromClient x = fromClient)
            then [Payload.Index x] else [])
    with (k ∘ f).
  rewrite <- list_fmap_bind.
  trans (((λ it, f (itemPayload it))
            <$> mergeByTimestamp (sideItems' true) (sideItems' false)) ≫= k).
  { apply bind_sublist. by apply (output_sublist f). }
  rewrite list_fmap_bind.
  change (k ∘ (λ it : Item M, f (itemPayload it)))
    with (λ it : Item M,
            if decide (itemFromClient it = fromClient)
            then [Payload.Index (itemPayload it)] else []).
  rewrite <- (fmap_filter_bind (λ it, itemFromClient it = fromClient)
                (λ it, Payload.Index (itemPayload it))).
  destruct (mergeByTimestamp_filter_client (sideItems' true) (sideItems' false)
              (sideItems_side true) (sideItems_side false)) as [Ec Es].
  destruct fromClient.
  - rewrite Ec. by destruct (sideItems_wf true W) as [-> _].
  - rewrite Es. by destruct (sideItems_wf false W) as [-> _].
Qed.

(** *** The loop ends, whatever the documents hold *)

Lemma nextPayload_cursor (fromClient : bool) (sd sd' : Side.t) (it : Item M) :
  nextPayload' fromClient sd = Some (it, sd') →
  Side.Stream sd' = Side.Stream sd
  ∧ Side.DocumentIndex sd' = Side.DocumentIndex sd
  ∧ Side.BlocksIndex sd' = S (Side.BlocksIndex sd)
  ∧ (Side.BlocksIndex sd
     < length (ConnectionStream.BlocksIndexes (Side.Stream sd)))%nat.
Proof.
  unfold nextPayload. intros H.
  destruct (ConnectionStream.BlocksIndexes (Side.Stream sd)
              !! Side.BlocksIndex sd) as [start|] eqn:E; [|done].
  apply lookup_lt_Some in E. simplify_option_eq. done.
Qed.

Lemma advanceDocument_ahead (fromClient : bool) (sd : Side.t) :
  Side.Stream sd
  = getConnectionStream storage fromClient (Side.DocumentIndex sd) →
  Side.Stream (advanceDocument storage fromClient sd)
  = getConnectionStream storage fromClient
      (Side.DocumentIndex (advanceDocument storage fromClient sd))
  ∧ blocksAhead storage fromClient (advanceDocument storage fromClient sd)
    = blocksAhead storage fromClient sd.
Proof.
  intros Hs. unfold advanceDocument, hasBlocks.
  case_bool_decide as Hk; simpl; [done|]. split; [done|].
  unfold blocksAhead, getConnectionStream. simpl.
  replace (length (ConnectionStream.BlocksIndexes (Side.Stream sd))
           - Side.BlocksIndex sd)%nat with 0%nat by lia.
  destruct (sideDocuments storage fromClient !! S (Side.DocumentIndex sd))
    as [d'|] eqn:E; simpl.
  - rewrite (drop_S _ _ _ E).
    change (blockCount (d' :: ?l))
      with (length (ConnectionStream.BlocksIndexes d') + blockCount l)%nat.
    lia.
  - apply lookup_ge_None in E. rewrite !drop_ge by lia. done.
Qed.

Lemma loop_ends (limit : Z) (fuel : nat) (c : Cursor) (b : Buffers M) :
  Side.Stream (client c)
  = getConnectionStream storage true (Side.DocumentIndex (client c)) →
  Side.Stream (server c)
  = getConnectionStream storage false (Side.DocumentIndex (server c)) →
  (blocksAhead storage true (client c) + blocksAhead storage false (server c)
   < fuel)%nat →
  loop' limit fuel (c, b) ≠ OutOfFuel.
Proof.
  revert c b. induction fuel as [|fuel IH]; intros c b Hc Hs Hlt; [lia|].
  cbn [loop fst snd]. destruct (bothZero c); cbn [negb]; [done|].
  unfold body. cbn [fst snd].
  destruct (selectBlock' c) as [[it c1]|] eqn:Hsel;
    cbn [mbind option_bind]; [|done].
  destruct (account _ _ _ _ _ _ _ _) as [b' [|]]; [done|].
  unfold selectBlock in Hsel.
  destruct (nextIsClient c) as [[|]|]; [| |done]; simpl in Hsel.
  - destruct (nextPayload' true (client c)) as [[it' sd]|] eqn:Hn; [|done].
    injection Hsel as <- <-.
    destruct (nextPayload_cursor _ _ _ _ Hn) as (Hst & Hdi & Hbi & Hk).
    destruct (advanceDocument_ahead true sd) as [Hc' Ha]; [congruence|].
    destruct (advanceDocument_ahead false (server c) Hs) as [Hs' Ha'].
    apply IH; [done|done|]. cbn [client server advanceDocuments].
    rewrite Ha, Ha'. unfold blocksAhead in *. rewrite Hst, Hdi, Hbi. lia.
  - destruct (nextPayload' false (server c)) as [[it' sd]|] eqn:Hn; [|done].
    injection Hsel as <- <-.
    destruct (nextPayload_cursor _ _ _ _ Hn) as (Hst & Hdi & Hbi & Hk).
    destruct (advanceDocument_ahead false sd) as [Hs' Ha]; [congruence|].
    destruct (advanceDocument_ahead true (client c) Hc) as [Hc' Ha'].
    apply IH; [done|done|]. cbn [client server advanceDocuments].
    rewrite Ha, Ha'. unfold blocksAhead in *. rewrite Hst, Hdi, Hbi. lia.
Qed.

(** The reader always ends: the store holds enough blocks to fuel the
    loop. *)
Lemma GetConnectionPayload_ends :
  GetConnectionPayload nilMetadata Parse DecodeBytes rangeOrder storage format
  ≠ OutOfFuel.
Proof.
  unfold GetConnectionPayload.
  pose proof (loop_ends (effectiveLimit format) (enoughFuel storage)
                (initialCursor storage) (mkBuffers [] [] [] [])) as H.
  destruct (loop' _ _ _); [done|done|].
  exfalso. apply H; [done|done| |done].
  unfold blocksAhead, enoughFuel, initialCursor, getConnectionStream. simpl.
  destruct (clientDocuments storage) as [|dc cs];
    destruct (serverDocuments storage) as [|ds ss]; simpl;
    rewrite ?drop_0;
    repeat change (blockCount (?d :: ?l))
      with (length (ConnectionStream.BlocksIndexes d) + blockCount l)%nat;
    change (blockCount []) with 0%nat; lia.
Qed.

(** *** The loop over any documents *)

Local Abbreviation walk' :=
  (walk nilMetadata DecodeBytes rangeOrder storage format).

(** What one selection writes into the cursor. *)
Lemma selectBlock_cursor (c c1 : Cursor) (it : Item M) :
  selectBlock' c = Some (it, c1) →
  globalIndex c1 = wrap64 (globalIndex c + itemSize it)
  ∧ sideChanged c1 = (if itemFromClient it then lastServer c else lastClient c)
  ∧ lastClient c1 = itemFromClient it
  ∧ lastServer c1 = negb (itemFromClient it).
Proof.
  unfold selectBlock. intros H.
  destruct (nextIsClient c) as [[|]|]; [| |done]; simpl in H.
  - destruct (nextPayload' true (client c)) as [[it' sd]|] eqn:Hn; [|done].
    injection H as <- <-.
    pose proof (nextPayload_side _ _ _ _ Hn) as Hside.
    cbn [globalIndex sideChanged lastClient lastServer]. by rewrite Hside.
  - destruct (nextPayload' false (server c)) as [[it' sd]|] eqn:Hn; [|done].
    injection H as <- <-.
    pose proof (nextPayload_side _ _ _ _ Hn) as Hside.
    cbn [globalIndex sideChanged lastClient lastServer]. by rewrite Hside.
Qed.

Lemma body_selectBlock (limit : Z) (c c1 : Cursor) (b : Buffers M)
    (it : Item M) :
  selectBlock' c = Some (it, c1) →
  body' limit (c, b)
  = let c2 := advanceDocuments storage c1 in
    let '(b', ret) :=
      account Parse format limit
        (if itemFromClient it then lastServer c else lastClient c) it
        (wrap64 (globalIndex c + itemSize it)) (bothZero c2) b in
    Some (c2, b', ret).
Proof.
  intros H. destruct (selectBlock_cursor c c1 it H) as (Hg & Hch & _ & _).
  unfold body. cbn [fst snd]. rewrite H. cbn [mbind option_bind].
  cbn [advanceDocuments globalIndex sideChanged]. by rewrite Hg, Hch.
Qed.

(** Line 186 decides the return on [globalIndex] alone. *)
Lemma account_returns (limit : Z) (changed : bool) (it : Item M) (g : Z)
    (zero : bool) (b : Buffers M) :
  (account Parse format limit changed it g zero b).2
  = (wrap64 (Skip format + limit) <? g).
Proof. unfold account. by destruct (wrap64 (Skip format + limit) <? g). Qed.

Lemma updateMetadata_payloads (b : Buffers M) (ps : list nat) :
  updateMetadata Parse
    (mkBuffers (heap b) ps (payloadsBuffer b) (contentChunkBuffer b))
  = mkBuffers (heap (updateMetadata Parse b)) ps [] [].
Proof.
  unfold updateMetadata. cbn [heap payloads payloadsBuffer contentChunkBuffer].
  by destruct (foldl _ _ _).
Qed.

Lemma updateMetadata_flushed (b : Buffers M) :
  updateMetadata Parse (updateMetadata Parse b) = updateMetadata Parse b.
Proof.
  unfold updateMetadata at 2 3. destruct (foldl _ _ _) as [h ?]. done.
Qed.

(** When the iteration returns, the call of [updateMetadata] of line 178
    makes no difference: line 188 calls it in any case. *)
Lemma account_zero (limit : Z) (changed : bool) (it : Item M) (g : Z)
    (b : Buffers M) :
  (wrap64 (Skip format + limit) <? g) = true →
  account Parse format limit changed it g true b
  = account Parse format limit changed it g false b.
Proof.
  intros H. unfold account. rewrite H. f_equal.
  set (b1 := if changed then updateMetadata Parse b else b).
  set (b2 := mkBuffers (heap b1 ++ [itemPayload it]) (payloads b1)
               (payloadsBuffer b1 ++ [length (heap b1)])
               (contentChunkBuffer b1 ++ itemBytes it)).
  destruct (Skip format <? g); cbn [heap payloads payloadsBuffer
                                    contentChunkBuffer].
  - rewrite (updateMetadata_payloads (updateMetadata Parse b2)).
    rewrite (updateMetadata_payloads b2).
    rewrite updateMetadata_flushed.
    replace (payloads (updateMetadata Parse b2)) with (payloads b2); [done|].
    unfold updateMetadata. by destruct (foldl _ _ _).
  - apply updateMetadata_flushed.
Qed.

(** The loop is the bookkeeping run over the blocks selected. *)
Lemma loop_walk (limit : Z) (fuel : nat) (c : Cursor) (b : Buffers M) :
  loop' limit fuel (c, b)
  = let '(its, e) := walk' fuel c in
    let result :=
      Returned (accountAll Parse format limit (lastClient c) (lastServer c)
                  (globalIndex c) b its) in
    if passes (wrap64 (Skip format + limit)) (withGlobal (globalIndex c) its)
    then result
    else match e with
         | Returned _ => result
         | Panicked => Panicked
         | OutOfFuel => OutOfFuel
         end.
Proof.
  revert c b. induction fuel as [|fuel IH]; intros c b; [done|].
  cbn [loop walk fst snd].
  destruct (bothZero c) eqn:Hz; cbn [negb]; [done|].
  destruct (selectBlock' c) as [[it c1]|] eqn:Hsel.
  2:{ unfold body. cbn [fst]. by rewrite Hsel. }
  rewrite (body_selectBlock limit c c1 b it Hsel). cbn zeta.
  destruct (selectBlock_cursor c c1 it Hsel) as (Hg & _ & Hlc & Hls).
  set (c2 := advanceDocuments storage c1).
  assert (Hg2 : globalIndex c2 = wrap64 (globalIndex c + itemSize it))
    by exact Hg.
  assert (Hlc2 : lastClient c2 = itemFromClient it) by exact Hlc.
  assert (Hls2 : lastServer c2 = negb (itemFromClient it)) by exact Hls.
  specialize (IH c2). rewrite Hg2, Hlc2, Hls2 in IH.
  destruct (walk' fuel c2) as [its e] eqn:Hw.
  cbn [withGlobal passes existsb snd accountAll].
  set (g := wrap64 (globalIndex c + itemSize it)) in *.
  set (changed := if itemFromClient it then lastServer c else lastClient c).
  pose proof (account_returns limit changed it g (bothZero c2) b) as Hr1.
  pose proof (account_returns limit changed it g (bool_decide (its = [])) b)
    as Hr2.
  destruct (wrap64 (Skip format + limit) <? g) eqn:Hstop; cbn [orb].
  - (* the iteration returns *)
    assert (Heq : account Parse format limit changed it g (bothZero c2) b
                  = account Parse format limit changed it g
                      (bool_decide (its = [])) b).
    { destruct (bothZero c2), (bool_decide (its = []));
        by rewrite ?(account_zero limit changed it g b Hstop). }
    rewrite <- Heq.
    destruct (account _ _ _ _ _ _ _ _) as [b' ret]. simpl in Hr1.
    by rewrite Hr1.
  - (* the loop goes on *)
    destruct (decide (bothZero c2 = bool_decide (its = []))) as [Hsame|Hdiff].
    + rewrite <- Hsame.
      destruct (account _ _ _ _ _ _ _ _) as [b' ret]. simpl in Hr1.
      rewrite Hr1. apply IH.
    + (* the selection stops short of the end of the streams *)
      assert (Hnil : its = [] ∧ bothZero c2 = false
                     ∧ (e = Panicked ∨ e = OutOfFuel)).
      { destruct fuel as [|fuel]; cbn [walk] in Hw.
        - injection Hw as <- <-. destruct (bothZero c2); [done|].
          split; [done|]. split; [done|]. by right.
        - destruct (bothZero c2) eqn:Hz2; cbn [negb] in Hw.
          + injection Hw as <- <-. done.
          + destruct (selectBlock' c2) as [[it2 c3]|].
            * destruct (walk' fuel (advanceDocuments storage c3)) as [r e'].
              injection Hw as <- <-. done.
            * injection Hw as <- <-. split; [done|]. split; [done|]. by left. }
      destruct Hnil as (-> & Hz2 & He).
      destruct (account Parse format limit changed it g (bothZero c2) b)
        as [b' ret]. simpl in Hr1. rewrite Hr1.
      rewrite (IH b'). cbn [withGlobal passes existsb].
      destruct He as [-> | ->]; done.
Qed.

(** The selection ends within the fuel the reader gives the loop. *)
Lemma walk_ends_from (fuel : nat) (c : Cursor) :
  Side.Stream (client c)
  = getConnectionStream storage true (Side.DocumentIndex (client c)) →
  Side.Stream (server c)
  = getConnectionStream storage false (Side.DocumentIndex (server c)) →
  (blocksAhead storage true (client c) + blocksAhead storage false (server c)
   < fuel)%nat →
  (walk' fuel c).2 ≠ OutOfFuel.
Proof.
  revert c. induction fuel as [|fuel IH]; intros c Hc Hs Hlt; [lia|].
  cbn [walk]. destruct (bothZero c); cbn [negb]; [done|].
  destruct (selectBlock' c) as [[it c1]|] eqn:Hsel; [|done].
  assert (Hnext : (walk' fuel (advanceDocuments storage c1)).2 ≠ OutOfFuel).
  { unfold selectBlock in Hsel.
    destruct (nextIsClient c) as [[|]|]; [| |done]; simpl in Hsel.
    - destruct (nextPayload' true (client c)) as [[it' sd]|] eqn:Hn; [|done].
      injection Hsel as <- <-.
      destruct (nextPayload_cursor _ _ _ _ Hn) as (Hst & Hdi & Hbi & Hk).
      destruct (advanceDocument_ahead true sd) as [Hc' Ha]; [congruence|].
      destruct (advanceDocument_ahead false (server c) Hs) as [Hs' Ha'].
      apply IH; [done|done|]. cbn [client server advanceDocuments].
      rewrite Ha, Ha'. unfold blocksAhead in *. rewrite Hst, Hdi, Hbi. lia.
    - destruct (nextPayload' false (server c)) as [[it' sd]|] eqn:Hn; [|done].
      injection Hsel as <- <-.
      destruct (nextPayload_cursor _ _ _ _ Hn) as (Hst & Hdi & Hbi & Hk).
      destruct (advanceDocument_ahead false sd) as [Hs' Ha]; [congruence|].
      destruct (advanceDocument_ahead true (client c) Hc) as [Hc' Ha'].
      apply IH; [done|done|]. cbn [client server advanceDocuments].
      rewrite Ha, Ha'. unfold blocksAhead in *. rewrite Hst, Hdi, Hbi. lia. }
  by destruct (walk' fuel (advanceDocuments storage c1)).
Qed.

Lemma walk_ends :
  (walk' (enoughFuel storage) (initialCursor storage)).2 ≠ OutOfFuel.
Proof.
  apply walk_ends_from; [done|done|].
  unfold blocksAhead, enoughFuel, initialCursor, getConnectionStream. simpl.
  destruct (clientDocuments storage) as [|dc cs];
    destruct (serverDocuments storage) as [|ds ss]; simpl;
    rewrite ?drop_0;
    repeat change (blockCount (?d :: ?l))
      with (length (ConnectionStream.BlocksIndexes d) + blockCount l)%nat;
    change (blockCount []) with 0%nat; lia.
Qed.

(** What the caller reads once the bookkeeping has run over [its]. *)
Lemma deref_accountAll (limit : Z) (its : list (Item M)) :
  deref (accountAll Parse format limit false false 0 (mkBuffers [] [] [] [])
           its)
  = emitted format
      (flat_map (annotateRun Parse)
         (runs (stopAfter (wrap64 (Skip format + limit)) (withGlobal 0 its)))).
Proof.
  destruct its as [|it rest] eqn:E; [done|]. rewrite <- E.
  change (mkBuffers [] [] [] []) with (@buffersAt M [] [] []).
  rewrite accountAll_spec; [|by rewrite E|by left].
  set (T := stopAfter _ _).
  unfold deref, buffersAt, emitted. cbn [heap payloads app length fmap list_fmap].
  rewrite app_nil_r.
  replace (snd <$> T) with (snd <$> flat_map (annotateRun Parse) (runs T)).
  2:{ rewrite annotate_snd. by destruct (runs_maximal T) as [-> _]. }
  apply (omap_emittedPointers (Skip format) _ []).
Qed.

(** The reader over any documents: it goes through the blocks selected
    up to the first one whose running [globalIndex] exceeds
    [skip + limit], and panics only if the selection panics before such
    a block. *)
Lemma GetConnectionPayload_walk :
  GetConnectionPayload nilMetadata Parse DecodeBytes rangeOrder storage format
  = readUpTo nilMetadata Parse DecodeBytes rangeOrder storage format
      (wrap64 (Skip format + effectiveLimit format)).
Proof.
  unfold GetConnectionPayload, readUpTo, walked, walkPanics.
  rewrite loop_walk. pose proof walk_ends as Hends.
  destruct (walk' (enoughFuel storage) (initialCursor storage)) as [its e].
  cbn [fst snd initialCursor globalIndex lastClient lastServer] in *.
  destruct (passes _ _).
  - rewrite andb_false_r. by rewrite deref_accountAll.
  - rewrite andb_true_r. destruct e as [[]| |]; [|done|done].
    by rewrite deref_accountAll.
Qed.

(** Over a well-formed store the selection is the merge by timestamp of
    the two sides, and it ends without a panic. *)
Lemma walk_wf (fuel : nat) (c : Cursor) :
  wfStorage storage →
  sideOk storage true (client c) → sideOk storage false (server c) →
  (length (remaining' true (client c))
   + length (remaining' false (server c)) < fuel)%nat →
  walk' fuel c
  = (mergeByTimestamp (remaining' true (client c))
                      (remaining' false (server c)),
     Returned tt).
Proof.
  intros W. revert c.
  induction fuel as [|fuel IH]; intros c Hc Hs Hlen; [lia|].
  cbn [walk]. rewrite (bothZero_remaining c W Hc Hs).
  (* the step through a client block *)
  assert (Hclient : ∀ it sd1,
    nextIsClient c = Some true →
    nextPayload' true (client c) = Some (it, sd1) →
    remaining' true (client c)
    = it :: remaining' true (advanceDocument storage true sd1) →
    sideOk storage true (advanceDocument storage true sd1) →
    mergeByTimestamp (remaining' true (client c)) (remaining' false (server c))
    = it :: mergeByTimestamp (remaining' true (advanceDocument storage true sd1))
                             (remaining' false (server c)) →
    match selectBlock' c with
    | Some (it, c1) =>
        let '(its, e) := walk' fuel (advanceDocuments storage c1) in
        (it :: its, e)
    | None => ([], Panicked)
    end
    = (mergeByTimestamp (remaining' true (client c))
                        (remaining' false (server c)),
       Returned tt)).
  { intros it sd1 Hn Hp Hrem Hok Hm.
    unfold selectBlock. rewrite Hn. cbn [mbind option_bind]. rewrite Hp.
    cbn [mbind option_bind].
    destruct (sideOk_advance false _ Hs) as [Hs' Hrs].
    set (c2 := advanceDocuments storage _).
    assert (Hc2 : sideOk storage true (client c2)) by done.
    assert (Hs2 : sideOk storage false (server c2)) by done.
    rewrite (IH c2 Hc2 Hs2).
    - change (remaining' true (client c2))
        with (remaining' true (advanceDocument storage true sd1)).
      change (remaining' false (server c2))
        with (remaining' false (advanceDocument storage false (server c))).
      by rewrite Hrs, Hm.
    - change (remaining' true (client c2))
        with (remaining' true (advanceDocument storage true sd1)).
      change (remaining' false (server c2))
        with (remaining' false (advanceDocument storage false (server c))).
      rewrite Hrs. rewrite Hrem in Hlen. simpl in Hlen. lia. }
  (* the step through a server block *)
  assert (Hserver : ∀ it sd1,
    nextIsClient c = Some false →
    nextPayload' false (server c) = Some (it, sd1) →
    remaining' false (server c)
    = it :: remaining' false (advanceDocument storage false sd1) →
    sideOk storage false (advanceDocument storage false sd1) →
    mergeByTimestamp (remaining' true (client c)) (remaining' false (server c))
    = it :: mergeByTimestamp (remaining' true (client c))
                             (remaining' false (advanceDocument storage false sd1)) →
    match selectBlock' c with
    | Some (it, c1) =>
        let '(its, e) := walk' fuel (advanceDocuments storage c1) in
        (it :: its, e)
    | None => ([], Panicked)
    end
    = (mergeByTimestamp (remaining' true (client c))
                        (remaining' false (server c)),
       Returned tt)).
  { intros it sd1 Hn Hp Hrem Hok Hm.
    unfold selectBlock. rewrite Hn. cbn [mbind option_bind]. rewrite Hp.
    cbn [mbind option_bind].
    destruct (sideOk_advance true _ Hc) as [Hc' Hrc].
    set (c2 := advanceDocuments storage _).
    assert (Hc2 : sideOk storage true (client c2)) by done.
    assert (Hs2 : sideOk storage false (server c2)) by done.
    rewrite (IH c2 Hc2 Hs2).
    - change (remaining' false (server c2))
        with (remaining' false (advanceDocument storage false sd1)).
      change (remaining' true (client c2))
        with (remaining' true (advanceDocument storage true (client c))).
      by rewrite Hrc, Hm.
    - change (remaining' false (server c2))
        with (remaining' false (advanceDocument storage false sd1)).
      change (remaining' true (client c2))
        with (remaining' true (advanceDocument storage true (client c))).
      rewrite Hrc. rewrite Hrem in Hlen. simpl in Hlen. lia. }
  destruct (decide (Side.BlocksIndex (client c)
     < length (ConnectionStream.BlocksIndexes (Side.Stream (client c))))%nat)
    as [Hkc|Hkc];
  destruct (decide (Side.BlocksIndex (server c)
     < length (ConnectionStream.BlocksIndexes (Side.Stream (server c))))%nat)
    as [Hks|Hks].
  - destruct (sideOk_step true _ W Hc Hkc)
      as (ic & c1 & Hpc & Hrc & Hokc & Hfcc & Htc & _ & Hhc).
    destruct (sideOk_step false _ W Hs Hks)
      as (is_ & s1 & Hps & Hrs & Hoks & Hfcs & Hts & _ & Hhs).
    assert (Hn : nextIsClient c = Some (itemTime ic <=? itemTime is_)).
    { unfold nextIsClient. rewrite Hhc, Hhs. simpl. rewrite Htc. simpl.
      rewrite Hts. reflexivity. }
    assert (Hne : mergeByTimestamp (remaining' true (client c))
                    (remaining' false (server c)) ≠ []).
    { rewrite mergeByTimestamp_eq_nil, Hrc. by intros [? _]. }
    rewrite (bool_decide_eq_false_2 _ Hne). cbn [negb].
    destruct (itemTime ic <=? itemTime is_) eqn:E.
    + apply (Hclient ic c1); try done.
      rewrite Hrc at 1. rewrite Hrs at 1. rewrite mergeByTimestamp_cons, E.
      by rewrite <- Hrs.
    + apply (Hserver is_ s1); try done.
      rewrite Hrc at 1. rewrite Hrs at 1. rewrite mergeByTimestamp_cons, E.
      by rewrite <- Hrc.
  - destruct (sideOk_step true _ W Hc Hkc)
      as (ic & c1 & Hpc & Hrc & Hokc & Hfcc & Htc & _ & Hhc).
    destruct (sideOk_exhausted false _ Hs Hks) as (Hrs & Hhs & _).
    assert (Hn : nextIsClient c = Some true).
    { unfold nextIsClient. by rewrite Hhc, Hhs. }
    assert (Hne : mergeByTimestamp (remaining' true (client c))
                    (remaining' false (server c)) ≠ []).
    { rewrite mergeByTimestamp_eq_nil, Hrc. by intros [? _]. }
    rewrite (bool_decide_eq_false_2 _ Hne). cbn [negb].
    apply (Hclient ic c1); try done.
    by rewrite Hrs, !mergeByTimestamp_nil_r.
  - destruct (sideOk_step false _ W Hs Hks)
      as (is_ & s1 & Hps & Hrs & Hoks & Hfcs & Hts & _ & Hhs).
    destruct (sideOk_exhausted true _ Hc Hkc) as (Hrc & Hhc & _).
    assert (Hn : nextIsClient c = Some false).
    { unfold nextIsClient. by rewrite Hhc. }
    assert (Hne : mergeByTimestamp (remaining' true (client c))
                    (remaining' false (server c)) ≠ []).
    { rewrite mergeByTimestamp_eq_nil, Hrs. by intros [_ ?]. }
    rewrite (bool_decide_eq_false_2 _ Hne). cbn [negb].
    apply (Hserver is_ s1); try done.
    by rewrite Hrc, !mergeByTimestamp_nil_l.
  - destruct (sideOk_exhausted true _ Hc Hkc) as (Hrc & _).
    destruct (sideOk_exhausted false _ Hs Hks) as (Hrs & _).
    rewrite Hrc, Hrs. reflexivity.
Qed.

(** Over a well-formed store the blocks selected are those of the merge,
    and the selection does not panic. *)
Lemma walked_wf :
  wfStorage storage →
  walked nilMetadata DecodeBytes rangeOrder storage format
  = withGlobal 0 (mergeByTimestamp (sideItems' true) (sideItems' false))
  ∧ walkPanics nilMetadata DecodeBytes rangeOrder storage format = false.
Proof.
  intros W. unfold walked, walkPanics.
  destruct (initial_sideOk true W) as [Hc Hrc].
  destruct (initial_sideOk false W) as [Hs Hrs].
  rewrite walk_wf; [|done|done|done|].
  2:{ cbn [client server initialCursor]. rewrite Hrc, Hrs.
      unfold enoughFuel, sideItems.
      pose proof (streamItems_length true 0 0 (sideDocuments storage true)).
      pose proof (streamItems_length false 0 0 (sideDocuments storage false)).
      simpl in *. lia. }
  cbn [client server initialCursor fst snd]. by rewrite Hrc, Hrs.
Qed.

(** *** Metadata, skip and limit over any documents *)

Local Abbreviation walked' :=
  (walked nilMetadata DecodeBytes rangeOrder storage format).
Local Abbreviation walkPanics' :=
  (walkPanics nilMetadata DecodeBytes rangeOrder storage format).

(** C4 (as amended). Whatever the documents hold, the blocks the reader
    goes through up to its return (those left out because of [skip]
    included) fall into maximal runs of consecutive blocks of one side.
    The reader returns unless the selection of blocks panics before the
    running [globalIndex] has exceeded [skip + limit]; over a well-formed
    store it always returns and the blocks are those of the merge by
    timestamp of the two sides. What it returns is the Payloads of
    these runs, less those left out because of [skip], and every Payload
    of a run carries the Metadata parsed from the concatenated bytes of
    the whole run, the first Payload of the run with
    [is_metadata_continuation] false and every later one with true. *)
Theorem GetConnectionPayload_metadata_runs :
  ∃ rs,
    maximalRuns rs
      (stopAfter (wrap64 (Skip format + effectiveLimit format)) walked')
    ∧ GetConnectionPayload nilMetadata Parse DecodeBytes rangeOrder storage
        format
      = (if walkPanics'
            && negb (passes (wrap64 (Skip format + effectiveLimit format))
                            walked')
         then Panicked
         else Returned (emitted format (flat_map (annotateRun Parse) rs)))
    ∧ (wfStorage storage →
       walked'
       = withGlobal 0 (mergeByTimestamp (sideItems' true) (sideItems' false))
       ∧ GetConnectionPayload nilMetadata Parse DecodeBytes rangeOrder storage
           format
         = Returned (emitted format (flat_map (annotateRun Parse) rs)))
    ∧ ∀ run (i : nat) x,
        run ∈ rs → run !! i = Some x →
        annotateRun Parse run !! i
        = Some (Payload.setMetadata
                  (Parse (concat ((λ y, itemBytes y.1) <$> run)))
                  (bool_decide (i ≠ 0%nat)) (itemPayload x.1),
                x.2).
Proof.
  exists (runs (stopAfter (wrap64 (Skip format + effectiveLimit format))
                  walked')).
  split; [apply runs_maximal|].
  pose proof GetConnectionPayload_walk as Hwalk. unfold readUpTo in Hwalk.
  split; [exact Hwalk|]. split.
  - intros W. destruct (walked_wf W) as [Hmerge Hpanics].
    split; [exact Hmerge|]. by rewrite Hpanics in Hwalk.
  - intros run i x _ Hx. unfold annotateRun.
    by rewrite list_lookup_imap, Hx.
Qed.

(** C5 (as amended). For every [skip] and [limit] whose sum (the default
    standing for a zero limit) fits 64 bits, and whatever the documents
    hold, the reader goes through the blocks up to and including the
    first one whose running [globalIndex] exceeds [skip + limit]. It
    returns unless the selection of blocks panics before that block;
    over a well-formed store it always returns and the blocks are those
    of the merge by timestamp of the two sides. It returns the Payloads
    of the blocks gone through whose running [globalIndex] exceeds
    [skip] and of no other, and so returns the block that crossed
    [skip + limit] as the last Payload. *)
Theorem GetConnectionPayload_skip_limit :
  0 <= Skip format →
  Skip format + effectiveLimit format < 2 ^ 64 →
  let bound := Skip format + effectiveLimit format in
  let annotated :=
    flat_map (annotateRun Parse) (runs (stopAfter bound walked')) in
  let out := fst <$> filter (λ x, Skip format < x.2) annotated in
  GetConnectionPayload nilMetadata Parse DecodeBytes rangeOrder storage format
  = (if walkPanics' && negb (passes bound walked') then Panicked
     else Returned out)
  ∧ (wfStorage storage →
     walked'
     = withGlobal 0 (mergeByTimestamp (sideItems' true) (sideItems' false))
     ∧ GetConnectionPayload nilMetadata Parse DecodeBytes rangeOrder storage
         format
       = Returned out)
  ∧ ∀ p g,
      last annotated = Some (p, g) → bound < g → last out = Some p.
Proof.
  intros Hskip Hfit. cbn zeta.
  assert (Hlim : 0 < effectiveLimit format).
  { unfold effectiveLimit, DefaultQueryFormatLimit.
    destruct (Z.leb_spec (Limit format) 0); lia. }
  assert (Hw : wrap64 (Skip format + effectiveLimit format)
               = Skip format + effectiveLimit format).
  { unfold wrap64. apply Z.mod_small. lia. }
  pose proof GetConnectionPayload_walk as Hwalk.
  unfold readUpTo, emitted in Hwalk. rewrite Hw in Hwalk.
  split; [exact Hwalk|]. split.
  - intros W. destruct (walked_wf W) as [Hmerge Hpanics].
    split; [exact Hmerge|]. by rewrite Hpanics in Hwalk.
  - intros p g Hlast Hg. rewrite fmap_last.
    rewrite (last_filter _ _ (p, g) Hlast); [done|]. simpl. lia.
Qed.

End ReaderFacts.

(** ** The default limit *)

Section DefaultLimit.
Context {M : Type}.
Variable nilMetadata : M.
Variable Parse : list Byte.byte → M.
Variable DecodeBytes : list Byte.byte → string → string.
Variable rangeOrder :
  bool → nat → nat → PatternMatchesMap → list (N * list PatternSlice).
Variable storage : Storage.

(** The loop reads [format.Format] and [format.Skip] only; the limit
    comes as an argument. *)
Lemma loop_format (f1 f2 : QueryFormat) (limit : Z) (fuel : nat)
    (s : Cursor * Buffers M) :
  Format f1 = Format f2 → Skip f1 = Skip f2 →
  loop nilMetadata Parse DecodeBytes rangeOrder storage f1 limit fuel s
  = loop nilMetadata Parse DecodeBytes rangeOrder storage f2 limit fuel s.
Proof.
  intros Hf Hs. revert s. induction fuel as [|fuel IH]; intros s; [done|].
  cbn [loop].
  assert (Hb : body nilMetadata Parse DecodeBytes rangeOrder storage f1 limit s
               = body nilMetadata Parse DecodeBytes rangeOrder storage f2 limit s).
  { unfold body, selectBlock, nextPayload, account. by rewrite Hf, Hs. }
  rewrite Hb. destruct (negb _); [|done].
  clear Hb.
  destruct (body nilMetadata Parse DecodeBytes rangeOrder storage f2 limit s)
    as [[[c b] r]|]; [|done].
  destruct r; [done|apply IH].
Qed.

(** C6. A limit that is zero (or, were the field signed, negative) makes
    the reader behave as with limit 8024. A positive limit is used as it
    is given: whatever the documents hold, the reader goes through the
    blocks up to and including the first one whose running [globalIndex]
    exceeds [skip + limit] (the sum of line 186, in 64 bits) and returns
    there, or at the end of the streams when no block does; it panics
    only if the selection of blocks panics before such a block. *)
Theorem GetConnectionPayload_default_limit (format : QueryFormat) :
  (Limit format <= 0 →
   GetConnectionPayload nilMetadata Parse DecodeBytes rangeOrder storage format
   = GetConnectionPayload nilMetadata Parse DecodeBytes rangeOrder storage
       (mkQueryFormat (Format format) (Skip format) 8024))
  ∧ (0 < Limit format →
     GetConnectionPayload nilMetadata Parse DecodeBytes rangeOrder storage
       format
     = readUpTo nilMetadata Parse DecodeBytes rangeOrder storage format
         (wrap64 (Skip format + Limit format))).
Proof.
  split; intros Hl.
  - unfold GetConnectionPayload, effectiveLimit, DefaultQueryFormatLimit.
    cbn [Limit]. destruct (Z.leb_spec (Limit format) 0); [|lia].
    change (8024 <=? 0) with false. cbv iota.
    by rewrite (loop_format format
                  (mkQueryFormat (Format format) (Skip format) 8024)).
  - rewrite GetConnectionPayload_walk. unfold effectiveLimit.
    destruct (Z.leb_spec (Limit format) 0); [lia|done].
Qed.
End DefaultLimit.

(** ** Two runs over the same documents *)

Section TwoRuns.
Context {M : Type}.
Variable nilMetadata : M.
Variable Parse : list Byte.byte → M.
Variable DecodeBytes : list Byte.byte → string → string.
Variable storage : Storage.
Variable format : QueryFormat.

(** The map iteration orders of the two runs. *)
Variables range1 range2 :
  bool → nat → nat → PatternMatchesMap → list (N * list PatternSlice).
Hypothesis range_perm : ∀ b d k m, range1 b d k m ≡ₚ range2 b d k m.

Lemma payloadSim_refl (p : Payload.t M) : payloadSim p p.
Proof. by repeat split. Qed.

Lemma payloadSim_setMetadata (m : M) (c : bool) (p q : Payload.t M) :
  payloadSim p q →
  payloadSim (Payload.setMetadata m c p) (Payload.setMetadata m c q).
Proof. intros (?&?&?&?&?&?&?&?). by repeat split. Qed.

Lemma findMatchesBetween_perm (b : bool) (d k : nat) (m : PatternMatchesMap)
    (from to : Z) :
  findMatchesBetween (range1 b d k) m from to
  ≡ₚ findMatchesBetween (range2 b d k) m from to.
Proof. unfold findMatchesBetween. apply Permutation_flat_map, range_perm. Qed.

Lemma nextPayload_sim (fromClient : bool) (sd : Side.t) :
  option_Forall2 (λ x y, itemSim x.1 y.1 ∧ x.2 = y.2)
    (nextPayload nilMetadata DecodeBytes range1 format fromClient sd)
    (nextPayload nilMetadata DecodeBytes range2 format fromClient sd).
Proof.
  unfold nextPayload.
  destruct (ConnectionStream.BlocksIndexes (Side.Stream sd)
              !! Side.BlocksIndex sd) as [start|]; cbn [mbind option_bind];
    [|constructor].
  destruct (if _ <? _ then _ else _) as [end_|]; cbn [mbind option_bind];
    [|constructor].
  destruct (goSlice _ _ _) as [content|]; cbn [mbind option_bind];
    [|constructor].
  destruct (ConnectionStream.BlocksTimestamps _ !! _) as [ts|];
    cbn [mbind option_bind]; [|constructor].
  destruct (ConnectionStream.BlocksLoss _ !! _) as [loss|];
    cbn [mbind option_bind]; [|constructor].
  constructor. split; [|done]. split; [|done].
  repeat split; try done. simpl. apply findMatchesBetween_perm.
Qed.

Lemma selectBlock_sim (c : Cursor) :
  option_Forall2 (λ x y, itemSim x.1 y.1 ∧ x.2 = y.2)
    (selectBlock nilMetadata DecodeBytes range1 format c)
    (selectBlock nilMetadata DecodeBytes range2 format c).
Proof.
  unfold selectBlock.
  destruct (nextIsClient c) as [[|]|]; cbn [mbind option_bind]; [| |constructor].
  - destruct (nextPayload_sim true (client c))
      as [[i1 s1] [i2 s2] [Hi Hs]|]; cbn [mbind option_bind]; [|constructor].
    simpl in Hi, Hs. subst s2. pose proof Hi as (_ & _ & Hsz).
    constructor. split; [done|]. simpl. by rewrite Hsz.
  - destruct (nextPayload_sim false (server c))
      as [[i1 s1] [i2 s2] [Hi Hs]|]; cbn [mbind option_bind]; [|constructor].
    simpl in Hi, Hs. subst s2. pose proof Hi as (_ & _ & Hsz).
    constructor. split; [done|]. simpl. by rewrite Hsz.
Qed.

Lemma foldl_setMetadata_sim (metadata : M) (l : list nat)
    (h1 h2 : list (Payload.t M)) (c : bool) :
  Forall2 payloadSim h1 h2 →
  Forall2 payloadSim
    (foldl (λ '(h, isMetadataContinuation) elem,
              (alter (Payload.setMetadata metadata isMetadataContinuation)
                     elem h, true)) (h1, c) l).1
    (foldl (λ '(h, isMetadataContinuation) elem,
              (alter (Payload.setMetadata metadata isMetadataContinuation)
                     elem h, true)) (h2, c) l).1.
Proof.
  revert h1 h2 c. induction l as [|i l IH]; intros h1 h2 c Hh; [done|].
  cbn [foldl]. apply IH. apply Forall2_alter; [done|].
  intros x y _ _. apply payloadSim_setMetadata.
Qed.

Lemma updateMetadata_sim (b1 b2 : Buffers M) :
  buffersSim b1 b2 →
  buffersSim (updateMetadata Parse b1) (updateMetadata Parse b2).
Proof.
  intros (Hh & Hp & Hb & Hc). unfold updateMetadata. rewrite Hb, Hc, Hp.
  pose proof (foldl_setMetadata_sim (Parse (contentChunkBuffer b2))
                (payloadsBuffer b2) (heap b1) (heap b2) false Hh) as H.
  destruct (foldl _ (heap b1, false) _) as [h1 c1].
  destruct (foldl _ (heap b2, false) _) as [h2 c2].
  by repeat split.
Qed.

Lemma account_sim (limit : Z) (changed : bool) (i1 i2 : Item M) (g : Z)
    (zero : bool) (b1 b2 : Buffers M) :
  itemSim i1 i2 → buffersSim b1 b2 →
  buffersSim (account Parse format limit changed i1 g zero b1).1
             (account Parse format limit changed i2 g zero b2).1
  ∧ (account Parse format limit changed i1 g zero b1).2
    = (account Parse format limit changed i2 g zero b2).2.
Proof.
  intros (Hp & Hbytes & _) Hb. unfold account.
  assert (H1 : buffersSim (if changed then updateMetadata Parse b1 else b1)
                          (if changed then updateMetadata Parse b2 else b2)).
  { destruct changed; [by apply updateMetadata_sim|done]. }
  set (c1 := if changed then updateMetadata Parse b1 else b1) in *.
  set (c2 := if changed then updateMetadata Parse b2 else b2) in *.
  destruct H1 as (Hh & Hps & Hpb & Hcc).
  pose proof (Forall2_length _ _ _ Hh) as Hlen.
  set (d1 := mkBuffers (heap c1 ++ [itemPayload i1]) _ _ _).
  set (d2 := mkBuffers (heap c2 ++ [itemPayload i2]) _ _ _).
  assert (H2 : buffersSim d1 d2).
  { unfold d1, d2. repeat split; simpl.
    - apply Forall2_app; [done|]. by constructor.
    - done.
    - by rewrite Hpb, Hlen.
    - by rewrite Hcc, Hbytes. }
  assert (H3 : buffersSim (if zero then updateMetadata Parse d1 else d1)
                          (if zero then updateMetadata Parse d2 else d2)).
  { destruct zero; [by apply updateMetadata_sim|done]. }
  set (e1 := if zero then updateMetadata Parse d1 else d1) in *.
  set (e2 := if zero then updateMetadata Parse d2 else d2) in *.
  assert (H4 : buffersSim
    (if Skip format <? g
     then mkBuffers (heap e1) (payloads e1 ++ [length (heap c1)])
                    (payloadsBuffer e1) (contentChunkBuffer e1) else e1)
    (if Skip format <? g
     then mkBuffers (heap e2) (payloads e2 ++ [length (heap c2)])
                    (payloadsBuffer e2) (contentChunkBuffer e2) else e2)).
  { destruct (Skip format <? g); [|done].
    destruct H3 as (? & Hq & ? & ?). repeat split; simpl; try done.
    by rewrite Hq, Hlen. }
  destruct (wrap64 (Skip format + limit) <? g); simpl; [|done].
  split; [|done]. by apply updateMetadata_sim.
Qed.

Lemma loop_sim (limit : Z) (fuel : nat) (c : Cursor) (b1 b2 : Buffers M) :
  buffersSim b1 b2 →
  loopSim (loop nilMetadata Parse DecodeBytes range1 storage format limit fuel
                (c, b1))
          (loop nilMetadata Parse DecodeBytes range2 storage format limit fuel
                (c, b2)).
Proof.
  revert c b1 b2. induction fuel as [|fuel IH]; intros c b1 b2 Hb; [done|].
  cbn [loop fst snd]. destruct (bothZero c); cbn [negb]; [done|].
  unfold body. cbn [fst snd].
  destruct (selectBlock_sim c) as [[i1 c1] [i2 c2] [Hi Hc]|];
    cbn [mbind option_bind]; [|done].
  simpl in Hi, Hc. subst c2.
  destruct (account_sim limit (sideChanged (advanceDocuments storage c1))
              i1 i2 (globalIndex (advanceDocuments storage c1))
              (bothZero (advanceDocuments storage c1)) b1 b2 Hi Hb)
    as [Hsim Hret].
  destruct (account _ _ _ _ i1 _ _ _) as [b1' r1].
  destruct (account _ _ _ _ i2 _ _ _) as [b2' r2].
  simpl in Hsim, Hret. subst r2. destruct r1; [done|]. by apply IH.
Qed.

Lemma deref_sim (b1 b2 : Buffers M) :
  buffersSim b1 b2 → Forall2 payloadSim (deref b1) (deref b2).
Proof.
  intros (Hh & Hp & _). unfold deref. rewrite Hp. clear Hp.
  induction (payloads b2) as [|p ps IH]; [constructor|].
  cbn [omap list_omap].
  pose proof (proj1 (Forall2_lookup _ _ _) Hh p) as H.
  destruct (heap b1 !! p) as [x|], (heap b2 !! p) as [y|];
    inversion H; subst; [by constructor|apply IH].
Qed.

Lemma GetConnectionPayload_sim :
  outcomeSim
    (GetConnectionPayload nilMetadata Parse DecodeBytes range1 storage format)
    (GetConnectionPayload nilMetadata Parse DecodeBytes range2 storage format).
Proof.
  unfold GetConnectionPayload.
  pose proof (loop_sim (effectiveLimit format) (enoughFuel storage)
                (initialCursor storage) (mkBuffers [] [] [] [])
                (mkBuffers [] [] [] [])) as H.
  destruct (loop _ _ _ range1 _ _ _ _ _) as [b1| |];
    destruct (loop _ _ _ range2 _ _ _ _ _) as [b2| |];
    try (by apply H; repeat split).
  apply deref_sim. apply H. by repeat split.
Qed.
End TwoRuns.

(** C7 (as amended). Two runs of the reader over the same documents and
    the same query end alike, both returning or both panicking, whatever
    the order in which each run iterates over the [pattern_matches] maps;
    when they return, they return as many Payloads, equal one by one in
    every field except that the [regex_matches] of a Payload in one run
    is a permutation of the [regex_matches] of the Payload in the other. *)
Theorem GetConnectionPayload_two_runs {M : Type} (nilMetadata : M)
    (Parse : list Byte.byte → M)
    (DecodeBytes : list Byte.byte → string → string)
    (storage : Storage) (format : QueryFormat)
    (range1 range2 :
       bool → nat → nat → PatternMatchesMap → list (N * list PatternSlice)) :
  (∀ b d k, validRange (range1 b d k)) →
  (∀ b d k, validRange (range2 b d k)) →
  outcomeSim
    (GetConnectionPayload nilMetadata Parse DecodeBytes range1 storage format)
    (GetConnectionPayload nilMetadata Parse DecodeBytes range2 storage format)
  ∧ GetConnectionPayload nilMetadata Parse DecodeBytes range1 storage format
    ≠ OutOfFuel
  ∧ GetConnectionPayload nilMetadata Parse DecodeBytes range2 storage format
    ≠ OutOfFuel.
Proof.
  intros H1 H2. split; [|split; apply GetConnectionPayload_ends].
  apply GetConnectionPayload_sim. intros b d k m.
  by rewrite (H1 b d k m), (H2 b d k m).
Qed.

(** ** The claims at sample inputs *)

Lemma sample_wfStorage : wfStorage Sample.storage.
Proof. split; repeat constructor. Qed.


Lemma sample_sorted :
  Sorted Z.le (concat (ConnectionStream.BlocksTimestamps
                         <$> clientDocuments Sample.storage)).
Proof.
  repeat first [apply Sorted_nil | apply Sorted_cons
               | apply HdRel_nil | apply HdRel_cons | lia].
Qed.

Lemma ascending_valid (b : bool) (d k : nat) : validRange (Sample.ascending b d k).
Proof. intros m. reflexivity. Qed.

Lemma descending_valid (b : bool) (d k : nat) :
  validRange (Sample.descending b d k).
Proof. intros m. apply reverse_Permutation. Qed.



(** C2, witness. *)
Lemma GetConnectionPayload_index_document_offsets_witness :
  wfStorage Sample.storage
  ∧ ∃ out,
      GetConnectionPayload Sample.nilMetadata Sample.Parse
          Sample.DecodeBytes Sample.ascending
        Sample.storage Sample.everything = Returned out
      ∧ ∀ fromClient : bool,
          Payload.Index <$> filter (λ p, Payload.FromClient p = fromClient) out
          `sublist_of`
          concat (ConnectionStream.BlocksIndexes
                    <$> sideDocuments Sample.storage fromClient)
          ∧ Forall (λ d, StronglySorted Z.lt
                           (ConnectionStream.BlocksIndexes d))
                   (sideDocuments Sample.storage fromClient).
Proof.
  split; [exact sample_wfStorage|].
  exact (GetConnectionPayload_index_document_offsets Sample.nilMetadata
      Sample.Parse
           Sample.DecodeBytes Sample.ascending Sample.storage Sample.everything
           sample_wfStorage).
Defined.

(** C2, counterexample: the client's stream is 7 bytes in two documents;
    the block that opens the second document starts at offset 4 of the
    stream and its Payload has [index] 0, after the Payload of [index] 2
    of the block before it. *)
Lemma GetConnectionPayload_index_counterexample :
  wfStorage Sample.storage
  ∧ ∃ out,
      GetConnectionPayload Sample.nilMetadata Sample.Parse
          Sample.DecodeBytes Sample.ascending
        Sample.storage Sample.everything = Returned out
      ∧ Payload.Index <$> filter (λ p, Payload.FromClient p = true) out
        = [0; 2; 0]
      ∧ ¬ StronglySorted Z.lt
            (Payload.Index <$> filter (λ p, Payload.FromClient p = true) out).
Proof.
  split; [exact sample_wfStorage|].
  eexists. split; [vm_compute; reflexivity|]. split; [reflexivity|].
  intros H. apply StronglySorted_inv in H as [H _].
  apply StronglySorted_inv in H as [_ H].
  apply Forall_cons in H as [H _]. simpl in H. lia.
Qed.

(** C4, witness: the sample store, and a store that breaks the
    invariants and on which the reader returns all the same: its two
    blocks, the first of them empty, form one run. *)
Lemma GetConnectionPayload_metadata_runs_witness :
  wfStorage Sample.storage
  ∧ (∃ rs,
       maximalRuns rs
         (stopAfter (wrap64 (Skip Sample.everything
                             + effectiveLimit Sample.everything))
            (walked Sample.nilMetadata Sample.DecodeBytes Sample.ascending
               Sample.storage Sample.everything))
       ∧ walked Sample.nilMetadata Sample.DecodeBytes Sample.ascending
           Sample.storage Sample.everything
         = withGlobal 0
             (mergeByTimestamp
                (sideItems Sample.nilMetadata Sample.DecodeBytes
                   Sample.ascending Sample.storage Sample.everything true)
                (sideItems Sample.nilMetadata Sample.DecodeBytes
                   Sample.ascending Sample.storage Sample.everything false))
       ∧ GetConnectionPayload Sample.nilMetadata Sample.Parse
           Sample.DecodeBytes Sample.ascending Sample.storage Sample.everything
         = Returned (emitted Sample.everything
                       (flat_map (annotateRun Sample.Parse) rs))
       ∧ ∀ run (i : nat) x,
           run ∈ rs → run !! i = Some x →
           annotateRun Sample.Parse run !! i
           = Some (Payload.setMetadata
                     (Sample.Parse (concat ((λ y, itemBytes y.1) <$> run)))
                     (bool_decide (i ≠ 0%nat)) (itemPayload x.1),
                   x.2))
  ∧ ¬ wfStorage Sample.storageEmptyBlock
  ∧ (∃ rs,
       maximalRuns rs
         (stopAfter (wrap64 (Skip Sample.everything
                             + effectiveLimit Sample.everything))
            (walked Sample.nilMetadata Sample.DecodeBytes Sample.ascending
               Sample.storageEmptyBlock Sample.everything))
       ∧ GetConnectionPayload Sample.nilMetadata Sample.Parse
           Sample.DecodeBytes Sample.ascending Sample.storageEmptyBlock
           Sample.everything
         = Returned (emitted Sample.everything
                       (flat_map (annotateRun Sample.Parse) rs))
       ∧ ∀ run (i : nat) x,
           run ∈ rs → run !! i = Some x →
           annotateRun Sample.Parse run !! i
           = Some (Payload.setMetadata
                     (Sample.Parse (concat ((λ y, itemBytes y.1) <$> run)))
                     (bool_decide (i ≠ 0%nat)) (itemPayload x.1),
                   x.2)).
Proof.
  split; [exact sample_wfStorage|]. split.
  - destruct (GetConnectionPayload_metadata_runs Sample.nilMetadata
                Sample.Parse Sample.DecodeBytes Sample.ascending
                Sample.storage Sample.everything)
      as (rs & Hm & _ & Hwf & Hall).
    exists rs.
    exact (conj Hm (conj (proj1 (Hwf sample_wfStorage))
                      (conj (proj2 (Hwf sample_wfStorage)) Hall))).
  - split.
    { intros [W _]. apply Forall_cons in W as [W _]. vm_compute in W.
      discriminate W. }
    destruct (GetConnectionPayload_metadata_runs Sample.nilMetadata
                Sample.Parse Sample.DecodeBytes Sample.ascending
                Sample.storageEmptyBlock Sample.everything)
      as (rs & Hm & Hr & _ & Hall).
    exists rs. split; [exact Hm|]. split; [|exact Hall].
    assert (Hc : walkPanics Sample.nilMetadata Sample.DecodeBytes
                   Sample.ascending Sample.storageEmptyBlock Sample.everything
                 = false) by (vm_compute; reflexivity).
    rewrite Hc in Hr. exact Hr.
Defined.

(** C4, counterexample: the client blocks ["CD"] and ["EFG"] form a run.
    With [skip] 0 both are returned and the second one carries the
    metadata of the run as well, not the first one only; with [skip] 7
    the first one is left out and the run of the output begins with a
    Payload whose [is_metadata_continuation] is true. *)
Lemma GetConnectionPayload_metadata_counterexample :
  wfStorage Sample.storage
  ∧ (∃ p1 p2 p3 p4,
       GetConnectionPayload Sample.nilMetadata Sample.Parse Sample.DecodeBytes
         Sample.ascending Sample.storage Sample.everything
       = Returned [p1; p2; p3; p4]
       ∧ Payload.FromClient p2 = false
       ∧ Payload.FromClient p3 = true ∧ Payload.FromClient p4 = true
       ∧ Payload.Metadata p4 ≠ None)
  ∧ (∃ p,
       GetConnectionPayload Sample.nilMetadata Sample.Parse Sample.DecodeBytes
         Sample.ascending Sample.storage Sample.skipSeven
       = Returned [p]
       ∧ Payload.IsMetadataContinuation p = true).
Proof.
  split; [exact sample_wfStorage|]. split.
  - eexists _, _, _, _. split; [vm_compute; reflexivity|]. by repeat split.
  - eexists. split; [vm_compute; reflexivity|]. reflexivity.
Qed.

(** C5, witness: [skip] 2 and [limit] 3 over the sample store, whose
    blocks bring [globalIndex] to 2, 5, 7 and 10. The first block is
    left out, the second returned, and the third, which crosses
    [skip + limit] = 5, is the last Payload returned; the fourth is not
    reached. *)
Lemma GetConnectionPayload_skip_limit_witness :
  0 <= Skip Sample.window
  ∧ Skip Sample.window + effectiveLimit Sample.window < 2 ^ 64
  ∧ wfStorage Sample.storage
  ∧ (let bound := Skip Sample.window + effectiveLimit Sample.window in
     let annotated :=
       flat_map (annotateRun Sample.Parse)
         (runs (stopAfter bound
                  (walked Sample.nilMetadata Sample.DecodeBytes
                     Sample.ascending Sample.storage Sample.window))) in
     let out := fst <$> filter (λ x, Skip Sample.window < x.2) annotated in
     GetConnectionPayload Sample.nilMetadata Sample.Parse
         Sample.DecodeBytes Sample.ascending
       Sample.storage Sample.window
     = Returned out
     ∧ snd <$> annotated = [2; 5; 7]
     ∧ length out = 2%nat
     ∧ ∃ p, last annotated = Some (p, 7) ∧ bound < 7 ∧ last out = Some p).
Proof.
  assert (H1 : 0 <= Skip Sample.window) by (simpl; lia).
  assert (H2 : Skip Sample.window + effectiveLimit Sample.window < 2 ^ 64)
    by (vm_compute; reflexivity).
  split; [exact H1|]. split; [exact H2|]. split; [exact sample_wfStorage|].
  destruct (GetConnectionPayload_skip_limit Sample.nilMetadata Sample.Parse
              Sample.DecodeBytes Sample.ascending Sample.storage Sample.window
              H1 H2) as (_ & Hwf & Hlast).
  cbn zeta in *. split; [exact (proj2 (Hwf sample_wfStorage))|].
  split; [vm_compute; reflexivity|]. split; [vm_compute; reflexivity|].
  eexists. split; [vm_compute; reflexivity|]. split; [vm_compute; reflexivity|].
  apply (Hlast _ 7); vm_compute; reflexivity.
Defined.

(** C5, counterexample: [skip] is 5 and [limit] 2^64-1, so that
    [format.Skip + format.Limit] wraps to 4. The blocks of the sample
    store bring [globalIndex] to 2, 5, 7 and 10: the last two end after
    [skip] and none is past [skip + limit], so that both are due. The
    reader returns at the second block, whose [globalIndex] 5 exceeds 4
    and not [skip], and returns no Payload. *)
Lemma GetConnectionPayload_skip_limit_counterexample :
  wfStorage Sample.storage
  ∧ Skip Sample.skipFiveMax = 5 ∧ Limit Sample.skipFiveMax = 2 ^ 64 - 1
  ∧ wrap64 (Skip Sample.skipFiveMax + effectiveLimit Sample.skipFiveMax) = 4
  ∧ snd <$> walked Sample.nilMetadata Sample.DecodeBytes Sample.ascending
              Sample.storage Sample.skipFiveMax
    = [2; 5; 7; 10]
  ∧ length (emitted Sample.skipFiveMax
              (flat_map (annotateRun Sample.Parse)
                 (runs (stopAfter
                          (Skip Sample.skipFiveMax + Limit Sample.skipFiveMax)
                          (walked Sample.nilMetadata Sample.DecodeBytes
                             Sample.ascending Sample.storage
                             Sample.skipFiveMax)))))
    = 2%nat
  ∧ GetConnectionPayload Sample.nilMetadata Sample.Parse
      Sample.DecodeBytes Sample.ascending
      Sample.storage Sample.skipFiveMax = Returned [].
Proof.
  split; [exact sample_wfStorage|].
  split; [reflexivity|]. split; [reflexivity|]. split; [reflexivity|].
  split; [vm_compute; reflexivity|]. split; vm_compute; reflexivity.
Qed.

(** C6, witness: a zero limit, and the limit 5, after which the reader
    returns three of the four blocks of the sample store. *)
Lemma GetConnectionPayload_default_limit_witness :
  Limit Sample.everything <= 0
  ∧ 0 < Limit Sample.limitFive
  ∧ GetConnectionPayload Sample.nilMetadata Sample.Parse
      Sample.DecodeBytes Sample.ascending
      Sample.storage Sample.everything
    = GetConnectionPayload Sample.nilMetadata Sample.Parse
        Sample.DecodeBytes Sample.ascending
        Sample.storage
        (mkQueryFormat (Format Sample.everything) (Skip Sample.everything) 8024)
  ∧ GetConnectionPayload Sample.nilMetadata Sample.Parse
      Sample.DecodeBytes Sample.ascending
      Sample.storage Sample.limitFive
    = readUpTo Sample.nilMetadata Sample.Parse Sample.DecodeBytes
        Sample.ascending Sample.storage Sample.limitFive
        (wrap64 (Skip Sample.limitFive + Limit Sample.limitFive))
  ∧ ∃ p1 p2 p3,
      readUpTo Sample.nilMetadata Sample.Parse Sample.DecodeBytes
        Sample.ascending Sample.storage Sample.limitFive
        (wrap64 (Skip Sample.limitFive + Limit Sample.limitFive))
      = Returned [p1; p2; p3].
Proof.
  assert (H1 : Limit Sample.everything <= 0) by (simpl; lia).
  assert (H2 : 0 < Limit Sample.limitFive) by (simpl; lia).
  split; [exact H1|]. split; [exact H2|]. split; [|split].
  - exact (proj1 (GetConnectionPayload_default_limit Sample.nilMetadata
                    Sample.Parse Sample.DecodeBytes Sample.ascending
                    Sample.storage Sample.everything) H1).
  - exact (proj2 (GetConnectionPayload_default_limit Sample.nilMetadata
                    Sample.Parse Sample.DecodeBytes Sample.ascending
                    Sample.storage Sample.limitFive) H2).
  - eexists _, _, _. vm_compute. reflexivity.
Defined.

(** C7, witness: one run iterates the maps in key order, the other in the
    reverse order. *)
Lemma GetConnectionPayload_two_runs_witness :
  (∀ b d k, validRange (Sample.ascending b d k))
  ∧ (∀ b d k, validRange (Sample.descending b d k))
  ∧ outcomeSim
      (GetConnectionPayload Sample.nilMetadata Sample.Parse Sample.DecodeBytes
         Sample.ascending Sample.storage Sample.everything)
      (GetConnectionPayload Sample.nilMetadata Sample.Parse Sample.DecodeBytes
         Sample.descending Sample.storage Sample.everything)
  ∧ GetConnectionPayload Sample.nilMetadata Sample.Parse Sample.DecodeBytes
      Sample.ascending Sample.storage Sample.everything ≠ OutOfFuel
  ∧ GetConnectionPayload Sample.nilMetadata Sample.Parse Sample.DecodeBytes
      Sample.descending Sample.storage Sample.everything ≠ OutOfFuel.
Proof.
  split; [exact ascending_valid|]. split; [exact descending_valid|].
  exact (GetConnectionPayload_two_runs Sample.nilMetadata Sample.Parse
      Sample.DecodeBytes
           Sample.storage Sample.everything Sample.ascending Sample.descending
           ascending_valid descending_valid).
Defined.

(** C7, counterexample: patterns 1 and 2 both match in the first client
    block; the run that iterates the map in key order and the run that
    iterates it in the reverse order return different outputs, the
    [regex_matches] of the first Payload being listed in opposite
    orders. *)
Lemma GetConnectionPayload_two_runs_counterexample :
  (∀ b d k, validRange (Sample.ascending b d k))
  ∧ (∀ b d k, validRange (Sample.descending b d k))
  ∧ GetConnectionPayload Sample.nilMetadata Sample.Parse Sample.DecodeBytes
      Sample.ascending Sample.storage Sample.everything
    ≠ GetConnectionPayload Sample.nilMetadata Sample.Parse Sample.DecodeBytes
        Sample.descending Sample.storage Sample.everything.
Proof.
  split; [exact ascending_valid|]. split; [exact descending_valid|].
  vm_compute. discriminate.
Qed.

(** ** [findMatchesBetween] at the edge of a block *)

(** A slice is kept unless it starts at or after the end of the block or
    ends strictly before the start of the block. *)
Lemma matchSlice_kept (from to : Z) (slice : PatternSlice) :
  matchSlice from to slice ≠ [] ↔ from <= slice.2 ∧ slice.1 < to.
Proof.
  unfold matchSlice.
  destruct (Z.ltb_spec slice.2 from), (Z.leb_spec to slice.1); simpl;
    split; try done; try lia.
Qed.

(** When kept, a slice is rewritten to offsets relative to the block and
    clamped to the block: it starts at [max(slice[0], from) - from] and
    ends at [min(slice[1], to) - from]. *)
Lemma matchSlice_clamped (from to : Z) (slice : PatternSlice) :
  0 <= from <= to → to < 2 ^ 64 → 0 <= slice.1 → slice.2 < 2 ^ 64 →
  from <= slice.2 → slice.1 < to →
  matchSlice from to slice
  = [mkRegexSlice (Z.max slice.1 from - from) (Z.min slice.2 to - from)].
Proof.
  intros Hft Hto Hs He Hk1 Hk2. unfold matchSlice, wrap64.
  destruct (Z.ltb_spec slice.2 from); [lia|].
  destruct (Z.leb_spec to slice.1); [lia|]. simpl.
  f_equal. f_equal.
  - destruct (Z.ltb_spec slice.1 from).
    + lia.
    + rewrite Z.mod_small by lia. lia.
  - destruct (Z.leb_spec to slice.2); rewrite Z.mod_small by lia; lia.
Qed.

(** Whatever the iteration order, the ranges returned are those of the
    slices kept, over all the entries of the map. *)
Lemma findMatchesBetween_elem_of
    (range : PatternMatchesMap → list (N * list PatternSlice))
    (patternMatches : PatternMatchesMap) (from to : Z) (r : RegexSlice) :
  validRange range →
  r ∈ findMatchesBetween range patternMatches from to
  ↔ ∃ (k : N) (slices : list PatternSlice) (slice : PatternSlice),
      patternMatches !! k = Some slices ∧ slice ∈ slices
      ∧ matchSlice from to slice = [r].
Proof.
  intros Hvalid. unfold findMatchesBetween.
  rewrite list_elem_of_In, in_flat_map. split.
  - intros ([k slices] & Hin & Hr). simpl in Hr.
    apply in_flat_map in Hr as (slice & Hs & Hr).
    exists k, slices, slice. split_and!.
    + apply elem_of_map_to_list. rewrite <- (Hvalid patternMatches).
      by apply list_elem_of_In.
    + by apply list_elem_of_In.
    + unfold matchSlice in *. destruct (_ || _); [done|].
      destruct Hr as [->|[]]. done.
  - intros (k & slices & slice & Hk & Hs & Hr).
    exists (k, slices). split.
    + apply list_elem_of_In. rewrite (Hvalid patternMatches).
      by apply elem_of_map_to_list.
    + simpl. apply in_flat_map. exists slice. split.
      * by apply list_elem_of_In.
      * rewrite Hr. by left.
Qed.

(** C3 (the code departs from the claim). The match [[0,5)] ends where the
    block [[5,10)] starts and shares no byte with it; [findMatchesBetween]
    reports it all the same, as the empty range [[0,0)]. *)
Theorem findMatchesBetween_match_ending_at_block_start :
  findMatchesBetween map_to_list {[ 1%N := [(0, 5)] ]} 5 10
  = [mkRegexSlice 0 0].
Proof. vm_compute. reflexivity. Qed.

(** ** The validators *)

Lemma isValidPort_iff (port : string) (required : bool) :
  Validation.isValidPort port required = true
  ↔ ∃ p, Validation.parseInt10 port = Some p
         ∧ (if required then 0 else -1) < p <= 65565.
Proof.
  unfold Validation.isValidPort, Validation.js_gt, Validation.js_le.
  destruct (Validation.parseInt10 port) as [p|]; simpl.
  - rewrite andb_true_iff, Z.ltb_lt, Z.leb_le. split.
    + intros [? ?]. exists p. by repeat split.
    + intros (q & [= <-] & ? & ?). done.
  - split; [done|]. by intros (q & ? & _).
Qed.

(** C8 (the code departs from the claim). The bound in [isValidPort] is
    65565: the ports 65536 to 65565 are accepted, 65566 is the first one
    refused. *)
Theorem isValidPort_accepts_65536 :
  Validation.isValidPort "65536" true = true
  ∧ Validation.isValidPort "65565" true = true
  ∧ Validation.isValidPort "65566" true = false.
Proof. by repeat split. Qed.

(** C9 (the code departs from the claim). [isValidAddress] accepts the
    address ["not-an-ip"]; [validateSettings] sets no error for it and
    [saveSettings] posts the settings. *)
Theorem saveSettings_posts_invalid_address :
  Validation.isValidAddress "not-an-ip" = true
  ∧ ConfigurationPane.validateSettings Sample.pane
      (ConfigurationPane.settings Sample.pane)
    = (true, Sample.pane)
  ∧ ConfigurationPane.saveSettings Sample.pane
    = (Some (ConfigurationPane.settings Sample.pane), Sample.pane).
Proof. by repeat split. Qed.

(** ** The connections view *)

Lemma index_head {Conn : Type} (l : list Conn) : Connections.index l 0 = head l.
Proof. unfold Connections.index. simpl. by rewrite head_lookup. Qed.

Lemma index_last {Conn : Type} (l : list Conn) :
  Connections.index l (Connections.len l - 1) = last l.
Proof.
  unfold Connections.index, Connections.len. destruct l as [|a l]; [done|].
  destruct (Z.ltb_spec (Z.of_nat (length (a :: l)) - 1) 0) as [H|H].
  - simpl in H. lia.
  - rewrite last_lookup. f_equal. simpl. lia.
Qed.

(** The branch that loads the rows before the first one trims with
    [slice(0, maxConnections)] and keeps the invariant of the view. *)
Lemma loadConnections_to_keeps_view {Conn : Type}
    (st : Connections.ViewState Conn) (p : Connections.Params)
    (res : list Conn) :
  Connections.view_ok st → Connections.connections st ≠ [] →
  Connections.from p = None → is_Some (Connections.to p) →
  Connections.view_ok (Connections.loadConnections st (Some p) res).
Proof.
  intros (Hf & Hl & Hn) Hne Hfrom Hto.
  unfold Connections.loadConnections, Connections.view_ok. simpl.
  rewrite Hfrom. rewrite bool_decide_eq_false_2 by (by intros [? ?]).
  rewrite bool_decide_eq_true_2 by done.
  destruct (Z.ltb_spec 0 (Connections.len res)) as [Hres|Hres]; [|done].
  destruct (Z.ltb_spec Connections.maxConnections
              (Connections.len (res ++ Connections.connections st)))
    as [Hbig|Hsmall]; simpl.
  - unfold Connections.slice, Connections.maxConnections, Connections.len in *.
    cbn [Z.ltb Z.compare]. rewrite !Z.min_l by lia.
    change (Z.to_nat (Z.max (500 - 0) 0)) with 500%nat.
    change (Z.to_nat 0) with 0%nat. rewrite drop_0.
    set (cs := res ++ Connections.connections st) in *.
    assert (Hlen : length (take 500 cs) = 500%nat) by (rewrite length_take; lia).
    split_and!.
    + rewrite index_head. destruct cs; [simpl in Hbig; lia|done].
    + unfold Connections.index. simpl.
      rewrite last_lookup, Hlen. done.
    + lia.
  - split_and!.
    + apply index_head.
    + rewrite Hl. rewrite last_app.
      destruct (last (Connections.connections st)) eqn:E; [done|].
      by apply last_None in E.
    + done.
Qed.

(** A load from scratch keeps the invariant when the backend answers
    with at most [maxConnections] rows. *)
Lemma loadConnections_reload_keeps_view {Conn : Type}
    (st : Connections.ViewState Conn) (limit : option Z) (res : list Conn) :
  Connections.len res <= Connections.maxConnections →
  Connections.view_ok
    (Connections.loadConnections st
       (Some (Connections.mkParams None None limit)) res).
Proof.
  intros Hres. unfold Connections.loadConnections, Connections.view_ok. simpl.
  destruct (Z.ltb_spec 0 (Connections.len res)); simpl.
  - split_and!; [apply index_head|apply index_last|done].
  - by split_and!.
Qed.

(** C10 (the code departs from the claim). The view holds 480 connections
    and loads the 50 that follow its last one; the 530 rows are cut to
    [slice(30, 529)], 499 rows ending with row 528, while [lastConnection]
    stays row 529, which the view no longer holds. *)
Theorem loadConnections_from_trim_drops_last :
  let st := Connections.loadConnections Sample.view Sample.fromLast
              Sample.nextRows in
  Connections.view_ok Sample.view
  ∧ length (Connections.connections st) = 499%nat
  ∧ last (Connections.connections st) = Some 528%nat
  ∧ Connections.lastConnection st = Some 529%nat
  ∧ ¬ Connections.view_ok st.
Proof.
  cbn zeta. split; [by repeat split|].
  split; [by vm_compute|]. split; [by vm_compute|]. split; [by vm_compute|].
  intros (_ & H & _). vm_compute in H. discriminate.
Qed.

(** * Further properties of the stream reader *)

Section ReaderMore.
Context {M : Type}.
Variable nilMetadata : M.
Variable Parse : list Byte.byte → M.
Variable DecodeBytes : list Byte.byte → string → string.
Variable rangeOrder :
  bool → nat → nat → PatternMatchesMap → list (N * list PatternSlice).
Variable storage : Storage.
Variable format : QueryFormat.

Local Abbreviation nextPayload' :=
  (nextPayload nilMetadata DecodeBytes rangeOrder format).
Local Abbreviation blockItems' :=
  (blockItems nilMetadata DecodeBytes rangeOrder format).
Local Abbreviation streamItems' :=
  (streamItems nilMetadata DecodeBytes rangeOrder format).
Local Abbreviation sideItems' :=
  (sideItems nilMetadata DecodeBytes rangeOrder storage format).
Local Abbreviation traversal' :=
  (traversal nilMetadata DecodeBytes rangeOrder storage format).
Local Abbreviation read' :=
  (GetConnectionPayload nilMetadata Parse DecodeBytes rangeOrder storage format).

(** What one block gives, read off [nextPayload]. *)
Lemma nextPayload_fields (fromClient : bool) (sd sd' : Side.t) (it : Item M) :
  nextPayload' fromClient sd = Some (it, sd') →
  ∃ start end_ : Z,
    ConnectionStream.BlocksIndexes (Side.Stream sd) !! Side.BlocksIndex sd
    = Some start
    ∧ (if Z.of_nat (Side.BlocksIndex sd)
          <? Z.of_nat (length (ConnectionStream.BlocksIndexes (Side.Stream sd)))
             - 1
       then ConnectionStream.BlocksIndexes (Side.Stream sd)
              !! S (Side.BlocksIndex sd)
       else Some (Z.of_nat (length (ConnectionStream.Payload (Side.Stream sd)))))
      = Some end_
    ∧ 0 <= start <= end_
    ∧ end_ <= Z.of_nat (length (ConnectionStream.Payload (Side.Stream sd)))
    ∧ itemBytes it
      = take (Z.to_nat (end_ - start))
             (drop (Z.to_nat start) (ConnectionStream.Payload (Side.Stream sd)))
    ∧ itemSize it = wrap64 (end_ - start)
    ∧ Payload.Content (itemPayload it)
      = DecodeBytes (itemBytes it) (Format format)
    ∧ payloadFields (itemPayload it)
      = (start,
         default 0 (ConnectionStream.BlocksTimestamps (Side.Stream sd)
                      !! Side.BlocksIndex sd),
         default false (ConnectionStream.BlocksLoss (Side.Stream sd)
                          !! Side.BlocksIndex sd))
    ∧ is_Some (ConnectionStream.BlocksTimestamps (Side.Stream sd)
                 !! Side.BlocksIndex sd)
    ∧ is_Some (ConnectionStream.BlocksLoss (Side.Stream sd)
                 !! Side.BlocksIndex sd)
    ∧ sd' = Side.mk (wrap64 (Side.Index sd + itemSize it))
                    (S (Side.BlocksIndex sd)) (Side.DocumentIndex sd)
                    (Side.Stream sd).
Proof.
  unfold nextPayload. intros H.
  destruct (ConnectionStream.BlocksIndexes (Side.Stream sd)
              !! Side.BlocksIndex sd) as [start|]; [|done].
  cbn [mbind option_bind] in H.
  destruct (if _ <? _ then _ else _) as [end_|]; [|done].
  cbn [mbind option_bind] in H.
  unfold goSlice in H.
  destruct ((0 <=? start) && (start <=? end_)
            && (end_ <=? Z.of_nat (length (ConnectionStream.Payload
                                             (Side.Stream sd))))) eqn:Hc;
    [|done].
  cbn [mbind option_bind] in H.
  destruct (ConnectionStream.BlocksTimestamps (Side.Stream sd)
              !! Side.BlocksIndex sd) as [ts|]; [|done].
  cbn [mbind option_bind] in H.
  destruct (ConnectionStream.BlocksLoss (Side.Stream sd)
              !! Side.BlocksIndex sd) as [loss|]; [|done].
  cbn [mbind option_bind] in H. injection H as <- <-.
  rewrite !andb_true_iff, !Z.leb_le in Hc.
  exists start, end_. simpl. split_and!; try done; try lia; by eexists.
Qed.

Lemma take_drop_drop {A : Type} (l : list A) (a b : nat) :
  (a ≤ b)%nat → take (b - a) (drop a l) ++ drop b l = drop a l.
Proof.
  intros Hab. rewrite <- (take_drop (b - a) (drop a l)) at 2.
  rewrite drop_drop. do 2 f_equal. lia.
Qed.

(** The blocks of a well-formed document, from block [k] on: their bytes
    are the payload from the offset of block [k] on, each block counts as
    many bytes as it holds, at least one, and its start offset, timestamp
    and loss flag are those of the block arrays. *)
Lemma blockItems_document (fromClient : bool) (d : ConnectionStream.t)
    (di : nat) (m k : nat) (off : Z) :
  wfFacts d →
  (k + m = length (ConnectionStream.BlocksIndexes d))%nat →
  concat (itemBytes <$> blockItems' fromClient m (Side.mk off k di d))
  = match ConnectionStream.BlocksIndexes d !! k with
    | Some s => drop (Z.to_nat s) (ConnectionStream.Payload d)
    | None => []
    end
  ∧ Forall (λ it, itemSize it = Z.of_nat (length (itemBytes it))
                  ∧ 0 < itemSize it
                  ∧ Payload.Content (itemPayload it)
                    = DecodeBytes (itemBytes it) (Format format))
           (blockItems' fromClient m (Side.mk off k di d))
  ∧ (λ it, payloadFields (itemPayload it))
      <$> blockItems' fromClient m (Side.mk off k di d)
    = drop k (blockFields d).
Proof.
  intros W. revert k off. induction m as [|m IH]; intros k off Hk.
  - simpl. rewrite lookup_ge_None_2 by lia.
    split_and!; [done|done|].
    rewrite drop_ge; [done|]. unfold blockFields.
    rewrite !length_zip_with. lia.
  - destruct (nextPayload_wf nilMetadata DecodeBytes rangeOrder format
                fromClient (Side.mk off k di d) W) as (it & Hn & _);
      [simpl; lia|].
    destruct (nextPayload_fields _ _ _ _ Hn)
      as (s & e & Hs & He & Hse & Hel & Hb & Hsz & Hcont & Hf & [ts Hts]
          & [loss Hloss] & _).
    simpl in Hn, Hs, He, Hel, Hb, Hsz, Hts, Hloss.
    cbn [Side.Stream Side.BlocksIndex] in Hf.
    assert (Hf' : payloadFields (itemPayload it) = (s, ts, loss)).
    { rewrite Hf. unfold Time in *. by rewrite Hts, Hloss. }
    clear Hf.
    cbn [blockItems]. rewrite Hn.
    destruct (IH (S k) (wrap64 (off + itemSize it))) as (IHb & IHs & IHf);
      [lia|].
    pose proof (wf_block_bounds d k s W Hs) as Hsb.
    assert (Hlt : s < e).
    { destruct (Z.ltb_spec (Z.of_nat k)
                  (Z.of_nat (length (ConnectionStream.BlocksIndexes d)) - 1)).
      - by apply (strictlyIncreasing_lookup _ k (S k) s e (wf_incr _ W));
          [| |lia].
      - injection He as <-. lia. }
    assert (Hlen : Z.of_nat (length (itemBytes it)) = e - s).
    { rewrite Hb, length_take, length_drop. lia. }
    assert (Hsize : itemSize it = e - s).
    { rewrite Hsz. unfold wrap64. apply Z.mod_small.
      pose proof (wf_len _ W). lia. }
    split_and!.
    + cbn [fmap list_fmap concat]. rewrite IHb, Hs, Hb.
      destruct (Z.ltb_spec (Z.of_nat k)
                  (Z.of_nat (length (ConnectionStream.BlocksIndexes d)) - 1)).
      * rewrite He.
        replace (Z.to_nat (e - s)) with (Z.to_nat e - Z.to_nat s)%nat by lia.
        apply take_drop_drop. lia.
      * injection He as <-. rewrite lookup_ge_None_2 by lia.
        rewrite app_nil_r. apply take_ge. rewrite length_drop. lia.
    + apply Forall_cons. split; [|exact IHs].
      split_and!; [lia|lia|done].
    + cbn [fmap list_fmap]. rewrite IHf, Hf'.
      symmetry. apply drop_S. unfold blockFields.
      rewrite !lookup_zip_with, Hs. simpl. rewrite Hts. simpl.
      by rewrite Hloss.
Qed.

Lemma sumSizes_app (xs ys : list (Item M)) :
  sumSizes (xs ++ ys) = sumSizes xs + sumSizes ys.
Proof. induction xs as [|x xs IH]; simpl; [done|]. rewrite IH. lia. Qed.

Lemma sumSizes_bytes (its : list (Item M)) :
  Forall (λ it, itemSize it = Z.of_nat (length (itemBytes it))) its →
  sumSizes its = Z.of_nat (length (concat (itemBytes <$> its))).
Proof.
  induction 1 as [|it its Hit _ IH]; [done|].
  cbn [sumSizes foldr fmap list_fmap concat]. rewrite length_app.
  unfold sumSizes in IH. rewrite IH, Hit. lia.
Qed.

(** The blocks of the documents of a well-formed side. *)
Lemma streamItems_documents (fromClient : bool) (di : nat) (off : Z)
    (docs : list ConnectionStream.t) :
  Forall wfFacts docs →
  concat (itemBytes <$> streamItems' fromClient di off docs)
  = concat (blockBytes <$> docs)
  ∧ Forall (λ it, itemSize it = Z.of_nat (length (itemBytes it))
                  ∧ 0 < itemSize it
                  ∧ Payload.Content (itemPayload it)
                    = DecodeBytes (itemBytes it) (Format format))
           (streamItems' fromClient di off docs)
  ∧ (λ it, payloadFields (itemPayload it))
      <$> streamItems' fromClient di off docs
    = concat (blockFields <$> docs)
  ∧ length (streamItems' fromClient di off docs) = blockCount docs
  ∧ sumSizes (streamItems' fromClient di off docs) <= payloadBytes docs.
Proof.
  intros W. revert di off.
  induction W as [|d docs Wd W IH]; intros di off; [done|].
  cbn [streamItems fmap list_fmap concat].
  set (its := blockItems' fromClient _ _).
  destruct (blockItems_document fromClient d di
              (length (ConnectionStream.BlocksIndexes d)) 0 off Wd eq_refl)
    as (Hb & Hs & Hf).
  fold its in Hb, Hs, Hf.
  destruct (IH (S di) (offsetAfter off its)) as (IHb & IHs & IHf & IHl & IHz).
  assert (Hlen : length its = length (ConnectionStream.BlocksIndexes d)).
  { rewrite <- (length_fmap (λ it, payloadFields (itemPayload it))), Hf, drop_0.
    unfold blockFields. rewrite !length_zip_with.
    rewrite (wf_times _ Wd), (wf_loss _ Wd). lia. }
  assert (Hbytes : concat (itemBytes <$> its) = blockBytes d).
  { rewrite Hb. unfold blockBytes. rewrite head_lookup.
    pose proof (wf_nonempty _ Wd).
    by destruct (ConnectionStream.BlocksIndexes d). }
  split_and!.
  - by rewrite fmap_app, concat_app, Hbytes, IHb.
  - by apply Forall_app.
  - by rewrite fmap_app, Hf, drop_0, IHf.
  - rewrite length_app, Hlen, IHl. done.
  - rewrite sumSizes_app.
    rewrite (sumSizes_bytes its), Hbytes.
    2:{ eapply Forall_impl; [exact Hs|]. by intros it (? & _). }
    unfold blockBytes. rewrite length_drop.
    cbn [payloadBytes foldr]. unfold payloadBytes in IHz. lia.
Qed.

Lemma sideItems_documents (fromClient : bool) :
  wfStorage storage →
  concat (itemBytes <$> sideItems' fromClient) = sideBytes storage fromClient
  ∧ Forall (λ it, itemSize it = Z.of_nat (length (itemBytes it))
                  ∧ 0 < itemSize it
                  ∧ Payload.Content (itemPayload it)
                    = DecodeBytes (itemBytes it) (Format format))
           (sideItems' fromClient)
  ∧ (λ it, payloadFields (itemPayload it)) <$> sideItems' fromClient
    = concat (blockFields <$> sideDocuments storage fromClient)
  ∧ length (sideItems' fromClient)
    = blockCount (sideDocuments storage fromClient)
  ∧ sumSizes (sideItems' fromClient)
    <= payloadBytes (sideDocuments storage fromClient).
Proof.
  intros W. apply streamItems_documents.
  by apply (wfStorage_Forall storage fromClient).
Qed.

(** The Payloads of one side, read through a field the metadata does not
    touch, are in order some of the blocks of that side. *)
Lemma output_side_sublist {B : Type} (g : Payload.t M → B) (fromClient : bool) :
  (∀ m c p, g (Payload.setMetadata m c p) = g p) →
  g <$> filter (λ p, Payload.FromClient p = fromClient)
          (emitted format (flat_map (annotateRun Parse) (runs traversal')))
  `sublist_of` (λ it, g (itemPayload it)) <$> sideItems' fromClient.
Proof.
  intros Hg.
  set (f := λ p : Payload.t M, (Payload.FromClient p, g p)).
  set (k := λ x : bool * B, if decide (x.1 = fromClient) then [x.2] else []).
  rewrite fmap_filter_bind.
  change (λ x : Payload.t M,
            if decide (Payload.FromClient x = fromClient) then [g x] else [])
    with (k ∘ f).
  rewrite <- list_fmap_bind.
  trans (((λ it, f (itemPayload it))
            <$> mergeByTimestamp (sideItems' true) (sideItems' false)) ≫= k).
  { apply bind_sublist.
    apply (output_sublist nilMetadata Parse DecodeBytes rangeOrder storage
             format f).
    intros m c p. unfold f. by rewrite Hg. }
  rewrite list_fmap_bind.
  change (k ∘ (λ it : Item M, f (itemPayload it)))
    with (λ it : Item M,
            if decide (itemFromClient it = fromClient)
            then [g (itemPayload it)] else []).
  rewrite <- (fmap_filter_bind (λ it, itemFromClient it = fromClient)
                (λ it, g (itemPayload it))).
  destruct (mergeByTimestamp_filter_client (sideItems' true) (sideItems' false)
              (sideItems_side nilMetadata DecodeBytes rangeOrder storage
                 format true)
              (sideItems_side nilMetadata DecodeBytes rangeOrder storage
                 format false)) as [Ec Es].
  destruct fromClient; [by rewrite Ec|by rewrite Es].
Qed.

(** X1. Every Payload reports the start offset, the timestamp and the loss
    flag of one and the same block: per side, the triples of the Payloads
    returned are, in order, triples of the block arrays of the side's
    documents. *)
Theorem GetConnectionPayload_block_fields :
  wfStorage storage →
  ∃ out,
    read' = Returned out
    ∧ ∀ fromClient : bool,
        payloadFields <$> filter (λ p, Payload.FromClient p = fromClient) out
        `sublist_of` concat (blockFields <$> sideDocuments storage fromClient).
Proof.
  intros W. eexists. split; [by apply GetConnectionPayload_wf|].
  intros fromClient.
  destruct (sideItems_documents fromClient W) as (_ & _ & <- & _).
  by apply (output_side_sublist payloadFields).
Qed.

(** *** Timestamps in order *)

Lemma mergeByTimestamp_sorted (cs ss : list (Item M)) :
  StronglySorted (λ a b, itemTime a <= itemTime b) cs →
  StronglySorted (λ a b, itemTime a <= itemTime b) ss →
  StronglySorted (λ a b, itemTime a <= itemTime b) (mergeByTimestamp cs ss).
Proof.
  intros Hc. revert ss. induction Hc as [|c cs Hc IHc Hcle]; intros ss Hs.
  { by rewrite mergeByTimestamp_nil_l. }
  induction Hs as [|s ss Hs IHs Hsle].
  { rewrite mergeByTimestamp_nil_r. by constructor. }
  rewrite mergeByTimestamp_cons.
  destruct (Z.leb_spec (itemTime c) (itemTime s)).
  - constructor; [apply IHc; by constructor|].
    apply Forall_forall. intros y Hy.
    apply mergeByTimestamp_elem_of in Hy as [Hy|Hy].
    + rewrite Forall_forall in Hcle. by apply Hcle.
    + apply elem_of_cons in Hy as [->|Hy]; [done|].
      rewrite Forall_forall in Hsle. specialize (Hsle y Hy). simpl in Hsle. lia.
  - constructor; [apply IHs|].
    apply Forall_forall. intros y Hy.
    apply mergeByTimestamp_elem_of in Hy as [Hy|Hy].
    + apply elem_of_cons in Hy as [->|Hy]; [lia|].
      rewrite Forall_forall in Hcle. specialize (Hcle y Hy). simpl in Hcle. lia.
    + rewrite Forall_forall in Hsle. by apply Hsle.
Qed.

(** X2. When the block timestamps of each side do not decrease along its
    stream, the timestamps of the Payloads returned do not decrease
    either. *)
Theorem GetConnectionPayload_timestamps_sorted :
  wfStorage storage →
  Sorted Z.le (concat (ConnectionStream.BlocksTimestamps
                         <$> clientDocuments storage)) →
  Sorted Z.le (concat (ConnectionStream.BlocksTimestamps
                         <$> serverDocuments storage)) →
  ∃ out, read' = Returned out ∧ Sorted Z.le (Payload.Timestamp <$> out).
Proof.
  intros W Hc Hs. eexists. split; [by apply GetConnectionPayload_wf|].
  apply StronglySorted_Sorted.
  eapply StronglySorted_sublist.
  { apply (output_sublist nilMetadata Parse DecodeBytes rangeOrder storage
             format Payload.Timestamp). done. }
  eapply (StronglySorted_fmap _ (λ a b, itemTime a <= itemTime b) Z.le);
    [done|].
  assert (Hside : ∀ fromClient,
    Sorted Z.le (concat (ConnectionStream.BlocksTimestamps
                           <$> sideDocuments storage fromClient)) →
    StronglySorted (λ a b : Item M, itemTime a <= itemTime b)
                   (sideItems' fromClient)).
  { intros fromClient Hsorted.
    apply (StronglySorted_fmap_inv
             (λ it, Payload.Timestamp (itemPayload it)) Z.le).
    destruct (sideItems_wf nilMetadata DecodeBytes rangeOrder storage format
                fromClient W) as [_ ->].
    by apply Sorted_StronglySorted; [apply _|]. }
  apply mergeByTimestamp_sorted; by apply Hside.
Qed.

(** *** A read that the limit does not cut *)

Lemma sumSizes_merge (cs ss : list (Item M)) :
  sumSizes (mergeByTimestamp cs ss) = sumSizes cs + sumSizes ss.
Proof.
  revert ss. induction cs as [|c cs IHc]; intros ss.
  { rewrite mergeByTimestamp_nil_l. simpl. lia. }
  induction ss as [|s ss IHs].
  { rewrite mergeByTimestamp_nil_r. simpl. lia. }
  rewrite mergeByTimestamp_cons. destruct (_ <=? _).
  - change (sumSizes (c :: ?l)) with (itemSize c + sumSizes l).
    rewrite IHc. change (sumSizes (c :: cs)) with (itemSize c + sumSizes cs).
    lia.
  - change (sumSizes (s :: ?l)) with (itemSize s + sumSizes l).
    rewrite IHs. change (sumSizes (s :: ss)) with (itemSize s + sumSizes ss).
    lia.
Qed.

Lemma withGlobal_bounds (its : list (Item M)) (g bound : Z) :
  0 <= g → Forall (λ it, 0 < itemSize it) its →
  g + sumSizes its <= bound → bound < 2 ^ 64 →
  Forall (λ x, 0 < x.2 <= bound) (withGlobal g its).
Proof.
  revert g. induction its as [|it its IH]; intros g Hg Hpos Hsum Hb; [done|].
  apply Forall_cons in Hpos as [Hit Hpos].
  change (sumSizes (it :: its)) with (itemSize it + sumSizes its) in Hsum.
  assert (Hits : 0 <= sumSizes its).
  { clear -Hpos. induction Hpos as [|x l Hx _ IHl]; [done|].
    change (sumSizes (x :: l)) with (itemSize x + sumSizes l). lia. }
  assert (Hw : wrap64 (g + itemSize it) = g + itemSize it).
  { unfold wrap64. apply Z.mod_small. lia. }
  cbn [withGlobal]. rewrite Hw. apply Forall_cons. split; [simpl; lia|].
  apply IH; [lia|done|lia|done].
Qed.

Lemma stopAfter_all (bound : Z) (xs : list (Item M * Z)) :
  Forall (λ x, x.2 <= bound) xs → stopAfter bound xs = xs.
Proof.
  induction 1 as [|x xs Hx _ IH]; [done|]. simpl.
  destruct (Z.ltb_spec bound x.2); [lia|]. by rewrite IH.
Qed.

Lemma filter_all {A : Type} (P : A → Prop) `{!∀ x, Decision (P x)}
    (l : list A) :
  Forall P l → filter P l = l.
Proof.
  induction 1 as [|x l Hx _ IH]; [done|].
  by rewrite filter_cons_True, IH.
Qed.

(** X3. With [skip] 0 and a limit that the bytes of the documents do not
    exceed, the reader returns one Payload for every block of every
    document; per side, the contents returned are, in order, the decoded
    blocks, and the bytes of these blocks put end to end are the bytes of
    the side's documents. *)
Theorem GetConnectionPayload_whole_stream :
  wfStorage storage →
  Skip format = 0 →
  storedBytes storage <= effectiveLimit format →
  effectiveLimit format < 2 ^ 64 →
  ∃ out,
    read' = Returned out
    ∧ length out = (blockCount (clientDocuments storage)
                    + blockCount (serverDocuments storage))%nat
    ∧ ∀ fromClient : bool,
        ∃ blocks : list (list Byte.byte),
          concat blocks = sideBytes storage fromClient
          ∧ Payload.Content
              <$> filter (λ p, Payload.FromClient p = fromClient) out
            = (λ bytes, DecodeBytes bytes (Format format)) <$> blocks.
Proof.
  intros W Hskip Hfit Hlim.
  destruct (sideItems_documents true W) as (Hbc & Hfc & _ & Hlc & Hzc).
  destruct (sideItems_documents false W) as (Hbs & Hfs & _ & Hls & Hzs).
  set (merged := mergeByTimestamp (sideItems' true) (sideItems' false)).
  assert (Hpos : Forall (λ it : Item M, 0 < itemSize it) merged).
  { apply Forall_forall. intros it Hit.
    apply mergeByTimestamp_elem_of in Hit as [Hit|Hit].
    - rewrite Forall_forall in Hfc. by destruct (Hfc it Hit) as (_ & ? & _).
    - rewrite Forall_forall in Hfs. by destruct (Hfs it Hit) as (_ & ? & _). }
  assert (Hg : Forall (λ x : Item M * Z, 0 < x.2 <= effectiveLimit format)
                      (withGlobal 0 merged)).
  { apply withGlobal_bounds; [done|done| |done].
    unfold merged. rewrite sumSizes_merge. unfold storedBytes in Hfit.
    simpl in Hzc, Hzs. lia. }
  assert (HT : traversal' = withGlobal 0 merged).
  { unfold traversal. fold merged. rewrite Hskip.
    replace (wrap64 (0 + effectiveLimit format)) with (effectiveLimit format).
    2:{ unfold wrap64. rewrite Z.mod_small; [done|].
        rewrite Forall_forall in Hg.
        destruct merged as [|it rest] eqn:E.
        - unfold effectiveLimit, DefaultQueryFormatLimit in *.
          destruct (Limit format <=? 0) eqn:El; [lia|].
          apply Z.leb_gt in El. lia.
        - unfold effectiveLimit, DefaultQueryFormatLimit in *.
          destruct (Limit format <=? 0) eqn:El; [lia|].
          apply Z.leb_gt in El. lia. }
    apply stopAfter_all. eapply Forall_impl; [exact Hg|]. simpl. lia. }
  set (A := flat_map (annotateRun Parse) (runs traversal')).
  assert (Hout : emitted format A = fst <$> A).
  { unfold emitted. f_equal. apply filter_all.
    apply Forall_forall. intros x Hx. rewrite Hskip.
    assert (Hin : x.2 ∈ snd <$> A) by (by apply list_elem_of_fmap_2).
    unfold A in Hin. rewrite annotate_snd in Hin.
    destruct (runs_maximal traversal') as [Hcat _]. rewrite Hcat, HT in Hin.
    apply list_elem_of_fmap in Hin as (y & -> & Hy).
    rewrite Forall_forall in Hg. by destruct (Hg y Hy). }
  assert (Hproj : ∀ {B : Type} (g : Payload.t M → B),
    (∀ m c p, g (Payload.setMetadata m c p) = g p) →
    g <$> emitted format A = (λ it, g (itemPayload it)) <$> merged).
  { intros B g Hinv. rewrite Hout, <- list_fmap_compose.
    change (g ∘ fst) with (λ x : Payload.t M * Z, g x.1).
    unfold A. rewrite (annotate_projection Parse g _ Hinv).
    destruct (runs_maximal traversal') as [-> _]. rewrite HT.
    rewrite <- (withGlobal_fst 0 merged) at 2.
    by rewrite <- list_fmap_compose. }
  exists (emitted format A). split; [by apply GetConnectionPayload_wf|]. split.
  - rewrite <- (length_fmap Payload.FromClient), (Hproj _ Payload.FromClient)
      by done.
    rewrite length_fmap. unfold merged.
    rewrite mergeByTimestamp_length, Hlc, Hls. done.
  - intros fromClient. exists (itemBytes <$> sideItems' fromClient). split.
    { by destruct fromClient. }
    set (f := λ p : Payload.t M, (Payload.FromClient p, Payload.Content p)).
    set (k := λ x : bool * string,
                if decide (x.1 = fromClient) then [x.2] else []).
    rewrite fmap_filter_bind.
    change (λ x : Payload.t M,
              if decide (Payload.FromClient x = fromClient)
              then [Payload.Content x] else [])
      with (k ∘ f).
    rewrite <- list_fmap_bind, (Hproj _ f) by done.
    rewrite list_fmap_bind.
    change (k ∘ (λ it : Item M, f (itemPayload it)))
      with (λ it : Item M,
              if decide (itemFromClient it = fromClient)
              then [Payload.Content (itemPayload it)] else []).
    rewrite <- (fmap_filter_bind (λ it, itemFromClient it = fromClient)
                  (λ it, Payload.Content (itemPayload it))).
    destruct (mergeByTimestamp_filter_client (sideItems' true)
                (sideItems' false)
                (sideItems_side nilMetadata DecodeBytes rangeOrder storage
                   format true)
                (sideItems_side nilMetadata DecodeBytes rangeOrder storage
                   format false)) as [Ec Es].
    assert (Hside : filter (λ it, itemFromClient it = fromClient) merged
                    = sideItems' fromClient).
    { destruct fromClient; [exact Ec|exact Es]. }
    rewrite Hside, <- list_fmap_compose.
    apply list_fmap_ext. intros i it Hit.
    assert (Hall : Forall (λ it, Payload.Content (itemPayload it)
                                 = DecodeBytes (itemBytes it) (Format format))
                          (sideItems' fromClient)).
    { destruct fromClient.
      - eapply Forall_impl; [exact Hfc|]. by intros ? (_ & _ & ?).
      - eapply Forall_impl; [exact Hfs|]. by intros ? (_ & _ & ?). }
    rewrite Forall_forall in Hall. apply Hall.
    by eapply list_elem_of_lookup_2.
Qed.

(** *** Skipping everything *)

Lemma filter_none {A : Type} (P : A → Prop) `{!∀ x, Decision (P x)}
    (l : list A) :
  Forall (λ x, ¬ P x) l → filter P l = [].
Proof.
  induction 1 as [|x l Hx _ IH]; [done|].
  by rewrite filter_cons_False, IH.
Qed.

Lemma sumSizes_merged :
  wfStorage storage →
  Forall (λ it : Item M, 0 < itemSize it)
         (mergeByTimestamp (sideItems' true) (sideItems' false))
  ∧ sumSizes (mergeByTimestamp (sideItems' true) (sideItems' false))
    <= storedBytes storage.
Proof.
  intros W.
  destruct (sideItems_documents true W) as (_ & Hfc & _ & _ & Hzc).
  destruct (sideItems_documents false W) as (_ & Hfs & _ & _ & Hzs).
  split.
  - apply Forall_forall. intros it Hit.
    apply mergeByTimestamp_elem_of in Hit as [Hit|Hit].
    + rewrite Forall_forall in Hfc. by destruct (Hfc it Hit) as (_ & ? & _).
    + rewrite Forall_forall in Hfs. by destruct (Hfs it Hit) as (_ & ? & _).
  - rewrite sumSizes_merge. unfold storedBytes. simpl in Hzc, Hzs. lia.
Qed.

(** X4. A [skip] that is not below the number of bytes stored for the
    connection leaves nothing to return: the reader goes through the
    blocks and returns the empty list. *)
Theorem GetConnectionPayload_skip_past_end :
  wfStorage storage →
  storedBytes storage <= Skip format < 2 ^ 64 →
  read' = Returned [].
Proof.
  intros W [Hskip Hfit]. rewrite (GetConnectionPayload_wf _ _ _ _ _ _ W).
  f_equal. unfold emitted.
  destruct (sumSizes_merged W) as [Hpos Hsum].
  rewrite filter_none; [done|].
  apply Forall_forall. intros x Hx.
  assert (Hin : x.2 ∈ snd <$> flat_map (annotateRun Parse) (runs traversal'))
    by (by apply list_elem_of_fmap_2).
  rewrite annotate_snd in Hin.
  destruct (runs_maximal traversal') as [Hcat _]. rewrite Hcat in Hin.
  apply list_elem_of_fmap in Hin as (y & -> & Hy).
  unfold traversal in Hy.
  eapply elem_of_sublist in Hy; [|apply stopAfter_sublist].
  pose proof (withGlobal_bounds _ 0 (Skip format) ltac:(done) Hpos
                ltac:(lia) Hfit) as Hg.
  rewrite Forall_forall in Hg. destruct (Hg y Hy) as [_ ?]. lia.
Qed.

(** *** Documents without blocks *)

(** X5. When neither side's first document has a block and one of the two
    exists, the first iteration takes the server branch and indexes
    [serverStream.BlocksIndexes] out of range: the reader panics. *)
Theorem GetConnectionPayload_first_documents_without_blocks :
  ConnectionStream.BlocksIndexes (getConnectionStream storage true 0) = [] →
  ConnectionStream.BlocksIndexes (getConnectionStream storage false 0) = [] →
  IsZero (ConnectionStream.ID (getConnectionStream storage true 0))
  && IsZero (ConnectionStream.ID (getConnectionStream storage false 0)) = false →
  read' = Panicked.
Proof.
  intros Hc Hs Hz. unfold GetConnectionPayload, enoughFuel. cbn [loop].
  unfold bothZero, initialCursor. cbn [fst client server Side.Stream].
  rewrite Hz. cbn [negb].
  unfold body, selectBlock, nextIsClient, hasBlocks.
  cbn [fst client server Side.Stream Side.BlocksIndex].
  rewrite Hc. cbn [length]. rewrite bool_decide_eq_false_2 by lia.
  cbn [mbind option_bind]. unfold nextPayload.
  cbn [Side.Stream Side.BlocksIndex]. by rewrite Hs.
Qed.

(** *** Termination *)

(** X6. Whatever the documents hold, well-formed or not, the loop comes
    to an end within one iteration per stored block and one more: the
    reader returns a list or panics. *)
Theorem GetConnectionPayload_terminates :
  (∃ out,
     GetConnectionPayload nilMetadata Parse DecodeBytes rangeOrder storage
       format
     = Returned out)
  ∨ GetConnectionPayload nilMetadata Parse DecodeBytes rangeOrder storage format
    = Panicked.
Proof.
  pose proof (GetConnectionPayload_ends nilMetadata Parse DecodeBytes
                rangeOrder storage format) as H.
  destruct read' as [out| |]; [left; by exists out|by right|done].
Qed.

End ReaderMore.

(** ** Paging through a stream *)

Section ReaderPaging.
Context {M : Type}.
Variable nilMetadata : M.
Variable Parse : list Byte.byte → M.
Variable DecodeBytes : list Byte.byte → string → string.
Variable rangeOrder :
  bool → nat → nat → PatternMatchesMap → list (N * list PatternSlice).
Variable storage : Storage.

Local Abbreviation sideItemsOf format :=
  (sideItems nilMetadata DecodeBytes rangeOrder storage format).
Local Abbreviation readWith format :=
  (GetConnectionPayload nilMetadata Parse DecodeBytes rangeOrder storage format).

(** The blocks of a side depend on [format.Format] only. *)
Lemma sideItems_format (f1 f2 : QueryFormat) (fromClient : bool) :
  Format f1 = Format f2 →
  sideItemsOf f1 fromClient = sideItemsOf f2 fromClient.
Proof.
  intros Hf. unfold sideItems.
  assert (Hn : ∀ sd,
    nextPayload nilMetadata DecodeBytes rangeOrder f1 fromClient sd
    = nextPayload nilMetadata DecodeBytes rangeOrder f2 fromClient sd).
  { intros sd. unfold nextPayload. by rewrite Hf. }
  assert (Hb : ∀ n sd,
    blockItems nilMetadata DecodeBytes rangeOrder f1 fromClient n sd
    = blockItems nilMetadata DecodeBytes rangeOrder f2 fromClient n sd).
  { induction n as [|n IH]; intros sd; [done|].
    cbn [blockItems]. rewrite Hn.
    destruct (nextPayload _ _ _ f2 _ _) as [[it sd']|]; [|done].
    by rewrite IH. }
  generalize 0%nat 0.
  induction (sideDocuments storage fromClient) as [|d docs IH];
    intros di off; [done|].
  cbn [streamItems]. by rewrite Hb, IH.
Qed.

Lemma withGlobal_increasing (its : list (Item M)) (g bound : Z) :
  0 <= g → Forall (λ it, 0 < itemSize it) its →
  g + sumSizes its <= bound → bound < 2 ^ 64 →
  StronglySorted (λ x y : Item M * Z, x.2 < y.2) (withGlobal g its)
  ∧ Forall (λ x, g < x.2) (withGlobal g its).
Proof.
  revert g. induction its as [|it its IH]; intros g Hg Hpos Hsum Hb.
  { split; constructor. }
  apply Forall_cons in Hpos as [Hit Hpos].
  change (sumSizes (it :: its)) with (itemSize it + sumSizes its) in Hsum.
  assert (Hits : 0 <= sumSizes its).
  { clear -Hpos. induction Hpos as [|x l Hx _ IHl]; [done|].
    change (sumSizes (x :: l)) with (itemSize x + sumSizes l). lia. }
  assert (Hw : wrap64 (g + itemSize it) = g + itemSize it).
  { unfold wrap64. apply Z.mod_small. lia. }
  cbn [withGlobal]. rewrite Hw.
  destruct (IH (g + itemSize it)) as [IHs IHg]; [lia|done|lia|done|].
  split.
  - constructor; [done|]. exact IHg.
  - constructor; [simpl; lia|].
    eapply Forall_impl; [exact IHg|]. simpl. lia.
Qed.

Lemma filter_above_suffix {A : Type} (key : A → Z) (s : Z) (l : list A) :
  StronglySorted (λ x y, key x < key y) l →
  filter (λ x, s < key x) l `suffix_of` l.
Proof.
  induction 1 as [|x l Hs IH Hall]; [done|].
  rewrite filter_cons. destruct (decide (s < key x)) as [Hx|Hx].
  - rewrite filter_all; [done|].
    eapply Forall_impl; [exact Hall|]. simpl. lia.
  - by apply suffix_cons_r.
Qed.

(** With one order of iteration for both reads, the page is a suffix of
    the read from the start. *)
Lemma page_suffix_same_order (format : QueryFormat) :
  wfStorage storage →
  storedBytes storage < 2 ^ 64 →
  0 <= Skip format → 0 < Limit format →
  Skip format + Limit format < 2 ^ 64 →
  ∃ page whole,
    readWith format = Returned page
    ∧ readWith (mkQueryFormat (Format format) 0 (Skip format + Limit format))
      = Returned whole
    ∧ page `suffix_of` whole.
Proof.
  intros W Hstored Hskip Hlimit Hfit.
  set (format0 := mkQueryFormat (Format format) 0 (Skip format + Limit format)).
  eexists _, _. split; [by apply GetConnectionPayload_wf|].
  split; [by apply GetConnectionPayload_wf|].
  assert (HT : traversal nilMetadata DecodeBytes rangeOrder storage format0
               = traversal nilMetadata DecodeBytes rangeOrder storage format).
  { unfold traversal.
    rewrite !(sideItems_format format0 format) by done.
    f_equal. unfold effectiveLimit, format0. cbn [Skip Limit].
    destruct (Z.leb_spec (Skip format + Limit format) 0); [lia|].
    destruct (Z.leb_spec (Limit format) 0); [lia|]. done. }
  rewrite HT. unfold emitted. cbn [Skip format0].
  set (A := flat_map (annotateRun Parse)
              (runs (traversal nilMetadata DecodeBytes rangeOrder storage
                       format))).
  destruct (sumSizes_merged nilMetadata DecodeBytes rangeOrder storage format W)
    as [Hpos Hsum].
  destruct (withGlobal_increasing _ 0 (storedBytes storage) ltac:(done) Hpos
              ltac:(lia) Hstored) as [Hsorted Hall].
  assert (HA : StronglySorted (λ x y : Payload.t M * Z, x.2 < y.2) A
               ∧ Forall (λ x, 0 < x.2) A).
  { assert (Hsnd : snd <$> A
                   `sublist_of`
                   snd <$> withGlobal 0
                             (mergeByTimestamp (sideItemsOf format true)
                                               (sideItemsOf format false))).
    { unfold A. rewrite annotate_snd.
      destruct (runs_maximal
                  (traversal nilMetadata DecodeBytes rangeOrder storage format))
        as [-> _].
      apply fmap_sublist, stopAfter_sublist. }
    split.
    - apply (StronglySorted_fmap_inv snd Z.lt).
      eapply StronglySorted_sublist; [exact Hsnd|].
      by apply (StronglySorted_fmap _ (λ x y : Item M * Z, x.2 < y.2) Z.lt).
    - apply Forall_forall. intros x Hx.
      assert (Hg : x.2 ∈ snd <$> A) by (by apply list_elem_of_fmap_2).
      eapply elem_of_sublist in Hg; [|exact Hsnd].
      apply list_elem_of_fmap in Hg as (y & -> & Hy).
      rewrite Forall_forall in Hall. by apply Hall. }
  destruct HA as [HAs HAp].
  rewrite (filter_all (λ x : Payload.t M * Z, 0 < x.2)) by done.
  destruct (filter_above_suffix snd (Skip format) A HAs) as [k Hk].
  exists (fst <$> k). rewrite <- fmap_app. by f_equal.
Qed.
End ReaderPaging.

(** X7. A page is the tail of the read from the start, up to the order
    of [regex_matches]. With a positive [limit], and whatever the order
    in which each of the two reads iterates over the [pattern_matches]
    maps, the Payloads returned for ([skip], [limit]) are, one by one,
    the last Payloads returned for skip 0 and limit [skip + limit]: the
    same in every field, metadata and continuation flag included, except
    that the [regex_matches] of the one are a permutation of those of
    the other. *)
Theorem GetConnectionPayload_page_suffix {M : Type} (nilMetadata : M)
    (Parse : list Byte.byte → M)
    (DecodeBytes : list Byte.byte → string → string)
    (storage : Storage) (format : QueryFormat)
    (rangePage rangeWhole :
       bool → nat → nat → PatternMatchesMap → list (N * list PatternSlice)) :
  (∀ b d k, validRange (rangePage b d k)) →
  (∀ b d k, validRange (rangeWhole b d k)) →
  wfStorage storage →
  storedBytes storage < 2 ^ 64 →
  0 <= Skip format → 0 < Limit format →
  Skip format + Limit format < 2 ^ 64 →
  ∃ page whole tail,
    GetConnectionPayload nilMetadata Parse DecodeBytes rangePage storage format
    = Returned page
    ∧ GetConnectionPayload nilMetadata Parse DecodeBytes rangeWhole storage
        (mkQueryFormat (Format format) 0 (Skip format + Limit format))
      = Returned whole
    ∧ tail `suffix_of` whole
    ∧ Forall2 payloadSim page tail.
Proof.
  intros H1 H2 W Hstored Hskip Hlimit Hfit.
  destruct (page_suffix_same_order nilMetadata Parse DecodeBytes rangePage
              storage format W Hstored Hskip Hlimit Hfit)
    as (page & whole1 & Hpage & Hwhole1 & [k Hk]).
  assert (Hperm : ∀ b d k m, rangePage b d k m ≡ₚ rangeWhole b d k m).
  { intros b d k' m. by rewrite (H1 b d k' m), (H2 b d k' m). }
  pose proof (GetConnectionPayload_sim nilMetadata Parse DecodeBytes storage
                (mkQueryFormat (Format format) 0 (Skip format + Limit format))
                rangePage rangeWhole Hperm) as Hsim.
  rewrite Hwhole1 in Hsim.
  destruct (GetConnectionPayload nilMetadata Parse DecodeBytes rangeWhole
              storage _) as [whole| |]; [|done|done].
  simpl in Hsim. subst whole1.
  apply Forall2_app_inv_l in Hsim as (k' & tail & _ & Htail & ->).
  exists page, (k' ++ tail), tail.
  split; [done|]. split; [done|]. split; [by exists k'|done].
Qed.

(** ** More on [findMatchesBetween] *)

Lemma matchSlice_bounds (from to : Z) (slice : PatternSlice) (r : RegexSlice) :
  0 <= from <= to → to < 2 ^ 64 → 0 <= slice.1 <= slice.2 → slice.2 < 2 ^ 64 →
  r ∈ matchSlice from to slice →
  0 <= From r <= To r ∧ To r <= to - from.
Proof.
  intros Hft Hto Hs He. unfold matchSlice, wrap64.
  destruct (Z.ltb_spec slice.2 from); simpl; [by intros ?%elem_of_nil|].
  destruct (Z.leb_spec to slice.1); simpl; [by intros ?%elem_of_nil|].
  intros ->%list_elem_of_singleton. simpl.
  destruct (Z.ltb_spec slice.1 from), (Z.leb_spec to slice.2);
    rewrite ?Z.mod_small by lia; lia.
Qed.

(** X8. The ranges reported for a block lie within the block. When every
    recorded match [[a, b]] has [a <= b], each range returned for the
    block [[from, to)] has [0 <= From <= To <= to - from], whatever the
    order of the map iteration. *)
Theorem findMatchesBetween_within_block
    (range : PatternMatchesMap → list (N * list PatternSlice))
    (patternMatches : PatternMatchesMap) (from to : Z) :
  validRange range →
  0 <= from <= to → to < 2 ^ 64 →
  (∀ k slices slice,
     patternMatches !! k = Some slices → slice ∈ slices →
     0 <= slice.1 <= slice.2 ∧ slice.2 < 2 ^ 64) →
  Forall (λ r, 0 <= From r <= To r ∧ To r <= to - from)
         (findMatchesBetween range patternMatches from to).
Proof.
  intros Hvalid Hft Hto Hm. apply Forall_forall. intros r Hr.
  apply (findMatchesBetween_elem_of range _ _ _ _ Hvalid) in Hr
    as (k & slices & slice & Hk & Hs & Hr).
  destruct (Hm k slices slice Hk Hs) as [H1 H2].
  apply (matchSlice_bounds from to slice r Hft Hto H1 H2).
  rewrite Hr. by apply list_elem_of_singleton.
Qed.

(** X9. A match is reported for a block exactly when the two overlap or
    touch as the code tests it: the block [[from, to)] gets no range at
    all if and only if every recorded match ends before [from] or starts
    at or after [to]. *)
Theorem findMatchesBetween_nil_iff
    (range : PatternMatchesMap → list (N * list PatternSlice))
    (patternMatches : PatternMatchesMap) (from to : Z) :
  validRange range →
  findMatchesBetween range patternMatches from to = []
  ↔ ∀ k slices slice,
      patternMatches !! k = Some slices → slice ∈ slices →
      slice.2 < from ∨ to <= slice.1.
Proof.
  intros Hvalid. split.
  - intros Hnil k slices slice Hk Hs.
    destruct (Z.ltb_spec slice.2 from) as [|H1]; [by left|].
    destruct (Z.leb_spec to slice.1) as [|H2]; [by right|]. exfalso.
    set (r := mkRegexSlice
                (if slice.1 <? from then 0 else wrap64 (slice.1 - from))
                (if to <=? slice.2 then wrap64 (to - from)
                 else wrap64 (slice.2 - from))).
    assert (Hr : r ∈ findMatchesBetween range patternMatches from to).
    { apply (findMatchesBetween_elem_of range _ _ _ _ Hvalid).
      exists k, slices, slice. split_and!; [done|done|].
      unfold matchSlice.
      destruct (Z.ltb_spec slice.2 from); [lia|].
      destruct (Z.leb_spec to slice.1); [lia|]. done. }
    rewrite Hnil in Hr. by apply elem_of_nil in Hr.
  - intros Hall.
    destruct (findMatchesBetween range patternMatches from to) as [|r rs] eqn:E;
      [done|exfalso].
    assert (Hr : r ∈ findMatchesBetween range patternMatches from to)
      by (rewrite E; left).
    apply (findMatchesBetween_elem_of range _ _ _ _ Hvalid) in Hr
      as (k & slices & slice & Hk & Hs & Hr).
    unfold matchSlice in Hr.
    destruct (Hall k slices slice Hk Hs) as [H|H].
    + destruct (Z.ltb_spec slice.2 from); [done|lia].
    + destruct (Z.leb_spec to slice.1); [|lia].
      by rewrite orb_true_r in Hr.
Qed.

(** X10. A match that runs over the boundary between two consecutive
    blocks [[from, mid)] and [[mid, to)] is reported once for each, up
    to the end of the first and from the start of the second, and the
    two parts add up to the bytes of the match that lie in [[from, to)]. *)
Theorem matchSlice_across_blocks (from mid to : Z) (slice : PatternSlice) :
  0 <= from < mid → mid < to → to < 2 ^ 64 →
  0 <= slice.1 < mid → mid <= slice.2 → slice.2 < 2 ^ 64 →
  let first := mkRegexSlice (Z.max slice.1 from - from) (mid - from) in
  let second := mkRegexSlice 0 (Z.min slice.2 to - mid) in
  matchSlice from mid slice = [first]
  ∧ matchSlice mid to slice = [second]
  ∧ (To first - From first) + (To second - From second)
    = Z.min slice.2 to - Z.max slice.1 from.
Proof.
  intros Hfm Hmt Hto Hs1 Hs2 He. cbn zeta.
  rewrite (matchSlice_clamped from mid slice) by lia.
  rewrite (matchSlice_clamped mid to slice) by lia.
  split.
  { f_equal. f_equal. lia. }
  split.
  { f_equal. f_equal. lia. }
  simpl. lia.
Qed.

(** ** More on the connections view *)

Lemma slice_trim {Conn : Type} (cs : list Conn) :
  Connections.maxConnections < Connections.len cs →
  Connections.slice cs (Connections.len cs - Connections.maxConnections)
                    (Connections.len cs - 1)
  = take 499 (drop (length cs - 500) cs).
Proof.
  unfold Connections.slice, Connections.maxConnections, Connections.len.
  intros Hbig.
  destruct (Z.ltb_spec (Z.of_nat (length cs) - 500) 0); [lia|].
  destruct (Z.ltb_spec (Z.of_nat (length cs) - 1) 0); [lia|].
  rewrite !Z.min_l by lia. f_equal; [lia|f_equal; lia].
Qed.

(** X11. A page load never leaves more than [maxConnections] rows in the
    view: when the view holds at most 500 rows, it holds at most 500
    after a load with [from] or [to], however many rows came back. *)
Theorem loadConnections_at_most_maxConnections {Conn : Type}
    (st : Connections.ViewState Conn) (params : option Connections.Params)
    (res : list Conn) :
  Connections.len (Connections.connections st) <= Connections.maxConnections →
  is_Some (params ≫= Connections.from) ∨ is_Some (params ≫= Connections.to) →
  Connections.len
    (Connections.connections (Connections.loadConnections st params res))
  <= Connections.maxConnections.
Proof.
  intros Hlen Hp. unfold Connections.loadConnections.
  case_bool_decide as Hfrom.
  - destruct (Z.ltb_spec 0 (Connections.len res)); [|done].
    destruct (Z.ltb_spec Connections.maxConnections
                (Connections.len (Connections.connections st ++ res)))
      as [Hbig|Hsmall]; simpl; [|done].
    rewrite (slice_trim _ Hbig).
    unfold Connections.len, Connections.maxConnections in *.
    rewrite length_take. lia.
  - destruct Hp as [Hp|Hp]; [done|].
    rewrite bool_decide_eq_true_2 by done.
    destruct (Z.ltb_spec 0 (Connections.len res)); [|done].
    destruct (Z.ltb_spec Connections.maxConnections
                (Connections.len (res ++ Connections.connections st)))
      as [Hbig|Hsmall]; simpl; [|done].
    unfold Connections.slice, Connections.len, Connections.maxConnections in *.
    change (0 <? 0) with false. change (500 <? 0) with false. cbv iota.
    rewrite length_take. lia.
Qed.

(** X12. What the [from] branch does when it trims. If the rows held and
    the rows loaded exceed [maxConnections], [slice(length - 500,
    length - 1)] keeps 499 rows, the last 500 but the very last one:
    that row, the last one loaded, becomes [lastConnection] and is not
    in the view; [firstConnection] is the first row kept. *)
Theorem loadConnections_from_trim {Conn : Type}
    (st : Connections.ViewState Conn) (params : option Connections.Params)
    (res : list Conn) :
  is_Some (params ≫= Connections.from) →
  res ≠ [] →
  Connections.maxConnections
  < Connections.len (Connections.connections st ++ res) →
  let all := Connections.connections st ++ res in
  let st' := Connections.loadConnections st params res in
  ∃ x,
    last res = Some x
    ∧ Connections.lastConnection st' = Some x
    ∧ Connections.connections st' ++ [x] = drop (length all - 500) all
    ∧ length (Connections.connections st') = 499%nat
    ∧ Connections.firstConnection st' = head (Connections.connections st').
Proof.
  intros Hfrom Hres Hbig. cbn zeta. unfold Connections.loadConnections.
  rewrite bool_decide_eq_true_2 by done.
  destruct (Z.ltb_spec 0 (Connections.len res)) as [_|Hz].
  2:{ destruct res; [done|]. unfold Connections.len in Hz. simpl in Hz. lia. }
  destruct (Z.ltb_spec Connections.maxConnections
              (Connections.len (Connections.connections st ++ res)));
    [|lia].
  simpl. rewrite (slice_trim _ Hbig), index_last, index_head.
  set (all := Connections.connections st ++ res) in *.
  unfold Connections.len, Connections.maxConnections in Hbig.
  destruct (last res) as [x|] eqn:Hx; [|by apply last_None in Hx].
  exists x. split; [done|]. split.
  { unfold all. rewrite last_app, Hx. done. }
  assert (Hall : last all = Some x).
  { unfold all. by rewrite last_app, Hx. }
  assert (Hd : length (drop (length all - 500) all) = 500%nat).
  { rewrite length_drop. lia. }
  split; [|split; [rewrite length_take; lia|done]].
  assert (Hl : last (drop (length all - 500) all) = Some x).
  { rewrite !last_lookup in *. rewrite lookup_drop, Hd. rewrite <- Hall.
    f_equal. lia. }
  apply last_Some in Hl as [l' Hl]. rewrite Hl in Hd |- *.
  rewrite length_app in Hd. simpl in Hd.
  rewrite take_app_length' by lia. done.
Qed.

(** X13. The loads that keep the view consistent. On a view that is
    consistent and not empty, a load with [to], and a load with [from]
    that does not exceed [maxConnections], leave [firstConnection] and
    [lastConnection] the first and last rows held. *)
Theorem loadConnections_page_keeps_view {Conn : Type}
    (st : Connections.ViewState Conn) (p : Connections.Params)
    (res : list Conn) :
  Connections.view_ok st → Connections.connections st ≠ [] →
  is_Some (Connections.from p) ∨ is_Some (Connections.to p) →
  (is_Some (Connections.from p) →
   Connections.len (Connections.connections st ++ res)
   <= Connections.maxConnections) →
  Connections.view_ok (Connections.loadConnections st (Some p) res).
Proof.
  intros Hok Hne Hp Hsmall.
  destruct (Connections.from p) as [f|] eqn:Hfrom.
  2:{ destruct Hp as [[? [=]]|Hto].
      by apply loadConnections_to_keeps_view. }
  destruct Hok as (Hf & Hl & Hn).
  unfold Connections.loadConnections, Connections.view_ok. simpl.
  rewrite Hfrom. rewrite bool_decide_eq_true_2 by done.
  destruct (Z.ltb_spec 0 (Connections.len res)) as [Hres|Hres]; [|done].
  destruct (Z.ltb_spec Connections.maxConnections
              (Connections.len (Connections.connections st ++ res)));
    [specialize (Hsmall ltac:(done)); lia|].
  simpl. split_and!.
  - rewrite Hf. by destruct (Connections.connections st).
  - apply index_last.
  - by apply Hsmall.
Qed.

(** ** The configuration form *)

Lemma validateSettings_spec (st : ConfigurationPane.PaneState)
    (s : ConfigurationPane.Settings) :
  ConfigurationPane.validateSettings st s
  = if Z.of_nat (String.length
                   (ConfigurationPane.flag_regex (ConfigurationPane.config s)))
       <? 8
    then (false,
          ConfigurationPane.mkPaneState
            (ConfigurationPane.settings st)
            (ConfigurationPane.serverAddressError st)
            (Some "flag_regex.length < 8"%string))
    else (true, st).
Proof.
  unfold ConfigurationPane.validateSettings, Validation.isValidAddress.
  cbn [negb]. by destruct (_ <? 8).
Qed.

(** X14. Only the length of [flag_regex] decides whether [saveSettings]
    posts. Whatever the server address and the accounts, the settings
    are posted, as they stand, exactly when [flag_regex] has 8
    characters or more; [serverAddressError] is never written, and
    [flagRegexError] is written when nothing is posted and left as it
    was otherwise. *)
Theorem saveSettings_posts_iff (st : ConfigurationPane.PaneState) :
  let long :=
    8 <=? Z.of_nat (String.length
                      (ConfigurationPane.flag_regex
                         (ConfigurationPane.config
                            (ConfigurationPane.settings st)))) in
  (ConfigurationPane.saveSettings st).1
  = (if long then Some (ConfigurationPane.settings st) else None)
  ∧ ConfigurationPane.settings (ConfigurationPane.saveSettings st).2
    = ConfigurationPane.settings st
  ∧ ConfigurationPane.serverAddressError (ConfigurationPane.saveSettings st).2
    = ConfigurationPane.serverAddressError st
  ∧ ConfigurationPane.flagRegexError (ConfigurationPane.saveSettings st).2
    = (if long then ConfigurationPane.flagRegexError st
       else Some "flag_regex.length < 8"%string).
Proof.
  cbn zeta. unfold ConfigurationPane.saveSettings.
  rewrite validateSettings_spec.
  destruct (Z.ltb_spec
              (Z.of_nat (String.length
                           (ConfigurationPane.flag_regex
                              (ConfigurationPane.config
                                 (ConfigurationPane.settings st))))) 8),
           (Z.leb_spec 8
              (Z.of_nat (String.length
                           (ConfigurationPane.flag_regex
                              (ConfigurationPane.config
                                 (ConfigurationPane.settings st))))));
    try lia; done.
Qed.

Lemma handle_errors (st : Pane.State) (a : Pane.action) :
  ConfigurationPane.serverAddressError (Pane.pane (Pane.handle st a))
  = ConfigurationPane.serverAddressError (Pane.pane st)
  ∧ (ConfigurationPane.flagRegexError (Pane.pane (Pane.handle st a))
     = ConfigurationPane.flagRegexError (Pane.pane st)
     ∨ ConfigurationPane.flagRegexError (Pane.pane (Pane.handle st a))
       = Some "flag_regex.length < 8"%string).
Proof.
  destruct a; simpl; try (split; [done|by left]).
  - unfold Pane.addAccount. destruct (_ && _); simpl; (split; [done|by left]).
  - unfold ConfigurationPane.saveSettings. rewrite validateSettings_spec.
    destruct (_ <? 8); simpl; (split; [done|]); [by right|by left].
Qed.

(** X15. The form never clears an error and never reports the server
    address. Whatever the user does (edit a field, add or delete an
    account, save, with a regex that is long enough or not),
    [serverAddressError] is as it was before, and [flagRegexError] is
    as it was before or is the message of [validateSettings]: an error
    shown for [flag_regex] stays shown. *)
Theorem handleAll_errors_stay (st : Pane.State) (actions : list Pane.action) :
  ConfigurationPane.serverAddressError (Pane.pane (Pane.handleAll st actions))
  = ConfigurationPane.serverAddressError (Pane.pane st)
  ∧ (ConfigurationPane.flagRegexError (Pane.pane (Pane.handleAll st actions))
     = ConfigurationPane.flagRegexError (Pane.pane st)
     ∨ ConfigurationPane.flagRegexError
         (Pane.pane (Pane.handleAll st actions))
       = Some "flag_regex.length < 8"%string).
Proof.
  unfold Pane.handleAll. revert st.
  induction actions as [|a actions IH]; intros st; [by split; [|left]|].
  cbn [foldl]. destruct (IH (Pane.handle st a)) as [IH1 IH2].
  destruct (handle_errors st a) as [H1 H2].
  split; [by rewrite IH1|].
  destruct IH2 as [IH2|IH2]; [|by right].
  rewrite IH2. exact H2.
Qed.

(** *** The accounts *)

Lemma arrayIndex_nonempty (key : string) (i : Z) :
  Accounts.arrayIndex key = Some i → key ≠ ""%string.
Proof. by destruct key. Qed.

Lemma insertIndex_elem_of (i : Z) (key value : string)
    (o : list (string * string)) (x : string * string) :
  x ∈ Accounts.insertIndex i key value o ↔ x = (key, value) ∨ x ∈ o.
Proof.
  induction o as [|y o IH]; simpl.
  - rewrite list_elem_of_singleton, elem_of_nil. tauto.
  - destruct (Accounts.arrayIndex y.1) as [j|].
    + destruct (j <? i).
      * rewrite !elem_of_cons, IH. tauto.
      * rewrite !elem_of_cons. tauto.
    + rewrite !elem_of_cons. tauto.
Qed.

Lemma hasOwn_false (key : string) (o : list (string * string)) :
  Accounts.hasOwn key o = false ↔ key ∉ o.*1.
Proof.
  unfold Accounts.hasOwn. induction o as [|x o IH]; simpl.
  - split; [intros _; apply not_elem_of_nil|done].
  - rewrite orb_false_iff, IH, not_elem_of_cons.
    destruct (String.eqb_spec x.1 key) as [E|E]; split; intros [? ?];
      try done; try (split; [done|congruence]); try congruence.
Qed.

Lemma insertIndex_keys (i : Z) (key value : string)
    (o : list (string * string)) :
  key ∉ o.*1 → NoDup o.*1 →
  NoDup (Accounts.insertIndex i key value o).*1.
Proof.
  induction o as [|y o IH]; simpl; intros Hk Hn.
  - apply NoDup_singleton.
  - apply not_elem_of_cons in Hk as [Hy Hk].
    apply NoDup_cons in Hn as [Hyo Hn].
    assert (Hfresh : NoDup (key :: y.1 :: o.*1)).
    { apply NoDup_cons. split; [|by apply NoDup_cons].
      apply not_elem_of_cons. done. }
    destruct (Accounts.arrayIndex y.1) as [j|]; [|done].
    destruct (j <? i); [|done].
    rewrite fmap_cons. apply NoDup_cons. split; [|by apply IH].
    intros Hin. apply list_elem_of_fmap in Hin as ([k v] & Hkv & Hin).
    apply insertIndex_elem_of in Hin as [[= -> ->]|Hin].
    + simpl in Hkv. congruence.
    + apply Hyo. rewrite Hkv. by apply (list_elem_of_fmap_2 fst) in Hin.
Qed.

Lemma set_keys (key value : string) (o : list (string * string)) :
  NoDup o.*1 → NoDup (Accounts.set key value o).*1.
Proof.
  intros Hn. unfold Accounts.set.
  destruct (String.eqb key "__proto__"); [done|].
  destruct (Accounts.hasOwn key o) eqn:Ho.
  - replace (((λ x : string * string,
                 if String.eqb x.1 key then (x.1, value) else x) <$> o).*1)
      with (o.*1); [done|].
    rewrite <- list_fmap_compose. apply list_fmap_ext. intros _ x _. simpl.
    by destruct (String.eqb x.1 key).
  - apply hasOwn_false in Ho.
    destruct (Accounts.arrayIndex key) as [i|].
    + by apply insertIndex_keys.
    + rewrite fmap_app. simpl. apply NoDup_app. split; [done|].
      split; [|apply NoDup_singleton].
      intros x Hx ->%list_elem_of_singleton. done.
Qed.

Lemma set_Forall (P : string * string → Prop) (key value : string)
    (o : list (string * string)) :
  (∀ k, P (k, value)) ∨ P (key, value) ∧ (∀ k v, P (k, v) → P (k, value)) →
  Forall P o → Forall P (Accounts.set key value o).
Proof.
  intros HP Ho. unfold Accounts.set.
  destruct (String.eqb key "__proto__"); [done|].
  assert (Hkv : P (key, value)) by (destruct HP as [H|[H _]]; [apply H|done]).
  destruct (Accounts.hasOwn key o).
  - apply Forall_fmap. eapply Forall_impl; [exact Ho|].
    intros [k v] Hx. simpl. destruct (String.eqb_spec k key); [|done].
    subst k. done.
  - destruct (Accounts.arrayIndex key) as [i|].
    + apply Forall_forall. intros x [->|Hx]%insertIndex_elem_of; [done|].
      rewrite Forall_forall in Ho. by apply Ho.
    + apply Forall_app. split; [done|]. by apply Forall_singleton.
Qed.

Lemma delete_keys (key : string) (o : list (string * string)) :
  NoDup o.*1 → NoDup (Accounts.delete key o).*1.
Proof.
  intros Hn. eapply sublist_NoDup; [exact Hn|].
  apply fmap_sublist. unfold Accounts.delete. apply sublist_filter.
Qed.

Lemma Forall_sublist_of {A : Type} (P : A → Prop) (l k : list A) :
  Forall P l → k `sublist_of` l → Forall P k.
Proof.
  rewrite !Forall_forall. intros H Hs x Hx. apply H.
  by eapply elem_of_sublist.
Qed.

Lemma handle_accounts (st : Pane.State) (a : Pane.action) :
  Forall (λ x, x.1 ≠ ""%string ∧ x.2 ≠ ""%string) (paneAccounts st) →
  NoDup (paneAccounts st).*1 →
  Forall (λ x, x.1 ≠ ""%string ∧ x.2 ≠ ""%string)
         (paneAccounts (Pane.handle st a))
  ∧ NoDup (paneAccounts (Pane.handle st a)).*1.
Proof.
  intros Hf Hn. unfold paneAccounts in *.
  destruct a; simpl; try done.
  - split; [|by apply delete_keys].
    eapply Forall_sublist_of; [exact Hf|]. apply sublist_filter.
  - unfold Pane.addAccount.
    destruct (Nat.eqb_spec (String.length (Pane.newUsername st)) 0) as [|Hu];
      [done|].
    destruct (Nat.eqb_spec (String.length (Pane.newPassword st)) 0) as [|Hp];
      [done|].
    simpl. split; [|by apply set_keys].
    apply set_Forall; [|done]. right. simpl. split.
    + split; intros E; rewrite E in *; done.
    + intros k v [? _]. split; [done|]. intros E. rewrite E in Hp. done.
  - unfold ConfigurationPane.saveSettings. rewrite validateSettings_spec.
    by destruct (_ <? 8).
Qed.

(** X16. The form never stores an account without a name or without a
    password, and never two accounts of one name: this holds of the
    accounts after any sequence of actions on the form as the
    constructor leaves it. *)
Theorem handleAll_accounts_named (actions : list Pane.action) :
  Forall (λ x, x.1 ≠ ""%string ∧ x.2 ≠ ""%string)
         (paneAccounts (Pane.handleAll Pane.initial actions))
  ∧ NoDup (paneAccounts (Pane.handleAll Pane.initial actions)).*1.
Proof.
  assert (H : ∀ st,
    Forall (λ x, x.1 ≠ ""%string ∧ x.2 ≠ ""%string) (paneAccounts st) →
    NoDup (paneAccounts st).*1 →
    Forall (λ x, x.1 ≠ ""%string ∧ x.2 ≠ ""%string)
           (paneAccounts (Pane.handleAll st actions))
    ∧ NoDup (paneAccounts (Pane.handleAll st actions)).*1).
  { unfold Pane.handleAll.
    induction actions as [|a actions IH]; intros st Hf Hn; [done|].
    cbn [foldl]. destruct (handle_accounts st a Hf Hn) as [Hf' Hn'].
    by apply IH. }
  apply H; [constructor|constructor].
Qed.

Lemma get_insertIndex (i : Z) (key value k : string)
    (o : list (string * string)) :
  key ∉ o.*1 →
  Accounts.get k (Accounts.insertIndex i key value o)
  = if String.eqb key k then Some value else Accounts.get k o.
Proof.
  unfold Accounts.get. induction o as [|y o IH]; intros Hk; simpl.
  - by destruct (String.eqb key k).
  - apply not_elem_of_cons in Hk as [Hy Hk].
    assert (Hhead : snd <$> find (λ x : string * string, String.eqb x.1 k)
                              ((key, value) :: y :: o)
                    = if String.eqb key k then Some value
                      else snd <$> (if String.eqb y.1 k then Some y
                                    else find (λ x : string * string,
                                                 String.eqb x.1 k) o)).
    { simpl. by destruct (String.eqb key k). }
    destruct (Accounts.arrayIndex y.1) as [j|]; [|exact Hhead].
    destruct (j <? i); [|exact Hhead].
    simpl. destruct (String.eqb_spec y.1 k) as [E|E].
    + destruct (String.eqb_spec key k); [congruence|done].
    + by apply IH.
Qed.

Lemma get_overwrite (key value k : string) (o : list (string * string)) :
  Accounts.get k ((λ x : string * string,
                     if String.eqb x.1 key then (x.1, value) else x) <$> o)
  = if String.eqb key k
    then (if Accounts.hasOwn key o then Some value else None)
    else Accounts.get k o.
Proof.
  unfold Accounts.get, Accounts.hasOwn.
  destruct (String.eqb_spec key k) as [Ek|Ek].
  - subst k. induction o as [|x o IH]; [done|]. cbn [fmap list_fmap find existsb].
    destruct (String.eqb_spec x.1 key) as [E|E]; cbn [fst orb].
    + by rewrite (proj2 (String.eqb_eq _ _) E).
    + rewrite (proj2 (String.eqb_neq _ _) E). exact IH.
  - induction o as [|x o IH]; [done|]. cbn [fmap list_fmap find].
    destruct (String.eqb_spec x.1 key) as [E|E]; cbn [fst].
    + assert (E' : x.1 ≠ k) by congruence.
      rewrite (proj2 (String.eqb_neq _ _) E'). exact IH.
    + destruct (String.eqb x.1 k); [done|exact IH].
Qed.

Lemma get_append (key value k : string) (o : list (string * string)) :
  key ∉ o.*1 →
  Accounts.get k (o ++ [(key, value)])
  = if String.eqb key k then Some value else Accounts.get k o.
Proof.
  unfold Accounts.get. induction o as [|x o IH]; intros Hk; simpl.
  - by destruct (String.eqb key k).
  - apply not_elem_of_cons in Hk as [Hx Hk].
    destruct (String.eqb_spec x.1 k) as [E|E]; simpl.
    + destruct (String.eqb_spec key k); [congruence|done].
    + by apply IH.
Qed.

Lemma get_set (key value k : string) (o : list (string * string)) :
  Accounts.get k (Accounts.set key value o)
  = if negb (String.eqb key "__proto__") && String.eqb key k then Some value
    else Accounts.get k o.
Proof.
  unfold Accounts.set.
  destruct (String.eqb key "__proto__"); [done|]. cbn [negb andb].
  destruct (Accounts.hasOwn key o) eqn:Ho.
  - by rewrite get_overwrite, Ho.
  - apply hasOwn_false in Ho.
    destruct (Accounts.arrayIndex key) as [i|].
    + by apply get_insertIndex.
    + by apply get_append.
Qed.

(** X17. [addAccount] with a name and a password filled in stores the
    password under the name, replacing the password of an account of
    that name, leaves every other account as it was and empties the two
    fields. The name ["__proto__"] is the exception: the assignment
    reaches the prototype setter, nothing is stored, and the fields are
    emptied all the same. *)
Theorem addAccount_stores (st : Pane.State) (k : string) :
  Pane.newUsername st ≠ ""%string →
  Pane.newPassword st ≠ ""%string →
  Accounts.get k (paneAccounts (Pane.addAccount st))
  = (if negb (String.eqb (Pane.newUsername st) "__proto__")
        && String.eqb (Pane.newUsername st) k
     then Some (Pane.newPassword st)
     else Accounts.get k (paneAccounts st))
  ∧ Pane.newUsername (Pane.addAccount st) = ""%string
  ∧ Pane.newPassword (Pane.addAccount st) = ""%string.
Proof.
  intros Hu Hp. unfold Pane.addAccount, paneAccounts.
  destruct (Nat.eqb_spec (String.length (Pane.newUsername st)) 0) as [E|_].
  { by destruct (Pane.newUsername st). }
  destruct (Nat.eqb_spec (String.length (Pane.newPassword st)) 0) as [E|_].
  { by destruct (Pane.newPassword st). }
  simpl. split; [|done]. by apply get_set.
Qed.

(** ** The validators, further *)

Lemma digitsPrefix_append (s rest : string) (acc : Z) (seen : bool) (v : Z) :
  match rest with
  | String c _ => Validation.digitValue c = None
  | EmptyString => True
  end →
  Validation.digitsPrefix s acc seen = Some v →
  Validation.digitsPrefix (s ++ rest) acc seen = Some v.
Proof.
  intros Hrest. revert acc seen.
  induction s as [|c s IH]; intros acc seen; simpl.
  - destruct seen; [|done]. intros [= <-].
    destruct rest as [|c r]; [done|]. simpl. by rewrite Hrest.
  - destruct (Validation.digitValue c); [apply IH|done].
Qed.

Lemma trimStart_append (s rest : string) :
  Validation.trimStart s ≠ ""%string →
  Validation.trimStart (s ++ rest) = (Validation.trimStart s ++ rest)%string.
Proof.
  induction s as [|c s IH]; simpl; [done|].
  destruct (Validation.isStrWhiteSpaceChar c); [exact IH|done].
Qed.

Lemma parseInt10_append (s rest : string) (v : Z) :
  match rest with
  | String c _ => Validation.digitValue c = None
  | EmptyString => True
  end →
  Validation.parseInt10 s = Some v →
  Validation.parseInt10 (s ++ rest) = Some v.
Proof.
  intros Hrest. unfold Validation.parseInt10.
  destruct (Validation.trimStart s) as [|c t] eqn:Et; [done|].
  rewrite trimStart_append by (by rewrite Et). rewrite Et.
  change (String c t ++ rest)%string with (String c (t ++ rest)).
  assert (Hplain :
    Validation.digitsPrefix (String c t) 0 false = Some v →
    Validation.digitsPrefix (String c (t ++ rest)) 0 false = Some v).
  { apply (digitsPrefix_append (String c t) rest 0 false v Hrest). }
  destruct c as [[] [] [] [] [] [] [] []];
    first [ exact Hplain
          | apply (digitsPrefix_append t rest 0 false v Hrest)
          | idtac ].
  destruct (Validation.digitsPrefix t 0 false) as [w|] eqn:E; [|done].
  by rewrite (digitsPrefix_append t rest 0 false w Hrest E).
Qed.

(** X18. [isValidPort] reads the leading number and ignores what comes
    after it, as [parseInt] does: a port it accepts is still accepted
    with any text appended that does not start with a digit. *)
Theorem isValidPort_ignores_trailing_text (port rest : string)
    (required : bool) :
  match rest with
  | String c _ => Validation.digitValue c = None
  | EmptyString => True
  end →
  Validation.isValidPort port required = true →
  Validation.isValidPort (port ++ rest) required = true.
Proof.
  intros Hrest. unfold Validation.isValidPort.
  destruct (Validation.parseInt10 port) as [v|] eqn:E; [|done].
  by rewrite (parseInt10_append port rest v Hrest E).
Qed.

Lemma matchStart_class (p : ascii → bool) (s : string) :
  Color.matchStart (Color.Class p) s
  = match s with
    | String c t => if p c then [t] else []
    | EmptyString => []
    end.
Proof. done. Qed.

Lemma matchStart_seq (a b : Color.regex) (s : string) :
  Color.matchStart (Color.Seq a b) s
  = Color.matchStart a s ≫= Color.matchStart b.
Proof. done. Qed.

Lemma matchStart_optional (a : Color.regex) (s : string) :
  Color.matchStart (Color.Alt a Color.Empty) s = Color.matchStart a s ++ [s].
Proof. done. Qed.

(** Three hexadecimal digits at the start of [s], and what follows. *)
Lemma matchStart_three (s : string) :
  Color.matchStart
    (Color.Seq (Color.Class Color.hexDigit)
       (Color.Seq (Color.Class Color.hexDigit) (Color.Class Color.hexDigit))) s
  = match s with
    | String a (String b (String c t)) =>
        if Color.hexDigit a && Color.hexDigit b && Color.hexDigit c
        then [t] else []
    | _ => []
    end.
Proof.
  cbn [Color.matchStart].
  destruct s as [|a [|b [|c t]]]; simpl; [done|..].
  - by destruct (Color.hexDigit a).
  - destruct (Color.hexDigit a); [|done]. simpl.
    by destruct (Color.hexDigit b).
  - destruct (Color.hexDigit a); [|done]. simpl.
    destruct (Color.hexDigit b); [|done]. simpl.
    by destruct (Color.hexDigit c).
Qed.

(** X19. [isValidColor] accepts a string exactly when it is [#] followed
    by three or by six hexadecimal digits, in either case of the
    letters: no name, no four or eight digits, nothing before or
    after. *)
Theorem isValidColor_iff (color : string) :
  Color.isValidColor color = true ↔ Color.hexColor color.
Proof.
  unfold Color.isValidColor, Color.test, Color.colorRegex, Color.hexColor.
  cbv zeta.
  set (three := Color.Seq (Color.Class Color.hexDigit)
                  (Color.Seq (Color.Class Color.hexDigit)
                     (Color.Class Color.hexDigit))).
  assert (Hstep : ∀ s,
    Color.matchStart (Color.Seq three (Color.Alt three Color.Empty)) s
    = match s with
      | String a (String b (String c t)) =>
          if Color.hexDigit a && Color.hexDigit b && Color.hexDigit c
          then Color.matchStart three t ++ [t] else []
      | _ => []
      end).
  { intros s. rewrite matchStart_seq. subst three.
    rewrite matchStart_three.
    destruct s as [|a [|b [|c t]]]; try done.
    destruct (_ && _ && _); [|done].
    cbn [mbind list_bind]. by rewrite app_nil_r, matchStart_optional. }
  rewrite matchStart_seq, matchStart_class.
  destruct color as [|h s].
  { split; [done|]. by intros (d & [=] & _). }
  destruct (Ascii.eqb_spec "#"%char h) as [<-|Hh].
  2:{ split; [done|]. intros (d & [= ? _] & _). congruence. }
  cbn [mbind list_bind]. rewrite app_nil_r, Hstep.
  destruct s as [|a [|b [|c t]]].
  1-3: split; [done|]; intros (d & [= <-] & [Hl|Hl] & _); simpl in Hl; lia.
  destruct (Color.hexDigit a) eqn:Ha; cbn [andb existsb].
  2:{ split; [done|]. intros (d & [= <-] & _ & Hall). simpl in Hall.
      by rewrite Ha in Hall. }
  destruct (Color.hexDigit b) eqn:Hb; cbn [andb existsb].
  2:{ split; [done|]. intros (d & [= <-] & _ & Hall). simpl in Hall.
      by rewrite Ha, Hb in Hall. }
  destruct (Color.hexDigit c) eqn:Hc; cbn [andb existsb].
  2:{ split; [done|]. intros (d & [= <-] & _ & Hall). simpl in Hall.
      by rewrite Ha, Hb, Hc in Hall. }
  unfold three. rewrite matchStart_three.
  destruct t as [|a' [|b' [|c' t']]].
  - split; [|done]. intros _. eexists. split; [done|]. split; [by left|].
    simpl. by rewrite Ha, Hb, Hc.
  - split; [done|]. intros (d & [= <-] & [Hl|Hl] & _); simpl in Hl; lia.
  - split; [done|]. intros (d & [= <-] & [Hl|Hl] & _); simpl in Hl; lia.
  - destruct (Color.hexDigit a') eqn:Ha'; cbn [andb app existsb String.eqb orb].
    2:{ split; [done|]. intros (d & [= <-] & [Hl|Hl] & Hall);
          simpl in Hl; [lia|]. simpl in Hall.
        by rewrite Ha, Hb, Hc, Ha' in Hall. }
    destruct (Color.hexDigit b') eqn:Hb'; cbn [andb app existsb String.eqb orb].
    2:{ split; [done|]. intros (d & [= <-] & [Hl|Hl] & Hall);
          simpl in Hl; [lia|]. simpl in Hall.
        by rewrite Ha, Hb, Hc, Ha', Hb' in Hall. }
    destruct (Color.hexDigit c') eqn:Hc'; cbn [andb app existsb String.eqb orb].
    2:{ split; [done|]. intros (d & [= <-] & [Hl|Hl] & Hall);
          simpl in Hl; [lia|]. simpl in Hall.
        by rewrite Ha, Hb, Hc, Ha', Hb', Hc' in Hall. }
    destruct t' as [|x t'']; cbn [String.eqb orb].
    + split; [|done]. intros _. eexists. split; [done|].
      split; [by right|]. simpl. by rewrite Ha, Hb, Hc, Ha', Hb', Hc'.
    + split; [done|].
      intros (d & [= <-] & [Hl|Hl] & _); simpl in Hl; lia.
Qed.

(** X20. Every colour of the palette passes the validator, so that
    choosing one never marks the field invalid; nor does the empty
    field. *)
Theorem onChange_palette :
  Forall (λ color, Color.onChange color = false) Color.colors
  ∧ Color.onChange "" = false.
Proof. split; [|done]. repeat constructor. Qed.

(** ** The pcap forms *)

Lemma substring_all (s : string) : substring 0 (String.length s) s = s.
Proof. induction s as [|c s IH]; [done|]. simpl. by rewrite IH. Qed.

Lemma substring_append (stem suffix : string) :
  substring (String.length stem) (String.length suffix) (stem ++ suffix)
  = suffix.
Proof.
  induction stem as [|c stem IH]; simpl; [apply substring_all|exact IH].
Qed.

Lemma substring_split (s : string) (k : nat) :
  (k ≤ String.length s)%nat →
  s = (substring 0 k s ++ substring k (String.length s - k) s)%string.
Proof.
  revert k. induction s as [|c s IH]; intros k Hk.
  - by destruct k.
  - destruct k as [|k].
    + simpl. by rewrite substring_all.
    + simpl in *.
      change (String c s
              = String c (substring 0 k s
                          ++ substring k (String.length s - k) s)%string).
      rewrite <- (IH k) by lia. done.
Qed.

Lemma length_append (a b : string) :
  String.length (a ++ b) = (String.length a + String.length b)%nat.
Proof. induction a as [|c a IH]; [done|]. simpl. by rewrite IH. Qed.

Lemma endsWith_spec (s suffix : string) :
  PcapPane.endsWith s suffix = true ↔ ∃ stem, s = (stem ++ suffix)%string.
Proof.
  unfold PcapPane.endsWith. cbv zeta. split.
  - intros [Hle Heq]%andb_true_iff.
    apply Nat.leb_le in Hle. apply String.eqb_eq in Heq.
    exists (substring 0 (String.length s - String.length suffix) s).
    rewrite (substring_split s (String.length s - String.length suffix))
      at 1 by lia.
    f_equal. rewrite <- Heq at 3. f_equal. lia.
  - intros [stem ->]. rewrite length_append. apply andb_true_iff. split.
    + apply Nat.leb_le. lia.
    + apply String.eqb_eq.
      replace (String.length stem + String.length suffix
               - String.length suffix)%nat
        with (String.length stem) by lia.
      apply substring_append.
Qed.

Lemma endsWith_pcap (s : string) :
  PcapPane.endsWith s "pcap" || PcapPane.endsWith s "pcapng" = true
  ↔ PcapPane.pcapEnding s.
Proof.
  unfold PcapPane.pcapEnding.
  rewrite orb_true_iff, !endsWith_spec. split.
  - intros [[stem H]|[stem H]]; exists stem; [by left|by right].
  - intros [stem [H|H]]; [left|right]; by exists stem.
Qed.

Lemma handle_formsOk (st : PcapPane.State) (e : PcapPane.event) :
  PcapPane.formsOk st →
  PcapPane.formsOk (PcapPane.handle st e).2
  ∧ ∀ r, (PcapPane.handle st e).1 = Some r → PcapPane.requestOk r.
Proof.
  unfold PcapPane.formsOk.
  destruct st as [uv uf ua usel us ur fv ff fval fa fd fs fr].
  cbn [PcapPane.isUploadFileValid PcapPane.uploadSelectedFile
       PcapPane.isFileValid PcapPane.fileValue].
  intros [Hup Hfile].
  destruct e as [file|v| |ok status response|file|v|v| |ok status response];
    cbn [PcapPane.handle].
  - split; [|done]. split; [|done]. cbn.
    destruct file as [f|]; [|done].
    intros Hv f' [= <-]. by apply endsWith_pcap.
  - by split.
  - unfold PcapPane.uploadPcap. cbn.
    destruct usel as [f|]; [|by split].
    destruct uv; cbn.
    + split; [by split|]. intros r [= <-]. cbn. by apply Hup.
    + by split.
  - split; [|done]. unfold PcapPane.uploadAnswered. destruct ok; cbn; [|done].
    by split.
  - split; [|done]. cbn. split; [done|].
    intros Hv. right. by apply endsWith_pcap.
  - by split.
  - by split.
  - unfold PcapPane.processPcap. cbn.
    destruct (String.eqb_spec fval "") as [E|E]; cbn.
    { by split. }
    destruct fv; cbn.
    + split; [by split|]. intros r [= <-]. cbn. split; [done|].
      by destruct (Hfile eq_refl).
    + by split.
  - split; [|done]. unfold PcapPane.processAnswered.
    destruct ok; cbn; [|done]. split; [done|]. by left.
Qed.

(** X21. The pane only ever asks the backend to import a capture. Over
    any sequence of user actions and backend answers, from the state
    the constructor sets, every file posted to [/api/pcap/upload] has a
    type ending in [pcap] or [pcapng], and every path posted to
    [/api/pcap/file] is non-empty and ends in [pcap] or [pcapng]. *)
Theorem run_posts_pcap_only (events : list PcapPane.event) :
  Forall PcapPane.requestOk (PcapPane.run PcapPane.initial events).1.
Proof.
  assert (H : ∀ st, PcapPane.formsOk st →
                    Forall PcapPane.requestOk (PcapPane.run st events).1).
  { induction events as [|e events IH]; intros st Hst; [constructor|].
    cbn [PcapPane.run].
    destruct (handle_formsOk st e Hst) as [Hst' Hr].
    destruct (PcapPane.handle st e) as [r st'].
    specialize (IH st' Hst').
    destruct (PcapPane.run st' events) as [rs st'']. simpl in *.
    apply Forall_app. split; [|done].
    destruct r as [r|]; [|constructor].
    apply Forall_singleton. by apply Hr. }
  apply H. split; [done|]. intros _. by left.
Qed.

(** ** The further properties at sample inputs *)

Lemma sample_sorted_server :
  Sorted Z.le (concat (ConnectionStream.BlocksTimestamps
                         <$> serverDocuments Sample.storage)).
Proof.
  repeat first [apply Sorted_nil | apply Sorted_cons
               | apply HdRel_nil | apply HdRel_cons | lia].
Qed.

Lemma sample_view_ok : Connections.view_ok Sample.view.
Proof. split_and!; [done|done|]. vm_compute. discriminate. Qed.

Lemma sample_matches_ok (k : N) (slices : list PatternSlice)
    (slice : PatternSlice) :
  Sample2.matches !! k = Some slices → slice ∈ slices →
  0 <= slice.1 <= slice.2 ∧ slice.2 < 2 ^ 64.
Proof.
  unfold Sample2.matches.
  intros [_ <-]%lookup_singleton_Some ->%list_elem_of_singleton.
  simpl. lia.
Qed.

(** X1, witness: the block fields of the sample store. *)
Lemma GetConnectionPayload_block_fields_witness :
  wfStorage Sample.storage
  ∧ ∃ out,
      GetConnectionPayload Sample.nilMetadata Sample.Parse Sample.DecodeBytes
        Sample.ascending Sample.storage Sample.everything
      = Returned out
      ∧ ∀ fromClient : bool,
          payloadFields
            <$> filter (λ p, Payload.FromClient p = fromClient) out
          `sublist_of`
          concat (blockFields <$> sideDocuments Sample.storage fromClient).
Proof.
  split; [exact sample_wfStorage|].
  exact (GetConnectionPayload_block_fields Sample.nilMetadata Sample.Parse
           Sample.DecodeBytes Sample.ascending Sample.storage
           Sample.everything sample_wfStorage).
Defined.

(** X2, witness: both sides of the sample store are in timestamp order. *)
Lemma GetConnectionPayload_timestamps_sorted_witness :
  wfStorage Sample.storage
  ∧ Sorted Z.le (concat (ConnectionStream.BlocksTimestamps
                           <$> clientDocuments Sample.storage))
  ∧ Sorted Z.le (concat (ConnectionStream.BlocksTimestamps
                           <$> serverDocuments Sample.storage))
  ∧ ∃ out,
      GetConnectionPayload Sample.nilMetadata Sample.Parse Sample.DecodeBytes
        Sample.ascending Sample.storage Sample.everything
      = Returned out
      ∧ Sorted Z.le (Payload.Timestamp <$> out).
Proof.
  split; [exact sample_wfStorage|]. split; [exact sample_sorted|].
  split; [exact sample_sorted_server|].
  exact (GetConnectionPayload_timestamps_sorted Sample.nilMetadata
           Sample.Parse Sample.DecodeBytes Sample.ascending Sample.storage
           Sample.everything sample_wfStorage sample_sorted
           sample_sorted_server).
Defined.

(** X3, witness: the sample store holds 10 bytes, below the default limit. *)
Lemma GetConnectionPayload_whole_stream_witness :
  wfStorage Sample.storage
  ∧ Skip Sample.everything = 0
  ∧ storedBytes Sample.storage <= effectiveLimit Sample.everything
  ∧ effectiveLimit Sample.everything < 2 ^ 64
  ∧ ∃ out,
      GetConnectionPayload Sample.nilMetadata Sample.Parse Sample.DecodeBytes
        Sample.ascending Sample.storage Sample.everything
      = Returned out
      ∧ length out = (blockCount (clientDocuments Sample.storage)
                      + blockCount (serverDocuments Sample.storage))%nat
      ∧ ∀ fromClient : bool,
          ∃ blocks : list (list Byte.byte),
            concat blocks = sideBytes Sample.storage fromClient
            ∧ Payload.Content
                <$> filter (λ p, Payload.FromClient p = fromClient) out
              = (λ bytes, Sample.DecodeBytes bytes (Format Sample.everything))
                  <$> blocks.
Proof.
  assert (H1 : Skip Sample.everything = 0) by reflexivity.
  assert (H2 : storedBytes Sample.storage <= effectiveLimit Sample.everything)
    by (vm_compute; discriminate).
  assert (H3 : effectiveLimit Sample.everything < 2 ^ 64)
    by (vm_compute; reflexivity).
  split; [exact sample_wfStorage|]. split; [exact H1|]. split; [exact H2|].
  split; [exact H3|].
  exact (GetConnectionPayload_whole_stream Sample.nilMetadata Sample.Parse
           Sample.DecodeBytes Sample.ascending Sample.storage
           Sample.everything sample_wfStorage H1 H2 H3).
Defined.

(** X4, witness: a skip of 2^64-1 over the 10 bytes of the sample store. *)
Lemma GetConnectionPayload_skip_past_end_witness :
  wfStorage Sample.storage
  ∧ storedBytes Sample.storage <= Skip Sample.skipMax < 2 ^ 64
  ∧ GetConnectionPayload Sample.nilMetadata Sample.Parse Sample.DecodeBytes
      Sample.ascending Sample.storage Sample.skipMax
    = Returned [].
Proof.
  assert (H : storedBytes Sample.storage <= Skip Sample.skipMax < 2 ^ 64).
  { split; [vm_compute; discriminate|vm_compute; reflexivity]. }
  split; [exact sample_wfStorage|]. split; [exact H|].
  exact (GetConnectionPayload_skip_past_end Sample.nilMetadata Sample.Parse
           Sample.DecodeBytes Sample.ascending Sample.storage Sample.skipMax
           sample_wfStorage H).
Defined.

(** X5, witness: a connection whose only document, on the server side,
    holds no block. *)
Lemma GetConnectionPayload_first_documents_without_blocks_witness :
  ConnectionStream.BlocksIndexes
    (getConnectionStream Sample2.storageBlockless true 0) = []
  ∧ ConnectionStream.BlocksIndexes
      (getConnectionStream Sample2.storageBlockless false 0) = []
  ∧ IsZero (ConnectionStream.ID
              (getConnectionStream Sample2.storageBlockless true 0))
    && IsZero (ConnectionStream.ID
                 (getConnectionStream Sample2.storageBlockless false 0))
    = false
  ∧ GetConnectionPayload Sample.nilMetadata Sample.Parse Sample.DecodeBytes
      Sample.ascending Sample2.storageBlockless Sample.everything
    = Panicked.
Proof.
  split; [reflexivity|]. split; [reflexivity|]. split; [reflexivity|].
  exact (GetConnectionPayload_first_documents_without_blocks
           Sample.nilMetadata Sample.Parse Sample.DecodeBytes Sample.ascending
           Sample2.storageBlockless Sample.everything
           eq_refl eq_refl eq_refl).
Defined.

(** X7, witness: the page of 5 bytes after the first 3 bytes of the
    sample store, read with the maps iterated in descending key order,
    and the read from the start with the maps iterated in ascending
    order. *)
Lemma GetConnectionPayload_page_suffix_witness :
  (∀ b d k, validRange (Sample.descending b d k))
  ∧ (∀ b d k, validRange (Sample.ascending b d k))
  ∧ wfStorage Sample.storage
  ∧ storedBytes Sample.storage < 2 ^ 64
  ∧ 0 <= Skip Sample2.page
  ∧ 0 < Limit Sample2.page
  ∧ Skip Sample2.page + Limit Sample2.page < 2 ^ 64
  ∧ ∃ page whole tail,
      GetConnectionPayload Sample.nilMetadata Sample.Parse Sample.DecodeBytes
        Sample.descending Sample.storage Sample2.page
      = Returned page
      ∧ GetConnectionPayload Sample.nilMetadata Sample.Parse
          Sample.DecodeBytes Sample.ascending Sample.storage
          (mkQueryFormat (Format Sample2.page) 0
             (Skip Sample2.page + Limit Sample2.page))
        = Returned whole
      ∧ tail `suffix_of` whole
      ∧ Forall2 payloadSim page tail.
Proof.
  assert (H1 : storedBytes Sample.storage < 2 ^ 64)
    by (vm_compute; reflexivity).
  assert (H2 : 0 <= Skip Sample2.page) by (vm_compute; discriminate).
  assert (H3 : 0 < Limit Sample2.page) by (vm_compute; reflexivity).
  assert (H4 : Skip Sample2.page + Limit Sample2.page < 2 ^ 64)
    by (vm_compute; reflexivity).
  split; [exact descending_valid|]. split; [exact ascending_valid|].
  split; [exact sample_wfStorage|]. split; [exact H1|]. split; [exact H2|].
  split; [exact H3|]. split; [exact H4|].
  exact (GetConnectionPayload_page_suffix Sample.nilMetadata Sample.Parse
           Sample.DecodeBytes Sample.storage Sample2.page
           Sample.descending Sample.ascending
           descending_valid ascending_valid sample_wfStorage H1 H2 H3 H4).
Defined.

(** X8, witness: the match [[0,5]] and the block [[3,10)]. *)
Lemma findMatchesBetween_within_block_witness :
  validRange map_to_list
  ∧ 0 <= 3 <= 10 ∧ 10 < 2 ^ 64
  ∧ (∀ k slices slice,
       Sample2.matches !! k = Some slices → slice ∈ slices →
       0 <= slice.1 <= slice.2 ∧ slice.2 < 2 ^ 64)
  ∧ Forall (λ r, 0 <= From r <= To r ∧ To r <= 10 - 3)
           (findMatchesBetween map_to_list Sample2.matches 3 10).
Proof.
  assert (H0 : validRange map_to_list) by (intros m; reflexivity).
  assert (H1 : 0 <= 3 <= 10) by lia.
  assert (H2 : 10 < 2 ^ 64) by (vm_compute; reflexivity).
  split; [exact H0|]. split; [exact H1|]. split; [exact H2|].
  split; [exact sample_matches_ok|].
  exact (findMatchesBetween_within_block map_to_list Sample2.matches 3 10
           H0 H1 H2 sample_matches_ok).
Defined.

(** X9, witness: the iteration in key order. *)
Lemma findMatchesBetween_nil_iff_witness :
  validRange map_to_list
  ∧ (findMatchesBetween map_to_list Sample2.matches 6 10 = []
     ↔ ∀ k slices slice,
         Sample2.matches !! k = Some slices → slice ∈ slices →
         slice.2 < 6 ∨ 10 <= slice.1).
Proof.
  assert (H0 : validRange map_to_list) by (intros m; reflexivity).
  split; [exact H0|].
  exact (findMatchesBetween_nil_iff map_to_list Sample2.matches 6 10 H0).
Defined.

(** X10, witness: the match [[2,7]] over the blocks [[0,5)] and [[5,10)]. *)
Lemma matchSlice_across_blocks_witness :
  0 <= 0 < 5 ∧ 5 < 10 ∧ 10 < 2 ^ 64
  ∧ 0 <= (2, 7).1 < 5 ∧ 5 <= (2, 7).2 ∧ (2, 7).2 < 2 ^ 64
  ∧ (let first := mkRegexSlice (Z.max (2, 7).1 0 - 0) (5 - 0) in
     let second := mkRegexSlice 0 (Z.min (2, 7).2 10 - 5) in
     matchSlice 0 5 (2, 7) = [first]
     ∧ matchSlice 5 10 (2, 7) = [second]
     ∧ (To first - From first) + (To second - From second)
       = Z.min (2, 7).2 10 - Z.max (2, 7).1 0).
Proof.
  assert (H1 : 0 <= 0 < 5) by lia.
  assert (H2 : 5 < 10) by lia.
  assert (H3 : 10 < 2 ^ 64) by (vm_compute; reflexivity).
  assert (H4 : 0 <= (2, 7).1 < 5) by (simpl; lia).
  assert (H5 : 5 <= (2, 7).2) by (simpl; lia).
  assert (H6 : (2, 7).2 < 2 ^ 64) by (vm_compute; reflexivity).
  split; [exact H1|]. split; [exact H2|]. split; [exact H3|].
  split; [exact H4|]. split; [exact H5|]. split; [exact H6|].
  exact (matchSlice_across_blocks 0 5 10 (2, 7) H1 H2 H3 H4 H5 H6).
Defined.

(** X11, witness: the sample view of 480 rows, and the 50 rows after it. *)
Lemma loadConnections_at_most_maxConnections_witness :
  Connections.len (Connections.connections Sample.view)
  <= Connections.maxConnections
  ∧ (is_Some (Sample.fromLast ≫= Connections.from)
     ∨ is_Some (Sample.fromLast ≫= Connections.to))
  ∧ Connections.len
      (Connections.connections
         (Connections.loadConnections Sample.view Sample.fromLast
            Sample.nextRows))
    <= Connections.maxConnections.
Proof.
  assert (H1 : Connections.len (Connections.connections Sample.view)
               <= Connections.maxConnections)
    by (vm_compute; discriminate).
  assert (H2 : is_Some (Sample.fromLast ≫= Connections.from)
               ∨ is_Some (Sample.fromLast ≫= Connections.to))
    by (left; eexists; reflexivity).
  split; [exact H1|]. split; [exact H2|].
  exact (loadConnections_at_most_maxConnections Sample.view Sample.fromLast
           Sample.nextRows H1 H2).
Defined.

(** X12, witness: 480 rows held and 50 loaded. *)
Lemma loadConnections_from_trim_witness :
  is_Some (Sample.fromLast ≫= Connections.from)
  ∧ Sample.nextRows ≠ []
  ∧ Connections.maxConnections
    < Connections.len (Connections.connections Sample.view ++ Sample.nextRows)
  ∧ (let all := Connections.connections Sample.view ++ Sample.nextRows in
     let st' := Connections.loadConnections Sample.view Sample.fromLast
                  Sample.nextRows in
     ∃ x,
       last Sample.nextRows = Some x
       ∧ Connections.lastConnection st' = Some x
       ∧ Connections.connections st' ++ [x] = drop (length all - 500) all
       ∧ length (Connections.connections st') = 499%nat
       ∧ Connections.firstConnection st'
         = head (Connections.connections st')).
Proof.
  assert (H1 : is_Some (Sample.fromLast ≫= Connections.from))
    by (eexists; reflexivity).
  assert (H2 : Sample.nextRows ≠ []) by (vm_compute; discriminate).
  assert (H3 : Connections.maxConnections
               < Connections.len
                   (Connections.connections Sample.view ++ Sample.nextRows))
    by (vm_compute; reflexivity).
  split; [exact H1|]. split; [exact H2|]. split; [exact H3|].
  exact (loadConnections_from_trim Sample.view Sample.fromLast
           Sample.nextRows H1 H2 H3).
Defined.

(** X13, witness: the sample view, and the 20 rows before it. *)
Lemma loadConnections_page_keeps_view_witness :
  Connections.view_ok Sample.view
  ∧ Connections.connections Sample.view ≠ []
  ∧ (is_Some (Connections.from Sample2.toFirst)
     ∨ is_Some (Connections.to Sample2.toFirst))
  ∧ (is_Some (Connections.from Sample2.toFirst) →
     Connections.len (Connections.connections Sample.view
                      ++ Sample2.previousRows)
     <= Connections.maxConnections)
  ∧ Connections.view_ok
      (Connections.loadConnections Sample.view (Some Sample2.toFirst)
         Sample2.previousRows).
Proof.
  assert (H1 : Connections.connections Sample.view ≠ [])
    by (vm_compute; discriminate).
  assert (H2 : is_Some (Connections.from Sample2.toFirst)
               ∨ is_Some (Connections.to Sample2.toFirst))
    by (right; eexists; reflexivity).
  assert (H3 : is_Some (Connections.from Sample2.toFirst) →
               Connections.len (Connections.connections Sample.view
                                ++ Sample2.previousRows)
               <= Connections.maxConnections)
    by (intros _; vm_compute; discriminate).
  split; [exact sample_view_ok|]. split; [exact H1|]. split; [exact H2|].
  split; [exact H3|].
  exact (loadConnections_page_keeps_view Sample.view Sample2.toFirst
           Sample2.previousRows sample_view_ok H1 H2 H3).
Defined.

(** X17, witness: the account [alice] typed into the empty form. *)
Lemma addAccount_stores_witness :
  Pane.newUsername Sample2.newAccount ≠ ""%string
  ∧ Pane.newPassword Sample2.newAccount ≠ ""%string
  ∧ Accounts.get "alice" (paneAccounts (Pane.addAccount Sample2.newAccount))
    = (if negb (String.eqb (Pane.newUsername Sample2.newAccount) "__proto__")
          && String.eqb (Pane.newUsername Sample2.newAccount) "alice"
       then Some (Pane.newPassword Sample2.newAccount)
       else Accounts.get "alice" (paneAccounts Sample2.newAccount))
    ∧ Pane.newUsername (Pane.addAccount Sample2.newAccount) = ""%string
    ∧ Pane.newPassword (Pane.addAccount Sample2.newAccount) = ""%string.
Proof.
  assert (H1 : Pane.newUsername Sample2.newAccount ≠ ""%string)
    by (vm_compute; discriminate).
  assert (H2 : Pane.newPassword Sample2.newAccount ≠ ""%string)
    by (vm_compute; discriminate).
  split; [exact H1|]. split; [exact H2|].
  exact (addAccount_stores Sample2.newAccount "alice" H1 H2).
Defined.

(** X18, witness: the port 8080 followed by a path. *)
Lemma isValidPort_ignores_trailing_text_witness :
  Validation.digitValue "/" = None
  ∧ Validation.isValidPort "8080" true = true
  ∧ Validation.isValidPort ("8080" ++ "/admin") true = true.
Proof.
  split; [reflexivity|]. split; [reflexivity|].
  exact (isValidPort_ignores_trailing_text "8080" "/admin" true
           eq_refl eq_refl).
Defined.
